(** * MysqlResultSet: a shallow embedding of src/db/mysql/MysqlResultSet.c

    The cursor code is embedded function by function over an explicit
    state made of the result-set structure, the C heap holding the column
    buffers, and the prepared statement the cursor drives.  The statement
    is an executable reference model of the client-library calls the
    source makes ([mysql_stmt_fetch], [mysql_stmt_fetch_column], ...): it
    replays a list of rows, may fail according to a fault script, and logs
    every call it receives.

    The embedding is of the build with [MYSQL_VERSION_ID >= 50002], the
    branch of [MysqlResultSet_next] that calls [mysql_stmt_reset]. *)

From Stdlib Require Import ZArith Lia.

From Stdlib.Strings Require Import Byte.

From stdpp Require Import base numbers option list strings.

Local Open Scope Z_scope.

(* ================================================================== *)
(** * The embedding *)

(* ------------------------------------------------------------------ *)
(** ** C integers *)

(** Conversion to [int] (32 bit, two's complement). *)
Definition to_int (z : Z) : Z := (z + 2 ^ 31) mod 2 ^ 32 - 2 ^ 31.

(** Conversion to [long] (64 bit, two's complement). *)
Definition to_long (z : Z) : Z := (z + 2 ^ 63) mod 2 ^ 64 - 2 ^ 63.

(** Conversion to [unsigned long] (64 bit). *)
Definition to_ulong (z : Z) : Z := z mod 2 ^ 64.

Definition INT_MAX : Z := 2 ^ 31 - 1.

Definition LONG_MAX : Z := 2 ^ 63 - 1.

(* ------------------------------------------------------------------ *)
(** ** The heap of byte buffers *)

(** A byte of a buffer; [None] is a byte that was never written. *)
Abbreviation cell := (option byte).

Abbreviation block := (list cell).

(** The heap: the block at address [a] is entry [a]; a freed block is
    [None].  Addresses are never reused. *)
Abbreviation memory := (list (option block)).

(** A pointer to a buffer; [None] is [NULL]. *)
Abbreviation ptr := (option nat).

Definition live (m : memory) (a : nat) : option block :=
  match m !! a with
  | Some (Some b) => Some b
  | _ => None
  end.

(** Modelled from the spec: the allocation macro [ALLOC] of the
    repository's memory header (absent from src/): a fresh buffer of [n]
    bytes with indeterminate contents. *)
Definition ALLOC (n : Z) (m : memory) : nat * memory :=
  (length m, m ++ [Some (replicate (Z.to_nat n) None)]).

(** Modelled from the spec: the macro [FREE] (absent from src/): releases
    the buffer; [FREE(NULL)] does nothing; releasing an address that
    holds no live buffer is undefined ([None]). *)
Definition FREE (p : ptr) (m : memory) : option memory :=
  match p with
  | None => Some m
  | Some a =>
      match live m a with
      | Some _ => Some (<[a := None]> m)
      | None => None
      end
  end.

(** Modelled from the spec: the macro [RESIZE] (absent from src/): grows
    the buffer to [n] bytes, keeping the old contents; the buffer moves to
    a fresh address and the old address is released. *)
Definition RESIZE (p : ptr) (n : Z) (m : memory) : option (nat * memory) :=
  match p with
  | None => Some (ALLOC n m)
  | Some a =>
      match live m a with
      | Some b =>
          Some (length m, <[a := None]> m ++ [Some (resize (Z.to_nat n) None b)])
      | None => None
      end
  end.

(** [p[off] = x] *)
Definition poke (p : ptr) (off : Z) (x : byte) (m : memory) : option memory :=
  match p with
  | None => None
  | Some a =>
      match live m a with
      | Some b =>
          if (0 <=? off) && (off <? Z.of_nat (length b))
          then Some (<[a := Some (<[Z.to_nat off := Some x]> b)]> m)
          else None
      | None => None
      end
  end.

(** [memcpy(p, data, |data|)]; copying nothing touches no memory. *)
Definition memcpy (p : ptr) (data : list byte) (m : memory) : option memory :=
  if (length data =? 0)%nat then Some m
  else
    match p with
    | None => None
    | Some a =>
        match live m a with
        | Some b =>
            if (length data <=? length b)%nat
            then Some (<[a := Some ((Some <$> data) ++ drop (length data) b)]> m)
            else None
        | None => None
        end
    end.

(** The first [n] bytes at [p], when all of them were written. *)
Definition view (m : memory) (p : ptr) (n : nat) : option (list byte) :=
  match p with
  | None => None
  | Some a =>
      match live m a with
      | Some b => if (n <=? length b)%nat then mapM id (take n b) else None
      | None => None
      end
  end.

(** The byte [p[off]]. *)
Definition peek (m : memory) (p : ptr) (off : nat) : option byte :=
  match p with
  | None => None
  | Some a =>
      match live m a with
      | Some b => mjoin (b !! off)
      | None => None
      end
  end.

(* ------------------------------------------------------------------ *)
(** ** Structures of the source *)

(** [MYSQL_FIELD], of which the cursor reads the column name only. *)
Record MYSQL_FIELD : Type := { name : string }.

(** [struct column_t].  [field] is a pointer into the metadata. *)
Record column_t : Type := {
  is_null : bool;
  field : option MYSQL_FIELD;
  real_length : Z;
  buffer : ptr
}.

Definition set_is_null (c : column_t) (x : bool) : column_t :=
  {| is_null := x; field := field c; real_length := real_length c; buffer := buffer c |}.

Definition set_field (c : column_t) (x : option MYSQL_FIELD) : column_t :=
  {| is_null := is_null c; field := x; real_length := real_length c; buffer := buffer c |}.

Definition set_real_length (c : column_t) (x : Z) : column_t :=
  {| is_null := is_null c; field := field c; real_length := x; buffer := buffer c |}.

Definition set_buffer (c : column_t) (x : ptr) : column_t :=
  {| is_null := is_null c; field := field c; real_length := real_length c; buffer := x |}.

(** [MYSQL_BIND], the fields the cursor fills in.  [bind_is_null] and
    [bind_length] point at the [is_null] and [real_length] members of an
    entry of the column array, given by its index; [None] is [NULL]. *)
Record MYSQL_BIND : Type := {
  bind_buffer_type : Z;
  bind_buffer : ptr;
  bind_buffer_length : Z;
  bind_is_null : option nat;
  bind_length : option nat
}.

Definition set_bind_buffer_type (b : MYSQL_BIND) (x : Z) : MYSQL_BIND :=
  {| bind_buffer_type := x; bind_buffer := bind_buffer b;
     bind_buffer_length := bind_buffer_length b;
     bind_is_null := bind_is_null b; bind_length := bind_length b |}.

Definition set_bind_buffer (b : MYSQL_BIND) (x : ptr) : MYSQL_BIND :=
  {| bind_buffer_type := bind_buffer_type b; bind_buffer := x;
     bind_buffer_length := bind_buffer_length b;
     bind_is_null := bind_is_null b; bind_length := bind_length b |}.

Definition set_bind_buffer_length (b : MYSQL_BIND) (x : Z) : MYSQL_BIND :=
  {| bind_buffer_type := bind_buffer_type b; bind_buffer := bind_buffer b;
     bind_buffer_length := x;
     bind_is_null := bind_is_null b; bind_length := bind_length b |}.

Definition set_bind_is_null (b : MYSQL_BIND) (x : option nat) : MYSQL_BIND :=
  {| bind_buffer_type := bind_buffer_type b; bind_buffer := bind_buffer b;
     bind_buffer_length := bind_buffer_length b;
     bind_is_null := x; bind_length := bind_length b |}.

Definition set_bind_length (b : MYSQL_BIND) (x : option nat) : MYSQL_BIND :=
  {| bind_buffer_type := bind_buffer_type b; bind_buffer := bind_buffer b;
     bind_buffer_length := bind_buffer_length b;
     bind_is_null := bind_is_null b; bind_length := x |}.

(** A [calloc]ed [MYSQL_BIND] and [struct column_t]. *)
Definition zero_bind : MYSQL_BIND :=
  {| bind_buffer_type := 0; bind_buffer := None; bind_buffer_length := 0;
     bind_is_null := None; bind_length := None |}.

Definition zero_column : column_t :=
  {| is_null := false; field := None; real_length := 0; buffer := None |}.

Definition MYSQL_OK : Z := 0.

Definition MYSQL_NO_DATA : Z := 100.

Definition MYSQL_DATA_TRUNCATED : Z := 101.

Definition MYSQL_TYPE_STRING : Z := 254.

(* ------------------------------------------------------------------ *)
(** ** The prepared statement (the execution engine) *)

(** A column value of a row; [None] is SQL NULL. *)
Abbreviation value := (option (list byte)).

Abbreviation row := (list value).

(** The calls the engine receives. *)
Inductive engine_call : Type :=
  | call_result_metadata
  | call_bind_result (bs : list MYSQL_BIND)
  | call_store_result
  | call_fetch
  | call_fetch_column (b : MYSQL_BIND) (column offset : Z)
  | call_reset
  | call_free_result
  | call_close
  | call_free_meta.

(** [MYSQL_STMT]: the statement after execution.
    - [pending]: the rows of the result not fetched yet;
    - [current]: the row the last successful fetch delivered;
    - [bound]: the bind table copied by the last successful
      [mysql_stmt_bind_result];
    - [faults]: whether the coming fallible calls fail, one entry per
      call (no entry: the call does not fail);
    - [log]: the calls received, latest first. *)
Record MYSQL_STMT : Type := {
  field_count : Z;
  metadata : option (list MYSQL_FIELD);
  pending : list row;
  current : option row;
  bound : option (list MYSQL_BIND);
  faults : list bool;
  errtext : string;
  log : list engine_call
}.

Definition set_pending (s : MYSQL_STMT) (x : list row) : MYSQL_STMT :=
  {| field_count := field_count s; metadata := metadata s; pending := x;
     current := current s; bound := bound s; faults := faults s;
     errtext := errtext s; log := log s |}.

Definition set_current (s : MYSQL_STMT) (x : option row) : MYSQL_STMT :=
  {| field_count := field_count s; metadata := metadata s; pending := pending s;
     current := x; bound := bound s; faults := faults s;
     errtext := errtext s; log := log s |}.

Definition set_bound (s : MYSQL_STMT) (x : option (list MYSQL_BIND)) : MYSQL_STMT :=
  {| field_count := field_count s; metadata := metadata s; pending := pending s;
     current := current s; bound := x; faults := faults s;
     errtext := errtext s; log := log s |}.

Definition set_faults (s : MYSQL_STMT) (x : list bool) : MYSQL_STMT :=
  {| field_count := field_count s; metadata := metadata s; pending := pending s;
     current := current s; bound := bound s; faults := x;
     errtext := errtext s; log := log s |}.

Definition logged (c : engine_call) (s : MYSQL_STMT) : MYSQL_STMT :=
  {| field_count := field_count s; metadata := metadata s; pending := pending s;
     current := current s; bound := bound s; faults := faults s;
     errtext := errtext s; log := c :: log s |}.

(** Whether the call being made fails. *)
Definition take_fault (s : MYSQL_STMT) : bool * MYSQL_STMT :=
  match faults s with
  | [] => (false, s)
  | f :: fs => (f, set_faults s fs)
  end.

Definition mysql_stmt_error (s : MYSQL_STMT) : string := errtext s.

Definition mysql_stmt_field_count (s : MYSQL_STMT) : Z := field_count s.

Definition mysql_stmt_result_metadata (s : MYSQL_STMT)
  : option (list MYSQL_FIELD) * MYSQL_STMT :=
  (metadata s, logged call_result_metadata s).

(** [&res->fields[i]], without a bounds check as in the library. *)
Definition mysql_fetch_field_direct (res : list MYSQL_FIELD) (i : Z)
  : option MYSQL_FIELD :=
  if i <? 0 then None else res !! Z.to_nat i.

(** Copies the bind table into the statement; 0 on success. *)
Definition mysql_stmt_bind_result (s : MYSQL_STMT) (bs : list MYSQL_BIND)
  : Z * MYSQL_STMT :=
  let (f, s1) := take_fault (logged (call_bind_result bs) s) in
  if f then (1, s1) else (0, set_bound s1 (Some bs)).

Definition mysql_stmt_store_result (s : MYSQL_STMT) : Z * MYSQL_STMT :=
  let (f, s1) := take_fault (logged call_store_result s) in
  if f then (1, s1) else (0, s1).

(** [*p = x] for a pointer to the [is_null] member of a column. *)
Definition store_is_null (p : option nat) (x : bool) (cols : list column_t)
  : option (list column_t) :=
  match p with
  | None => Some cols
  | Some j => c ← cols !! j; Some (<[j := set_is_null c x]> cols)
  end.

(** [*p = x] for a pointer to the [real_length] member of a column. *)
Definition store_length (p : option nat) (x : Z) (cols : list column_t)
  : option (list column_t) :=
  match p with
  | None => Some cols
  | Some j => c ← cols !! j; Some (<[j := set_real_length c x]> cols)
  end.

(** Delivers the part of [v] from [offset] on through the bind [b]: the
    null flag, the full length of the value, and as many bytes as the
    bound buffer takes.  The flag returned tells whether bytes were left
    out. *)
Definition store_value (b : MYSQL_BIND) (v : value) (offset : Z)
    (cols : list column_t) (m : memory)
  : option (bool * list column_t * memory) :=
  match v with
  | None =>
      cols1 ← store_is_null (bind_is_null b) true cols;
      Some (false, cols1, m)
  | Some data =>
      cols1 ← store_is_null (bind_is_null b) false cols;
      cols2 ← store_length (bind_length b) (Z.of_nat (length data)) cols1;
      m1 ← memcpy (bind_buffer b)
             (take (Z.to_nat (bind_buffer_length b)) (drop (Z.to_nat offset) data)) m;
      Some (bind_buffer_length b <? Z.of_nat (length data) - offset, cols2, m1)
  end.

(** Delivers a row through the bound table, column by column. *)
Fixpoint store_row (bs : list MYSQL_BIND) (r : row)
    (cols : list column_t) (m : memory)
  : option (bool * list column_t * memory) :=
  match bs, r with
  | b :: bs', v :: r' =>
      '(t, cols1, m1) ← store_value b v 0 cols m;
      '(t', cols2, m2) ← store_row bs' r' cols1 m1;
      Some (t || t', cols2, m2)
  | _, _ => Some (false, cols, m)
  end.

(** Fetches the next row into the bound buffers: 0, 1 (error),
    [MYSQL_NO_DATA] or [MYSQL_DATA_TRUNCATED].  [None] is a write
    through an invalid pointer. *)
Definition mysql_stmt_fetch (s : MYSQL_STMT) (cols : list column_t) (m : memory)
  : option (Z * MYSQL_STMT * list column_t * memory) :=
  let (f, s1) := take_fault (logged call_fetch s) in
  if f then Some (1, s1, cols, m)
  else
    match pending s1 with
    | [] => Some (MYSQL_NO_DATA, set_current s1 None, cols, m)
    | r :: rest =>
        '(t, cols1, m1) ← store_row (default [] (bound s1)) r cols m;
        Some (if t : bool then MYSQL_DATA_TRUNCATED else MYSQL_OK,
              set_current (set_pending s1 rest) (Some r), cols1, m1)
    end.

(** Fetches one column of the current row through the bind [b] given by
    the caller; 1 when there is no current row or no such column. *)
Definition mysql_stmt_fetch_column (s : MYSQL_STMT) (b : MYSQL_BIND)
    (column offset : Z) (cols : list column_t) (m : memory)
  : option (Z * MYSQL_STMT * list column_t * memory) :=
  let (f, s1) := take_fault (logged (call_fetch_column b column offset) s) in
  if f then Some (1, s1, cols, m)
  else
    match current s1 with
    | None => Some (1, s1, cols, m)
    | Some r =>
        if (column <? 0) || (field_count s1 <=? column) then Some (1, s1, cols, m)
        else
          match r !! Z.to_nat column with
          | None => Some (1, s1, cols, m)
          | Some v =>
              '(_, cols1, m1) ← store_value b v offset cols m;
              Some (0, s1, cols1, m1)
          end
    end.

(** Discards the rows not fetched yet. *)
Definition mysql_stmt_reset (s : MYSQL_STMT) : MYSQL_STMT :=
  set_current (set_pending (logged call_reset s) []) None.

Definition mysql_stmt_free_result (s : MYSQL_STMT) : MYSQL_STMT :=
  set_current (set_pending (logged call_free_result s) []) None.

Definition mysql_stmt_close (s : MYSQL_STMT) : MYSQL_STMT := logged call_close s.

Definition mysql_free_result (s : MYSQL_STMT) : MYSQL_STMT := logged call_free_meta s.

(* ------------------------------------------------------------------ *)
(** ** The result set and the program state *)

(** [struct ResultSetDelegate_T].  [bind] and [columns] are the two
    arrays ([None]: the [NULL] pointer); the [stmt] pointer is the
    statement of the state below. *)
Record ResultSetDelegate_T : Type := {
  stop : bool;
  keep : Z;
  maxRows : Z;
  lastError : Z;
  needRebind : bool;
  currentRow : Z;
  columnCount : Z;
  meta : option (list MYSQL_FIELD);
  bind : option (list MYSQL_BIND);
  columns : option (list column_t)
}.

Definition set_stop (r : ResultSetDelegate_T) (x : bool) : ResultSetDelegate_T :=
  {| stop := x; keep := keep r; maxRows := maxRows r; lastError := lastError r;
     needRebind := needRebind r; currentRow := currentRow r;
     columnCount := columnCount r; meta := meta r; bind := bind r;
     columns := columns r |}.

Definition set_keep (r : ResultSetDelegate_T) (x : Z) : ResultSetDelegate_T :=
  {| stop := stop r; keep := x; maxRows := maxRows r; lastError := lastError r;
     needRebind := needRebind r; currentRow := currentRow r;
     columnCount := columnCount r; meta := meta r; bind := bind r;
     columns := columns r |}.

Definition set_maxRows (r : ResultSetDelegate_T) (x : Z) : ResultSetDelegate_T :=
  {| stop := stop r; keep := keep r; maxRows := x; lastError := lastError r;
     needRebind := needRebind r; currentRow := currentRow r;
     columnCount := columnCount r; meta := meta r; bind := bind r;
     columns := columns r |}.

Definition set_lastError (r : ResultSetDelegate_T) (x : Z) : ResultSetDelegate_T :=
  {| stop := stop r; keep := keep r; maxRows := maxRows r; lastError := x;
     needRebind := needRebind r; currentRow := currentRow r;
     columnCount := columnCount r; meta := meta r; bind := bind r;
     columns := columns r |}.

Definition set_needRebind (r : ResultSetDelegate_T) (x : bool) : ResultSetDelegate_T :=
  {| stop := stop r; keep := keep r; maxRows := maxRows r; lastError := lastError r;
     needRebind := x; currentRow := currentRow r;
     columnCount := columnCount r; meta := meta r; bind := bind r;
     columns := columns r |}.

Definition set_currentRow (r : ResultSetDelegate_T) (x : Z) : ResultSetDelegate_T :=
  {| stop := stop r; keep := keep r; maxRows := maxRows r; lastError := lastError r;
     needRebind := needRebind r; currentRow := x;
     columnCount := columnCount r; meta := meta r; bind := bind r;
     columns := columns r |}.

Definition set_columnCount (r : ResultSetDelegate_T) (x : Z) : ResultSetDelegate_T :=
  {| stop := stop r; keep := keep r; maxRows := maxRows r; lastError := lastError r;
     needRebind := needRebind r; currentRow := currentRow r;
     columnCount := x; meta := meta r; bind := bind r;
     columns := columns r |}.

Definition set_meta (r : ResultSetDelegate_T) (x : option (list MYSQL_FIELD))
  : ResultSetDelegate_T :=
  {| stop := stop r; keep := keep r; maxRows := maxRows r; lastError := lastError r;
     needRebind := needRebind r; currentRow := currentRow r;
     columnCount := columnCount r; meta := x; bind := bind r;
     columns := columns r |}.

Definition set_bind (r : ResultSetDelegate_T) (x : option (list MYSQL_BIND))
  : ResultSetDelegate_T :=
  {| stop := stop r; keep := keep r; maxRows := maxRows r; lastError := lastError r;
     needRebind := needRebind r; currentRow := currentRow r;
     columnCount := columnCount r; meta := meta r; bind := x;
     columns := columns r |}.

Definition set_columns (r : ResultSetDelegate_T) (x : option (list column_t))
  : ResultSetDelegate_T :=
  {| stop := stop r; keep := keep r; maxRows := maxRows r; lastError := lastError r;
     needRebind := needRebind r; currentRow := currentRow r;
     columnCount := columnCount r; meta := meta r; bind := bind r;
     columns := x |}.

(** The structure as [NEW(R)] leaves it: all zero. *)
Definition zero_R : ResultSetDelegate_T :=
  {| stop := false; keep := 0; maxRows := 0; lastError := 0;
     needRebind := false; currentRow := 0; columnCount := 0;
     meta := None; bind := None; columns := None |}.

Record state : Type := {
  R : ResultSetDelegate_T;
  mem : memory;
  stmt : MYSQL_STMT
}.

Definition set_R (st : state) (x : ResultSetDelegate_T) : state :=
  {| R := x; mem := mem st; stmt := stmt st |}.

Definition set_mem (st : state) (x : memory) : state :=
  {| R := R st; mem := x; stmt := stmt st |}.

Definition set_stmt (st : state) (x : MYSQL_STMT) : state :=
  {| R := R st; mem := mem st; stmt := x |}.

(* ------------------------------------------------------------------ *)
(** ** Outcomes: return, exception, undefined behaviour *)

(** [THROW(SQLException, format, arg)]. *)
Inductive exception : Type :=
  | SQLException (format arg : string).

(** What a call does: it returns [a] in state [s], raises [e] in state
    [s] (the writes made before the [THROW] stay), or has no defined
    behaviour (a [NULL] or out-of-bounds access). *)
Inductive outcome (S A : Type) : Type :=
  | Ok (a : A) (s : S)
  | Throw (e : exception) (s : S)
  | Undefined.

Arguments Ok {S A} a s.

Arguments Throw {S A} e s.

Arguments Undefined {S A}.

Definition M (A : Type) : Type := state → outcome state A.

#[global] Instance M_ret : MRet M := λ A a st, Ok a st.

#[global] Instance M_bind : MBind M := λ A B f x st,
  match x st with
  | Ok a st' => f a st'
  | Throw e st' => Throw e st'
  | Undefined => Undefined
  end.

Definition throw {A} (e : exception) : M A := λ st, Throw e st.

Definition undefined {A} : M A := λ _, Undefined.

Definition getR : M ResultSetDelegate_T := λ st, Ok (R st) st.

Definition modifyR (f : ResultSetDelegate_T → ResultSetDelegate_T) : M unit :=
  λ st, Ok tt (set_R st (f (R st))).

Definition getStmt : M MYSQL_STMT := λ st, Ok (stmt st) st.

Definition getMem : M memory := λ st, Ok (mem st) st.

Definition putMem (m : memory) : M unit := λ st, Ok tt (set_mem st m).

(** A call of the engine that touches the statement only. *)
Definition engine {A} (f : MYSQL_STMT → A * MYSQL_STMT) : M A :=
  λ st, let (a, s) := f (stmt st) in Ok a (set_stmt st s).

Definition engine_ (f : MYSQL_STMT → MYSQL_STMT) : M unit :=
  λ st, Ok tt (set_stmt st (f (stmt st))).

(** A call of the engine that writes through the bound pointers. *)
Definition engine_io
    (f : MYSQL_STMT → list column_t → memory →
         option (Z * MYSQL_STMT * list column_t * memory)) : M Z :=
  λ st,
    match f (stmt st) (default [] (columns (R st))) (mem st) with
    | None => Undefined
    | Some (rc, s, cols, m) =>
        Ok rc {| R := match columns (R st) with
                      | Some _ => set_columns (R st) (Some cols)
                      | None => R st
                      end;
                 mem := m; stmt := s |}
    end.

(** An optional result that must be there. *)
Definition defined {A} (o : option A) : M A :=
  match o with
  | Some a => mret a
  | None => undefined
  end.

Definition at_index {A} (l : option (list A)) (i : Z) : option A :=
  l' ← l; if i <? 0 then None else l' !! Z.to_nat i.

(** [R->columns[i]] and [R->bind[i]], read and written. *)
Definition column_at (i : Z) : M column_t :=
  r ← getR; defined (at_index (columns r) i).

Definition bind_at (i : Z) : M MYSQL_BIND :=
  r ← getR; defined (at_index (bind r) i).

Definition update_column (i : Z) (f : column_t → column_t) : M unit :=
  c ← column_at i;
  modifyR (λ r, set_columns r (<[Z.to_nat i := f c]> <$> columns r)).

Definition update_bind (i : Z) (f : MYSQL_BIND → MYSQL_BIND) : M unit :=
  b ← bind_at i;
  modifyR (λ r, set_bind r (<[Z.to_nat i := f b]> <$> bind r)).

(** [for (int i = start; i < start + count; i++) body(i)] *)
Fixpoint for_range (start : Z) (count : nat) (body : Z → M unit) : M unit :=
  match count with
  | O => mret tt
  | S k => body start;; for_range (start + 1) k body
  end.

(* ------------------------------------------------------------------ *)
(** ** The functions of MysqlResultSet.c *)

(** Modelled from the spec: the constant [STRLEN] of the repository's
    configuration header (absent from src/), the default capacity of a
    column buffer; the spec's scenario gives 256. *)
Definition STRLEN : Z := 256.

(** The exception for a column index out of range. *)
Definition IndexError : exception :=
  SQLException "Column index is out of range" EmptyString.

(** Modelled from the spec: the helper [checkAndSetColumnIndex] of the
    delegate header (absent from src/): the index is valid when
    [1 <= columnIndex <= columnCount] and is converted to the 0-based
    index; otherwise the call fails with an index error. *)
Definition checkAndSetColumnIndex (columnIndex columnCount : Z) : M Z :=
  if (1 <=? columnIndex) && (columnIndex <=? columnCount)
  then mret (columnIndex - 1)
  else throw IndexError.

Definition when (c : bool) (body : M unit) : M unit :=
  if c then body else mret tt.

Definition _ensureCapacity (i : Z) : M unit :=
  c ← column_at i;
  b ← bind_at i;
  when (bind_buffer_length b <? real_length c) (
    (* Column was truncated, resize and fetch column directly. *)
    m ← getMem;
    '(a, m1) ← defined (RESIZE (buffer c) (to_ulong (real_length c + 1)) m);
    putMem m1;;
    update_column i (λ c, set_buffer c (Some a));;
    c ← column_at i;
    update_bind i (λ b, set_bind_buffer b (buffer c));;
    update_bind i (λ b, set_bind_buffer_length b (real_length c));;
    b ← bind_at i;
    rc ← engine_io (λ s, mysql_stmt_fetch_column s b i 0);
    modifyR (λ r, set_lastError r rc);;
    when (negb (rc =? 0)) (
      s ← getStmt;
      throw (SQLException "mysql_stmt_fetch_column -- %s" (mysql_stmt_error s)));;
    modifyR (λ r, set_needRebind r true)).

(** The body of the loop of [MysqlResultSet_new], for column [i]. *)
Definition new_column (i : Z) : M unit :=
  m ← getMem;
  let (a, m1) := ALLOC (STRLEN + 1) m in
  putMem m1;;
  update_column i (λ c, set_buffer c (Some a));;
  update_bind i (λ b, set_bind_buffer_type b MYSQL_TYPE_STRING);;
  c ← column_at i;
  update_bind i (λ b, set_bind_buffer b (buffer c));;
  update_bind i (λ b, set_bind_buffer_length b STRLEN);;
  update_bind i (λ b, set_bind_is_null b (Some (Z.to_nat i)));;
  update_bind i (λ b, set_bind_length b (Some (Z.to_nat i)));;
  r ← getR;
  fields ← defined (meta r);
  update_column i (λ c, set_field c (mysql_fetch_field_direct fields i)).

Definition new_body (maxRows keep : Z) : M unit :=
  modifyR (λ r, set_keep r keep);;
  modifyR (λ r, set_maxRows r maxRows);;
  s ← getStmt;
  modifyR (λ r, set_columnCount r (to_int (mysql_stmt_field_count s)));;
  r ← getR;
  failed ← (if columnCount r <=? 0 then mret true
            else
              res ← engine mysql_stmt_result_metadata;
              modifyR (λ r, set_meta r res);;
              mret (match res with None => true | Some _ => false end));
  if failed : bool then
    modifyR (λ r, set_stop r true)
  else
    r ← getR;
    let n := Z.to_nat (columnCount r) in
    modifyR (λ r, set_bind r (Some (replicate n zero_bind)));;
    modifyR (λ r, set_columns r (Some (replicate n zero_column)));;
    for_range 0 n new_column;;
    r ← getR;
    bs ← defined (bind r);
    rc ← engine (λ s, mysql_stmt_bind_result s bs);
    modifyR (λ r, set_lastError r rc);;
    when (negb (rc =? 0)) (modifyR (λ r, set_stop r true));;
    (* Store resultset client side *)
    rc ← engine mysql_stmt_store_result;
    modifyR (λ r, set_lastError r rc).

(** [MysqlResultSet_new(stmt, maxRows, keep)], with the heap [m]. *)
Definition MysqlResultSet_new (s : MYSQL_STMT) (maxRows keep : Z) (m : memory)
  : outcome state unit :=
  new_body maxRows keep {| R := zero_R; mem := m; stmt := s |}.

(** The body of the loop of [MysqlResultSet_free], for column [i]:
    [FREE] releases the buffer and clears the pointer. *)
Definition free_column (i : Z) : M unit :=
  c ← column_at i;
  m ← getMem;
  m1 ← defined (FREE (buffer c) m);
  putMem m1;;
  update_column i (λ c, set_buffer c None).

Definition free_body : M unit :=
  r ← getR;
  for_range 0 (Z.to_nat (columnCount r)) free_column;;
  engine_ mysql_stmt_free_result;;
  when (keep r =? 0) (engine_ mysql_stmt_close);;
  when (match meta r with Some _ => true | None => false end)
       (engine_ mysql_free_result);;
  modifyR (λ r, set_columns r None);;
  modifyR (λ r, set_bind r None).

(** [MysqlResultSet_free(&R)]: what is left is the heap and the
    statement. *)
Definition MysqlResultSet_free (st : state) : outcome (memory * MYSQL_STMT) unit :=
  match free_body st with
  | Ok _ st' => Ok tt (mem st', stmt st')
  | Throw e st' => Throw e (mem st', stmt st')
  | Undefined => Undefined
  end.

Definition MysqlResultSet_getColumnCount : M Z :=
  r ← getR; mret (columnCount r).

Definition MysqlResultSet_getColumnName (columnIndex : Z) : M (option string) :=
  r ← getR;
  let columnIndex := to_int (columnIndex - 1) in
  if (columnCount r <=? 0) || (columnIndex <? 0) || (columnCount r <? columnIndex)
  then mret None
  else
    c ← column_at columnIndex;
    f ← defined (field c);
    mret (Some (name f)).

Definition MysqlResultSet_getColumnSize (columnIndex : Z) : M Z :=
  r ← getR;
  i ← checkAndSetColumnIndex columnIndex (columnCount r);
  c ← column_at i;
  if is_null c then mret 0
  else mret (to_long (real_length c)).

Definition MysqlResultSet_next : M bool :=
  r ← getR;
  if stop r then mret false
  else
    limit ← (if maxRows r =? 0 then mret false
             else
               modifyR (λ r, set_currentRow r (to_int (currentRow r + 1)));;
               mret (maxRows r <=? currentRow r));
    if limit : bool then
      modifyR (λ r, set_stop r true);;
      engine_ mysql_stmt_reset;;
      mret false
    else
      r ← getR;
      when (needRebind r) (
        bs ← defined (bind r);
        rc ← engine (λ s, mysql_stmt_bind_result s bs);
        modifyR (λ r, set_lastError r rc);;
        when (negb (rc =? 0)) (
          s ← getStmt;
          throw (SQLException "mysql_stmt_bind_result -- %s" (mysql_stmt_error s)));;
        modifyR (λ r, set_needRebind r false));;
      rc ← engine_io mysql_stmt_fetch;
      modifyR (λ r, set_lastError r rc);;
      when (rc =? 1) (
        s ← getStmt;
        throw (SQLException "mysql_stmt_fetch -- %s" (mysql_stmt_error s)));;
      mret ((rc =? MYSQL_OK) || (rc =? MYSQL_DATA_TRUNCATED)).

Definition MysqlResultSet_isnull (columnIndex : Z) : M bool :=
  r ← getR;
  i ← checkAndSetColumnIndex columnIndex (columnCount r);
  c ← column_at i;
  mret (is_null c).

(** The write [p[off] = x] into the heap. *)
Definition store_byte (p : ptr) (off : Z) (x : byte) : M unit :=
  m ← getMem;
  m1 ← defined (poke p off x m);
  putMem m1.

Definition MysqlResultSet_getString (columnIndex : Z) : M ptr :=
  r ← getR;
  i ← checkAndSetColumnIndex columnIndex (columnCount r);
  c ← column_at i;
  if is_null c then mret None
  else
    _ensureCapacity i;;
    c ← column_at i;
    store_byte (buffer c) (real_length c) x00;;
    c ← column_at i;
    mret (buffer c).

(** The result is the pointer returned and the value written to
    [*size] ([None]: [*size] is not written). *)
Definition MysqlResultSet_getBlob (columnIndex : Z) : M (ptr * option Z) :=
  r ← getR;
  i ← checkAndSetColumnIndex columnIndex (columnCount r);
  c ← column_at i;
  if is_null c then mret (None, None)
  else
    _ensureCapacity i;;
    c ← column_at i;
    mret (buffer c, Some (to_int (real_length c))).

(* ================================================================== *)
(** * The vocabulary of the statements *)

(* ------------------------------------------------------------------ *)
(** ** The size of a block *)

(** The size of the live block at [a]. *)
Definition blen (m : memory) (a : nat) : option nat := length <$> live m a.

(* ------------------------------------------------------------------ *)
(** ** What the engine delivers *)

(** What a delivered value leaves in the column it is bound to. *)
Definition deliver (v : value) (c : column_t) : column_t :=
  match v with
  | None => set_is_null c true
  | Some d => set_real_length (set_is_null c false) (Z.of_nat (length d))
  end.

(** The column holds the null flag and the length of [v]. *)
Definition in_sync (v : value) (c : column_t) : Prop :=
  match v with
  | None => is_null c = true
  | Some d => is_null c = false ∧ real_length c = Z.of_nat (length d)
  end.

(** The bytes a bind receives from a value. *)
Definition delivered_bytes (b : MYSQL_BIND) (v : value) (offset : Z) : list byte :=
  match v with
  | None => []
  | Some d => take (Z.to_nat (bind_buffer_length b)) (drop (Z.to_nat offset) d)
  end.

(** The bind table points entry [j] at column [k + j]. *)
Definition pointers_from (k : nat) (bs : list MYSQL_BIND) : Prop :=
  ∀ j b, bs !! j = Some b →
    bind_is_null b = Some (k + j)%nat ∧ bind_length b = Some (k + j)%nat.

(* ------------------------------------------------------------------ *)
(** ** The invariant of the cursor *)

(** A column value the buffers can hold: its length fits a [long]. *)
Definition value_ok (v : value) : Prop :=
  match v with
  | Some d => Z.of_nat (length d) < LONG_MAX
  | None => True
  end.

Definition row_ok (r : row) : Prop := Forall value_ok r.

(** The statement as [MysqlResultSet_new] receives it: executed, no row
    fetched yet, the column count an [unsigned int]. *)
Record executed (s : MYSQL_STMT) : Prop := {
  executed_current : current s = None;
  executed_count : 0 ≤ field_count s < 2 ^ 32;
  executed_rows : Forall row_ok (pending s)
}.

(** Column [i] and its bind entry: both point at the same live buffer,
    which is one byte larger than the capacity given to the engine, and
    the bind entry points at the column's null flag and length. *)
Record slot_ok (m : memory) (i : nat) (c : column_t) (b : MYSQL_BIND) : Prop := {
  slot_buffer : is_Some (buffer c);
  slot_bind_buffer : bind_buffer b = buffer c;
  slot_capacity : 0 ≤ bind_buffer_length b;
  slot_size : ∀ a, buffer c = Some a →
      blen m a = Some (Z.to_nat (bind_buffer_length b + 1));
  slot_is_null : bind_is_null b = Some i;
  slot_length : bind_length b = Some i;
  slot_real_length : 0 ≤ real_length c < LONG_MAX
}.

Record tables_ok (st : state) (cols : list column_t) (bs : list MYSQL_BIND)
  : Prop := {
  tables_columns : length cols = Z.to_nat (columnCount (R st));
  tables_bind : length bs = Z.to_nat (columnCount (R st));
  tables_count : columnCount (R st) = field_count (stmt st);
  tables_slots : ∀ i c b, cols !! i = Some c → bs !! i = Some b →
      slot_ok (mem st) i c b;
  tables_distinct : ∀ i j c c', cols !! i = Some c → cols !! j = Some c' →
      buffer c = buffer c' → i = j
}.

(** The capacities the engine holds are not above those of the table:
    buffers only grow. *)
Definition capacities_below (reg : list MYSQL_BIND)
    (table : option (list MYSQL_BIND)) : Prop :=
  ∀ bs j br b, table = Some bs → reg !! j = Some br → bs !! j = Some b →
    bind_buffer_length br ≤ bind_buffer_length b.

Record Inv (st : state) : Prop := {
  inv_tables :
    match columns (R st), bind (R st) with
    | Some cols, Some bs => tables_ok st cols bs
    | None, None => stop (R st) = true
    | _, _ => False
    end;
  inv_count : - 2 ^ 31 ≤ columnCount (R st) < 2 ^ 31;
  inv_row : ∀ r cols i c v,
    current (stmt st) = Some r → columns (R st) = Some cols →
    cols !! i = Some c → r !! i = Some v → in_sync v c;
  inv_current : columns (R st) = None → current (stmt st) = None;
  inv_pending : Forall row_ok (pending (stmt st));
  inv_bound : stop (R st) = false →
    ∃ reg, bound (stmt st) = Some reg ∧
      length reg = Z.to_nat (columnCount (R st)) ∧ pointers_from 0 reg ∧
      capacities_below reg (bind (R st))
}.

(* ------------------------------------------------------------------ *)
(** ** The state after construction *)

(** A column buffer as [MysqlResultSet_new] allocates it. *)
Definition fresh_block : block := replicate (Z.to_nat (STRLEN + 1)) None.

(** Column [i] and its bind entry after the loop of
    [MysqlResultSet_new], with the buffer at address [a]. *)
Definition init_column (fields : list MYSQL_FIELD) (a i : nat) : column_t :=
  {| is_null := false; field := mysql_fetch_field_direct fields (Z.of_nat i);
     real_length := 0; buffer := Some a |}.

Definition init_bind (a i : nat) : MYSQL_BIND :=
  {| bind_buffer_type := MYSQL_TYPE_STRING; bind_buffer := Some a;
     bind_buffer_length := STRLEN; bind_is_null := Some i;
     bind_length := Some i |}.

(** The state the loop of [MysqlResultSet_new] reaches after [k] of
    [n] columns, from the structure [r] and the heap [m]. *)
Definition loop_state (r : ResultSetDelegate_T) (m : memory) (s : MYSQL_STMT)
    (fields : list MYSQL_FIELD) (n k : nat) : state :=
  {| R := set_columns
            (set_bind r
               (Some (((λ i, init_bind (length m + i) i) <$> seq 0 k)
                      ++ replicate (n - k) zero_bind)))
            (Some (((λ i, init_column fields (length m + i) i) <$> seq 0 k)
                   ++ replicate (n - k) zero_column));
     mem := m ++ replicate k (Some fresh_block);
     stmt := s |}.

(** The state [MysqlResultSet_new] returns, in closed form. *)
Definition new_state (s : MYSQL_STMT) (maxRows keep : Z) (m : memory) : state :=
  let cc := to_int (mysql_stmt_field_count s) in
  let r1 := {| stop := true; keep := keep; maxRows := maxRows; lastError := 0;
               needRebind := false; currentRow := 0; columnCount := cc;
               meta := None; bind := None; columns := None |} in
  if cc <=? 0 then {| R := r1; mem := m; stmt := s |}
  else
    match metadata s with
    | None => {| R := r1; mem := m; stmt := logged call_result_metadata s |}
    | Some fields =>
        let n := Z.to_nat cc in
        let bs := (λ i, init_bind (length m + i) i) <$> seq 0 n in
        let cols := (λ i, init_column fields (length m + i) i) <$> seq 0 n in
        let (rc1, s2) := mysql_stmt_bind_result (logged call_result_metadata s) bs in
        let (rc2, s3) := mysql_stmt_store_result s2 in
        {| R := {| stop := negb (rc1 =? 0); keep := keep; maxRows := maxRows;
                   lastError := rc2; needRebind := false; currentRow := 0;
                   columnCount := cc; meta := Some fields; bind := Some bs;
                   columns := Some cols |};
           mem := m ++ replicate n (Some fresh_block);
           stmt := s3 |}
    end.

(* ------------------------------------------------------------------ *)
(** ** The statement after a call, the buffer after a resize *)

(** The statement after a call that may fail was logged and its fault
    entry consumed. *)
Definition called (c : engine_call) (s : MYSQL_STMT) : MYSQL_STMT :=
  (take_fault (logged c s)).2.

(** Whether the call being made is scripted to fail. *)
Definition faulty (s : MYSQL_STMT) : bool := (take_fault s).1.

(** The value [mysql_stmt_fetch_column] finds for column [k], if the
    call does not fail. *)
Definition column_value (s : MYSQL_STMT) (k : nat) : option value :=
  if faulty s then None
  else
    r ← current s;
    if (field_count s <=? Z.of_nat k) then None else r !! k.

(** The column and the bind entry after the buffer moved to [a']. *)
Definition grown_column (c : column_t) (a' : nat) : column_t :=
  set_buffer c (Some a').

Definition grown_bind (c : column_t) (b : MYSQL_BIND) (a' : nat) : MYSQL_BIND :=
  set_bind_buffer_length (set_bind_buffer b (Some a')) (real_length c).

Definition grown_mem (m : memory) (a : nat) (c : column_t) (blk : block) : memory :=
  <[a := None]> m ++ [Some (resize (Z.to_nat (to_ulong (real_length c + 1))) None blk)].

(** The state in which the re-fetch of column [k] leaves the cursor:
    [c2] is the column, [rc] the engine's result, [m2] the heap. *)
Definition refetched (st : state) (cols : list column_t) (bs : list MYSQL_BIND)
    (k : nat) (c : column_t) (b : MYSQL_BIND) (c2 : column_t) (rc : Z)
    (m2 : memory) : state :=
  let b1 := grown_bind c b (length (mem st)) in
  {| R := set_lastError
            (set_columns (set_bind (R st) (Some (<[k := b1]> bs)))
                         (Some (<[k := c2]> cols))) rc;
     mem := m2;
     stmt := called (call_fetch_column b1 (Z.of_nat k) 0) (stmt st) |}.

(* ------------------------------------------------------------------ *)
(** ** The parts of the accessors *)

(** The 0-based index of the 1-based column index [idx]. *)
Definition slot (idx : Z) : nat := Z.to_nat (idx - 1).

(** What [getString] does after [_ensureCapacity] returned in [st1]:
    it writes the terminator and returns the buffer. *)
Definition terminate (k : nat) : M ptr :=
  c ← column_at (Z.of_nat k);
  store_byte (buffer c) (real_length c) x00;;
  c ← column_at (Z.of_nat k);
  mret (buffer c).

(** What [getBlob] does after [_ensureCapacity] returned. *)
Definition blob_view (k : nat) : M (ptr * option Z) :=
  c ← column_at (Z.of_nat k);
  mret (buffer c, Some (to_int (real_length c))).

(* ------------------------------------------------------------------ *)
(** ** The parts of MysqlResultSet_next *)

(** The row limit is set and was reached before this call. *)
Definition limit_reached (r : ResultSetDelegate_T) : bool :=
  negb (maxRows r =? 0) && (maxRows r <=? currentRow r).

(** The structure after [R->maxRows && (R->currentRow++ >= R->maxRows)]
    was evaluated. *)
Definition counted (r : ResultSetDelegate_T) : ResultSetDelegate_T :=
  if maxRows r =? 0 then r
  else set_currentRow r (to_int (currentRow r + 1)).

(** The state in which [mysql_stmt_fetch] is called, when the bind
    table needed no registration or its registration succeeded. *)
Definition before_fetch (st : state) : state :=
  let r1 := counted (R st) in
  if needRebind r1 then
    {| R := set_needRebind (set_lastError r1 0) false;
       mem := mem st;
       stmt := set_bound
                 (called (call_bind_result (default [] (bind r1))) (stmt st))
                 (bind r1) |}
  else set_R st r1.

(** The rest of [MysqlResultSet_next], from the fetch on. *)
Definition fetch_row : M bool :=
  rc ← engine_io mysql_stmt_fetch;
  modifyR (λ r, set_lastError r rc);;
  when (rc =? 1) (
    s ← getStmt;
    throw (SQLException "mysql_stmt_fetch -- %s" (mysql_stmt_error s)));;
  mret ((rc =? MYSQL_OK) || (rc =? MYSQL_DATA_TRUNCATED)).

(** The registration of the bind table in [MysqlResultSet_next]. *)
Definition rebind : M unit :=
  r ← getR;
  when (needRebind r) (
    bs ← defined (bind r);
    rc ← engine (λ s, mysql_stmt_bind_result s bs);
    modifyR (λ r, set_lastError r rc);;
    when (negb (rc =? 0)) (
      s ← getStmt;
      throw (SQLException "mysql_stmt_bind_result -- %s" (mysql_stmt_error s)));;
    modifyR (λ r, set_needRebind r false)).

(** The state after [mysql_stmt_fetch] returned [rc]. *)
Definition fetched (st : state) (rc : Z) (s : MYSQL_STMT)
    (cols : list column_t) (m : memory) : state :=
  {| R := set_lastError
            (match columns (R st) with
             | Some _ => set_columns (R st) (Some cols)
             | None => R st
             end) rc;
     mem := m; stmt := s |}.

(** The state an outcome leaves, when it is defined. *)
Definition after {A} (o : outcome state A) (st' : state) : Prop :=
  match o with
  | Ok _ s => s = st'
  | Throw _ s => s = st'
  | Undefined => False
  end.

(* ------------------------------------------------------------------ *)
(** ** The states a client reaches *)

(** The states the calls of a client lead to, from the construction on
    an executed statement; a call that raised leaves its state behind,
    and the client may go on. *)
Inductive reachable : state → Prop :=
  | reach_new s maxRows keep m :
      executed s → reachable (new_state s maxRows keep m)
  | reach_next st st' :
      reachable st → after (MysqlResultSet_next st) st' → reachable st'
  | reach_getString st idx st' :
      reachable st → after (MysqlResultSet_getString idx st) st' → reachable st'
  | reach_getBlob st idx st' :
      reachable st → after (MysqlResultSet_getBlob idx st) st' → reachable st'.

(* ------------------------------------------------------------------ *)
(** ** The statement after teardown *)

(** The statement after the engine calls of [MysqlResultSet_free]. *)
Definition released (r : ResultSetDelegate_T) (s : MYSQL_STMT) : MYSQL_STMT :=
  let s1 := mysql_stmt_free_result s in
  let s2 := if keep r =? 0 then mysql_stmt_close s1 else s1 in
  match meta r with
  | Some _ => mysql_free_result s2
  | None => s2
  end.

(* ------------------------------------------------------------------ *)
(** ** Sample statements *)

Definition sample_fields : list MYSQL_FIELD :=
  [ {| name := "id" |}; {| name := "body" |}; {| name := "note" |} ].

(** A statement with three columns, the rows [rows] and the fault
    script [script]. *)
Definition sample_stmt (rows : list row) (script : list bool) : MYSQL_STMT :=
  {| field_count := 3; metadata := Some sample_fields; pending := rows;
     current := None; bound := None; faults := script;
     errtext := "server has gone away"; log := [] |}.

(** The same statement when the metadata cannot be obtained. *)
Definition no_metadata_stmt : MYSQL_STMT :=
  {| field_count := 3; metadata := None; pending := [];
     current := None; bound := None; faults := [];
     errtext := "out of memory"; log := [] |}.

(** A value longer than the default capacity. *)
Definition long_value : list byte := replicate 500 "b"%byte.

(** Two rows: the second column of the first is long, of the second
    NULL. *)
Definition sample_rows : list row :=
  [ [Some ["1"%byte]; Some long_value; None];
    [Some ["2"%byte]; None; Some []] ].

(** The state of an outcome, for the samples. *)
Definition state_of {A} (o : outcome state A) (otherwise : state) : state :=
  match o with
  | Ok _ st => st
  | Throw _ st => st
  | Undefined => otherwise
  end.

(** The cursor over the sample rows, just constructed. *)
Definition sample_cursor : state :=
  new_state (sample_stmt sample_rows []) 0 0 [].

(* ------------------------------------------------------------------ *)
(** ** The resolution of a truncation *)

(** What the resolution of the truncation of column [k] leaves in
    [st']: a buffer of one byte more than the value [d] at the fresh
    address [a], holding the whole of [d]; the capacity of the bind
    entry raised to the length of [d]; the rebind flag set; and in the
    engine's log one more call, the fetch of column [k] alone. *)
Record resolved (st : state) (k : nat) (d : list byte) (a : nat) (st' : state)
  : Prop := {
  resolved_size : blen (mem st') a = Some (S (length d));
  resolved_value : view (mem st') (Some a) (length d) = Some d;
  resolved_bind : ∃ bs' b', bind (R st') = Some bs' ∧ bs' !! k = Some b' ∧
      bind_buffer b' = Some a ∧ bind_buffer_length b' = Z.of_nat (length d);
  resolved_column : ∃ cols' c', columns (R st') = Some cols' ∧
      cols' !! k = Some c' ∧ buffer c' = Some a ∧
      real_length c' = Z.of_nat (length d) ∧ is_null c' = false;
  resolved_flag : needRebind (R st') = true;
  resolved_log : ∃ b1, log (stmt st') =
      call_fetch_column b1 (Z.of_nat k) 0 :: log (stmt st) ∧
      bind_buffer b1 = Some a ∧ bind_buffer_length b1 = Z.of_nat (length d)
}.

(* ------------------------------------------------------------------ *)
(** ** What reading a column leaves alone *)

(** The parts of the state [getString] and [getBlob] do not change:
    the position of the cursor, and the rows of the statement.  The
    rebind flag is never cleared, and at most one fault entry is
    consumed. *)
Record frame (st st' : state) : Prop := {
  frame_stop : stop (R st') = stop (R st);
  frame_keep : keep (R st') = keep (R st);
  frame_maxRows : maxRows (R st') = maxRows (R st);
  frame_currentRow : currentRow (R st') = currentRow (R st);
  frame_columnCount : columnCount (R st') = columnCount (R st);
  frame_pending : pending (stmt st') = pending (stmt st);
  frame_current : current (stmt st') = current (stmt st);
  frame_bound : bound (stmt st') = bound (stmt st);
  frame_faults : faults (stmt st') = faults (stmt st) ∨
                 faults (stmt st') = tail (faults (stmt st));
  frame_flag : needRebind (R st) = true → needRebind (R st') = true;
  frame_columns : is_Some (columns (R st)) → is_Some (columns (R st'))
}.

(** A cursor over a result without rows. *)
Definition empty_cursor : state := new_state (sample_stmt [] []) 0 0 [].

(* ------------------------------------------------------------------ *)
(** ** More samples *)

(** Two rows; the second column is long in the first row and short in
    the second. *)
Definition two_rows : list row :=
  [ [Some ["1"%byte]; Some long_value; None];
    [Some ["2"%byte]; Some ["x"%byte]; None] ].

(** The cursor over [two_rows] on an engine that fails its fourth
    fallible call: after the registration, the materialization and the
    first fetch, the re-fetch of a column. *)
Definition refetch_fails_cursor : state :=
  new_state (sample_stmt two_rows [false; false; false; true]) 0 0 [].

(** The cursor over a single row with a long second column, on an
    engine that never fails. *)
Definition one_row_cursor : state :=
  new_state (sample_stmt [ [Some ["1"%byte]; Some long_value; None] ] []) 0 0 [].

Definition entry {A} (table : option (list A)) (i : nat) : option A :=
  table ≫= (.!! i).

(* ------------------------------------------------------------------ *)
(** ** Clients and their runs *)

(** The calls of a client that change the state of the cursor; the
    other accessors leave the state as it is. *)
Inductive call : Type :=
  | Next
  | GetString (columnIndex : Z)
  | GetBlob (columnIndex : Z).

(** Runs the calls in order, continuing after an exception; returns
    what the calls of [MysqlResultSet_next] returned ([None]: the call
    raised) and the last state.  The result is [None] when a call has no
    defined behaviour. *)
Fixpoint run (calls : list call) (st : state)
  : option (list (option bool) * state) :=
  match calls with
  | [] => Some ([], st)
  | Next :: calls' =>
      match MysqlResultSet_next st with
      | Ok b st' => prod_map (Some b ::.) id <$> run calls' st'
      | Throw _ st' => prod_map (None ::.) id <$> run calls' st'
      | Undefined => None
      end
  | GetString idx :: calls' =>
      match MysqlResultSet_getString idx st with
      | Ok _ st' | Throw _ st' => run calls' st'
      | Undefined => None
      end
  | GetBlob idx :: calls' =>
      match MysqlResultSet_getBlob idx st with
      | Ok _ st' | Throw _ st' => run calls' st'
      | Undefined => None
      end
  end.

(** The number of calls of [MysqlResultSet_next] among [calls]. *)
Fixpoint next_calls (calls : list call) : nat :=
  match calls with
  | [] => 0
  | Next :: calls' => S (next_calls calls')
  | _ :: calls' => next_calls calls'
  end.

(** [t] times true, then false, for [k] calls. *)
Definition rows_then_end (k t : nat) : list (option bool) :=
  replicate (k `min` t) (Some true) ++ replicate (k - t) (Some false).

(** A cursor that delivers no more rows: it is stopped, or the
    statement has no rows left; the engine does not fail. *)
Record drained (st : state) : Prop := {
  drained_inv : Inv st;
  drained_faults : faults (stmt st) = [];
  drained_rows : stop (R st) = true ∨ pending (stmt st) = [];
  drained_columns : is_Some (columns (R st))
}.

(** A cursor with the row limit [L] that delivered [j] rows, the last
    of them [last], and has [rows] left; the engine does not fail; the
    bind table is registered or flagged for registration; before the
    first row no column holds a length above its capacity. *)
Record ready (L : Z) (rows : list row) (j : Z) (last : option row)
    (st : state) : Prop := {
  ready_inv : Inv st;
  ready_faults : faults (stmt st) = [];
  ready_stop : stop (R st) = false;
  ready_maxRows : maxRows (R st) = L;
  ready_currentRow : currentRow (R st) = j;
  ready_pending : pending (stmt st) = rows;
  ready_width : Forall (λ r : row, length r = Z.to_nat (columnCount (R st))) rows;
  ready_last : current (stmt st) = last;
  ready_current :
    match last with
    | Some r => length r = Z.to_nat (columnCount (R st))
    | None => ∀ cols bs k c b,
        columns (R st) = Some cols → bind (R st) = Some bs →
        cols !! k = Some c → bs !! k = Some b →
        real_length c ≤ bind_buffer_length b
    end;
  ready_sync : needRebind (R st) = true ∨ bound (stmt st) = bind (R st)
}.

(** The row delivered last after [k] more rows of [rows]. *)
Definition last_after (k : nat) (rows : list row) (last : option row)
  : option row :=
  match k with
  | O => last
  | S k' => rows !! k'
  end.

(** The rows a ready cursor still delivers. *)
Definition rows_allowed (L : Z) (rows : list row) (j : Z) : nat :=
  length rows `min` Z.to_nat (L - j).

(* ------------------------------------------------------------------ *)
(** ** Calls that change nothing, and calls that fail *)

(** The outcome [o] of a call in [st] left the state as it was, whether
    the call returned or raised. *)
Definition unchanged {A} (st : state) (o : outcome state A) : Prop :=
  match o with
  | Ok _ st' | Throw _ st' => st' = st
  | Undefined => True
  end.

(** Whether the [n]-th of the coming fallible calls of the engine fails
    (the first is call 0). *)
Definition fails (s : MYSQL_STMT) (n : nat) : bool :=
  default false (faults s !! n).

(* ------------------------------------------------------------------ *)
(** ** The cases of the calls *)

(** The outcomes of [MysqlResultSet_next] with defined behaviour, case
    by case: the cursor is stopped; the row limit is reached; the
    registration of the bind table fails; the fetch fails; the rows are
    at their end; a row is delivered. *)
Inductive next_does (st : state) : outcome state bool → Prop :=
  | next_is_stopped :
      stop (R st) = true → next_does st (Ok false st)
  | next_hits_limit :
      stop (R st) = false → limit_reached (R st) = true →
      next_does st
        (Ok false {| R := set_stop (counted (R st)) true; mem := mem st;
                     stmt := mysql_stmt_reset (stmt st) |})
  | next_registration_fails bs :
      stop (R st) = false → limit_reached (R st) = false →
      needRebind (R st) = true → bind (R st) = Some bs →
      faulty (stmt st) = true →
      next_does st
        (Throw (SQLException "mysql_stmt_bind_result -- %s" (errtext (stmt st)))
           {| R := set_lastError (counted (R st)) 1; mem := mem st;
              stmt := called (call_bind_result bs) (stmt st) |})
  | next_fetch_fails :
      stop (R st) = false → limit_reached (R st) = false →
      (needRebind (R st) = true →
         faulty (stmt st) = false ∧ is_Some (bind (R st))) →
      faulty (stmt (before_fetch st)) = true →
      next_does st
        (Throw (SQLException "mysql_stmt_fetch -- %s" (errtext (stmt st)))
           (fetched (before_fetch st) 1
              (called call_fetch (stmt (before_fetch st)))
              (default [] (columns (R st))) (mem st)))
  | next_finds_no_row :
      stop (R st) = false → limit_reached (R st) = false →
      (needRebind (R st) = true →
         faulty (stmt st) = false ∧ is_Some (bind (R st))) →
      faulty (stmt (before_fetch st)) = false →
      pending (stmt st) = [] →
      next_does st
        (Ok false
           (fetched (before_fetch st) MYSQL_NO_DATA
              (set_current (called call_fetch (stmt (before_fetch st))) None)
              (default [] (columns (R st))) (mem st)))
  | next_delivers r rest t cols1 m1 :
      stop (R st) = false → limit_reached (R st) = false →
      (needRebind (R st) = true →
         faulty (stmt st) = false ∧ is_Some (bind (R st))) →
      faulty (stmt (before_fetch st)) = false →
      pending (stmt st) = r :: rest →
      store_row (default [] (bound (stmt (before_fetch st)))) r
        (default [] (columns (R st))) (mem st) = Some (t, cols1, m1) →
      next_does st
        (Ok true
           (fetched (before_fetch st)
              (if t : bool then MYSQL_DATA_TRUNCATED else MYSQL_OK)
              (set_current
                 (set_pending (called call_fetch (stmt (before_fetch st))) rest)
                 (Some r))
              cols1 m1)).

(** The states in which [MysqlResultSet_getString] and
    [MysqlResultSet_getBlob] on column [k] leave the cursor: nothing
    changed (the index is out of range, the value is NULL, or
    [getBlob] found the value within the capacity); the terminator was
    written into the buffer in place; the buffer was resized and the
    re-fetch failed; the buffer was resized and the value fetched again,
    with or without the terminator written. *)
Inductive read_does (k : nat) (st : state) : state → Prop :=
  | read_nothing : read_does k st st
  | read_in_place cols bs c b a m2 :
      columns (R st) = Some cols → bind (R st) = Some bs →
      cols !! k = Some c → bs !! k = Some b →
      is_null c = false → real_length c ≤ bind_buffer_length b →
      buffer c = Some a →
      poke (Some a) (real_length c) x00 (mem st) = Some m2 →
      read_does k st (set_mem st m2)
  | read_refetch_fails cols bs c b a blk :
      columns (R st) = Some cols → bind (R st) = Some bs →
      cols !! k = Some c → bs !! k = Some b →
      is_null c = false → bind_buffer_length b < real_length c →
      buffer c = Some a → live (mem st) a = Some blk →
      column_value (stmt st) k = None →
      read_does k st
        (refetched st cols bs k c b (grown_column c (length (mem st))) 1
           (grown_mem (mem st) a c blk))
  | read_refetched cols bs c b a blk d m2 m3 :
      columns (R st) = Some cols → bind (R st) = Some bs →
      cols !! k = Some c → bs !! k = Some b →
      is_null c = false → bind_buffer_length b < real_length c →
      buffer c = Some a → live (mem st) a = Some blk →
      column_value (stmt st) k = Some (Some d) →
      real_length c = Z.of_nat (length d) →
      memcpy (Some (length (mem st))) d (grown_mem (mem st) a c blk) = Some m2 →
      m3 = m2 ∨ poke (Some (length (mem st))) (real_length c) x00 m2 = Some m3 →
      read_does k st
        {| R := set_needRebind
                  (R (refetched st cols bs k c b
                        (grown_column c (length (mem st))) 0 m2)) true;
           mem := m3;
           stmt := called (call_fetch_column
                             (grown_bind c b (length (mem st))) (Z.of_nat k) 0)
                     (stmt st) |}.

(* ------------------------------------------------------------------ *)
(** ** What stays fixed over the life of a cursor *)

(** The cursor [st] descends from [MysqlResultSet_new s L kp m0]: the
    members assigned by the construction alone have the values it gave
    them, every column still names the field of the metadata it was
    given, the blocks of [m0] are as they were, and every other live
    block is the buffer of a column. *)
Record lifetime (s : MYSQL_STMT) (L kp : Z) (m0 : memory) (st : state)
  : Prop := {
  life_count : columnCount (R st) = to_int (mysql_stmt_field_count s);
  life_keep : keep (R st) = kp;
  life_maxRows : maxRows (R st) = L;
  life_meta :
    meta (R st) =
      (if to_int (mysql_stmt_field_count s) <=? 0 then None else metadata s);
  life_tables : is_Some (columns (R st)) ↔ is_Some (meta (R st));
  life_fields : ∀ cols fields i c,
    columns (R st) = Some cols → meta (R st) = Some fields →
    cols !! i = Some c → field c = fields !! i;
  life_errtext : errtext (stmt st) = errtext s;
  life_length : (length m0 ≤ length (mem st))%nat;
  life_heap_old : ∀ a, (a < length m0)%nat → live (mem st) a = live m0 a;
  life_heap_new : ∀ a, (length m0 ≤ a)%nat → is_Some (live (mem st) a) →
    ∃ cols i c, columns (R st) = Some cols ∧ cols !! i = Some c ∧
      buffer c = Some a;
  life_buffers : ∀ cols i c a,
    columns (R st) = Some cols → cols !! i = Some c → buffer c = Some a →
    (length m0 ≤ a)%nat;
  life_bound : stop (R st) = false → ∀ reg j br a,
    bound (stmt st) = Some reg → reg !! j = Some br →
    bind_buffer br = Some a → (length m0 ≤ a)%nat
}.

(* ------------------------------------------------------------------ *)
(** ** The contents of the buffers *)

(** The buffers hold the row [r]: the buffer of every column with a
    value that is not NULL starts with the bytes of the value, as many
    as the capacity of the column's bind entry takes. *)
Definition holds (st : state) (r : row) : Prop :=
  ∀ cols bs i c b d a,
    columns (R st) = Some cols → bind (R st) = Some bs →
    cols !! i = Some c → bs !! i = Some b →
    r !! i = Some (Some d) → buffer c = Some a →
    view (mem st) (Some a) (length (delivered_bytes b (Some d) 0))
      = Some (delivered_bytes b (Some d) 0).

Definition holds_last (st : state) (last : option row) : Prop :=
  match last with
  | Some r => holds st r
  | None => True
  end.

(** Column [k] was read as text: its value [d] is within the capacity,
    its buffer is at [a], and the terminator follows the value. *)
Record pinned (k : nat) (a : nat) (d : list byte) (st : state) : Prop := {
  pinned_tables : ∃ cols bs c b,
    columns (R st) = Some cols ∧ bind (R st) = Some bs ∧
    cols !! k = Some c ∧ bs !! k = Some b ∧
    buffer c = Some a ∧ is_null c = false ∧
    real_length c = Z.of_nat (length d) ∧
    real_length c ≤ bind_buffer_length b;
  pinned_terminator : peek (mem st) (Some a) (length d) = Some x00
}.

(** The buffers and the fields of the columns, in order. *)
Definition buffers (r : ResultSetDelegate_T) : option (list ptr) :=
  (λ cols : list column_t, buffer <$> cols) <$> columns r.

Definition fields (r : ResultSetDelegate_T) : option (list (option MYSQL_FIELD)) :=
  (λ cols : list column_t, field <$> cols) <$> columns r.

(* ------------------------------------------------------------------ *)
(** ** More on the runs of a client *)

(** The state in which the calls [calls] leave the cursor [st]. *)
Definition final (calls : list call) (st : state) : state :=
  match run calls st with
  | Some (_, st') => st'
  | None => st
  end.

(** The number of rows a cursor with the row limit [L] delivers of [n]
    rows: all of them without a limit, none when the limit is
    negative. *)
Definition budget (L : Z) (n : nat) : nat :=
  if L =? 0 then n else n `min` Z.to_nat L.

(** Calls that read columns only. *)
Definition reads_only (calls : list call) : Prop := next_calls calls = 0%nat.

(** The cursor stays without a row limit: it is not stopped and counts
    no rows. *)
Record unlimited (st : state) : Prop := {
  unlimited_maxRows : maxRows (R st) = 0;
  unlimited_stop : stop (R st) = false;
  unlimited_currentRow : currentRow (R st) = 0
}.

(** Whether some value of the row [r] is longer than the capacity of
    its entry of the bind table [bs]. *)
Fixpoint row_truncated (bs : list MYSQL_BIND) (r : row) : bool :=
  match bs, r with
  | b :: bs', v :: r' =>
      match v with
      | Some d => bind_buffer_length b <? Z.of_nat (length d)
      | None => false
      end || row_truncated bs' r'
  | _, _ => false
  end.

(* ================================================================== *)
(** * Proofs *)

(* ------------------------------------------------------------------ *)
(** ** Facts about the heap *)

Lemma live_Some m a b : live m a = Some b ↔ m !! a = Some (Some b).
Proof.
  unfold live. destruct (m !! a) as [[b'|]|]; split; intros H; by simplify_eq.
Qed.

Lemma live_lt m a b : live m a = Some b → (a < length m)%nat.
Proof. rewrite live_Some. apply lookup_lt_Some. Qed.

Lemma live_ge m a : (length m ≤ a)%nat → live m a = None.
Proof. intros H. unfold live. by rewrite lookup_ge_None_2. Qed.

Lemma live_app_l m m' a : (a < length m)%nat → live (m ++ m') a = live m a.
Proof. intros H. unfold live. by rewrite lookup_app_l. Qed.

Lemma live_app_new m b : live (m ++ [Some b]) (length m) = Some b.
Proof. apply live_Some. by rewrite list_lookup_middle. Qed.

Lemma live_insert_eq m a x : (a < length m)%nat → live (<[a := x]> m) a = x.
Proof.
  intros H. unfold live. rewrite list_lookup_insert_eq by done. by destruct x.
Qed.

Lemma live_insert_ne m a a' x : a ≠ a' → live (<[a := x]> m) a' = live m a'.
Proof. intros H. unfold live. by rewrite list_lookup_insert_ne. Qed.

Lemma ALLOC_spec n m a m' :
  ALLOC n m = (a, m') →
  a = length m ∧ length m' = S (length m) ∧
  live m' a = Some (replicate (Z.to_nat n) None) ∧
  ∀ a', (a' < length m)%nat → live m' a' = live m a'.
Proof.
  unfold ALLOC. intros [= <- <-]. split_and!; [done| |apply live_app_new|].
  - rewrite length_app. simpl. lia.
  - intros a' H. by apply live_app_l.
Qed.

Lemma RESIZE_spec a n m b :
  live m a = Some b →
  ∃ m', RESIZE (Some a) n m = Some (length m, m') ∧
    length m' = S (length m) ∧
    live m' (length m) = Some (resize (Z.to_nat n) None b) ∧
    live m' a = None ∧
    ∀ a', a' ≠ a → (a' < length m)%nat → live m' a' = live m a'.
Proof.
  intros Hb. pose proof (live_lt _ _ _ Hb) as Hlt.
  unfold RESIZE. rewrite Hb. eexists. split; [done|].
  split_and!.
  - rewrite length_app, length_insert. simpl. lia.
  - rewrite <- (length_insert m a None). apply live_app_new.
  - rewrite live_app_l by (by rewrite length_insert).
    by apply live_insert_eq.
  - intros a' Hne Ha'. rewrite live_app_l by (by rewrite length_insert).
    by apply live_insert_ne.
Qed.

Lemma memcpy_length p data m m' : memcpy p data m = Some m' → length m' = length m.
Proof.
  unfold memcpy. case_match; [by intros [= <-]|].
  destruct p as [a|]; [|done]. destruct (live m a) as [b|]; [|done].
  case_match; [|done]. intros [= <-]. by rewrite length_insert.
Qed.

Lemma memcpy_blen p data m m' a' :
  memcpy p data m = Some m' → blen m' a' = blen m a'.
Proof.
  unfold memcpy. case_match; [by intros [= <-]|].
  destruct p as [a|]; [|done]. destruct (live m a) as [b|] eqn:Hb; [|done].
  case_match eqn:Hle; [|done]. intros [= <-]. apply Nat.leb_le in Hle.
  unfold blen. destruct (decide (a = a')) as [<-|Hne].
  - rewrite live_insert_eq, Hb by eauto using live_lt. simpl. f_equal.
    rewrite length_app, length_fmap, length_drop. lia.
  - by rewrite live_insert_ne.
Qed.

Lemma memcpy_defined a data m b :
  live m a = Some b → (length data ≤ length b)%nat →
  ∃ m', memcpy (Some a) data m = Some m' ∧
    view m' (Some a) (length data) = Some data.
Proof.
  intros Hb Hle. unfold memcpy.
  assert (mapM id (Some <$> data) = Some data) as Hdata.
  { clear. apply mapM_Some_2. induction data; simpl; constructor; auto. }
  apply Nat.leb_le in Hle as Hle'.
  case_match eqn:H0.
  - apply Nat.eqb_eq in H0. eexists. split; [done|]. unfold view.
    rewrite Hb, Hle'. destruct data; [|done]. by rewrite take_0.
  - rewrite Hb, Hle'. eexists. split; [done|]. unfold view.
    rewrite live_insert_eq by eauto using live_lt.
    assert (length ((Some <$> data) ++ drop (length data) b) = length b) as Hlen.
    { rewrite length_app, length_fmap, length_drop. lia. }
    rewrite Hlen, Hle'.
    rewrite take_app_le by (rewrite length_fmap; lia).
    by rewrite take_ge by (rewrite length_fmap; lia).
Qed.

Lemma poke_length p off x m m' : poke p off x m = Some m' → length m' = length m.
Proof.
  unfold poke. destruct p as [a|]; [|done]. destruct (live m a) as [b|]; [|done].
  case_match; [|done]. intros [= <-]. by rewrite length_insert.
Qed.

Lemma poke_blen p off x m m' a' :
  poke p off x m = Some m' → blen m' a' = blen m a'.
Proof.
  unfold poke. destruct p as [a|]; [|done]. destruct (live m a) as [b|] eqn:Hb; [|done].
  case_match; [|done]. intros [= <-].
  unfold blen. destruct (decide (a = a')) as [<-|Hne].
  - rewrite live_insert_eq, Hb by eauto using live_lt. simpl.
    by rewrite length_insert.
  - by rewrite live_insert_ne.
Qed.

Lemma poke_defined a off x m b :
  live m a = Some b → 0 ≤ off < Z.of_nat (length b) →
  ∃ m', poke (Some a) off x m = Some m' ∧
    peek m' (Some a) (Z.to_nat off) = Some x ∧
    ∀ n, (n ≤ Z.to_nat off)%nat → view m' (Some a) n = view m (Some a) n.
Proof.
  intros Hb Hoff. unfold poke. rewrite Hb.
  destruct (0 <=? off) eqn:H0; [|lia].
  destruct (off <? Z.of_nat (length b)) eqn:H1; [|lia]. simpl.
  eexists. split; [done|]. split.
  - unfold peek. rewrite live_insert_eq by eauto using live_lt.
    rewrite list_lookup_insert_eq by lia. done.
  - intros n Hn. unfold view. rewrite live_insert_eq, Hb by eauto using live_lt.
    rewrite length_insert. case_match; [|done].
    by rewrite take_insert_ge by lia.
Qed.

(* ------------------------------------------------------------------ *)
(** ** Facts about the engine *)

Lemma deliver_in_sync v c : in_sync v (deliver v c).
Proof. by destruct v. Qed.

Lemma deliver_buffer v c : buffer (deliver v c) = buffer c.
Proof. by destruct v. Qed.

Lemma deliver_field v c : field (deliver v c) = field c.
Proof. by destruct v. Qed.

Lemma deliver_id v c : in_sync v c → deliver v c = c.
Proof. destruct v, c; simpl; [intros [-> ->]|intros ->]; done. Qed.

Lemma memcpy_nil p m : memcpy p [] m = Some m.
Proof. done. Qed.

Lemma store_value_inv b v off cols m t cols' m' j c :
  bind_is_null b = Some j → bind_length b = Some j →
  cols !! j = Some c →
  store_value b v off cols m = Some (t, cols', m') →
  cols' = <[j := deliver v c]> cols ∧
  memcpy (bind_buffer b) (delivered_bytes b v off) m = Some m'.
Proof.
  intros Hn Hl Hc. unfold store_value, store_is_null, store_length.
  rewrite Hn, Hl. destruct v as [d|]; simpl; rewrite Hc; simpl.
  - rewrite list_lookup_insert_eq by eauto using lookup_lt_Some. simpl.
    destruct (memcpy _ _ m) as [m1|]; simpl; [|done].
    intros [= <- <- <-]. by rewrite list_insert_insert_eq.
  - by intros [= <- <- <-].
Qed.

Lemma store_value_defined b v off cols m m' j c :
  bind_is_null b = Some j → bind_length b = Some j →
  cols !! j = Some c →
  memcpy (bind_buffer b) (delivered_bytes b v off) m = Some m' →
  ∃ t, store_value b v off cols m = Some (t, <[j := deliver v c]> cols, m').
Proof.
  intros Hn Hl Hc. unfold store_value, store_is_null, store_length.
  rewrite Hn, Hl. destruct v as [d|]; simpl; rewrite Hc; simpl.
  - rewrite list_lookup_insert_eq by eauto using lookup_lt_Some. simpl.
    intros ->. simpl. rewrite list_insert_insert_eq. eauto.
  - intros [= <-]. eauto.
Qed.

Lemma pointers_from_tail k b bs :
  pointers_from k (b :: bs) → pointers_from (S k) bs.
Proof.
  intros H j b' Hj. destruct (H (S j) b' Hj) as [-> ->].
  split; f_equal; lia.
Qed.

(** Delivering a row changes the columns the row and the table cover,
    from column [k] on, and nothing else; no block changes its size. *)
Lemma store_row_inv bs : ∀ r k cols m t cols' m',
  pointers_from k bs →
  (k + length bs ≤ length cols)%nat →
  store_row bs r cols m = Some (t, cols', m') →
  length cols' = length cols ∧ length m' = length m ∧
  (∀ a, blen m' a = blen m a) ∧
  ∀ i c, cols !! i = Some c →
    cols' !! i = Some (
      if decide (k ≤ i)%nat then
        match r !! (i - k)%nat, bs !! (i - k)%nat with
        | Some v, Some _ => deliver v c
        | _, _ => c
        end
      else c).
Proof.
  induction bs as [|b bs IH]; intros r k cols m t cols' m' Hp Hlen.
  - simpl. intros [= <- <- <-]. split_and!; try done.
    intros i c Hc. rewrite Hc. f_equal. case_decide; [|done].
    destruct (r !! _); by rewrite ?lookup_nil.
  - destruct r as [|v r].
    { simpl. intros [= <- <- <-]. split_and!; try done.
      intros i c Hc. rewrite Hc. f_equal. case_decide; by rewrite ?lookup_nil. }
    simpl in Hlen. cbn [store_row].
    destruct (store_value b v 0 cols m) as [[[t1 cols1] m1]|] eqn:Hv; [|done].
    simpl.
    destruct (store_row bs r cols1 m1) as [[[t2 cols2] m2]|] eqn:Hr; [|done].
    simpl. intros [= <- <- <-].
    destruct (Hp 0%nat b eq_refl) as [Hn Hl]. rewrite Nat.add_0_r in Hn, Hl.
    destruct (lookup_lt_is_Some_2 cols k) as [ck Hck]; [lia|].
    destruct (store_value_inv _ _ _ _ _ _ _ _ _ _ Hn Hl Hck Hv) as [-> Hm].
    apply IH with (k := S k) in Hr as (Hl2 & Hm2 & Hb2 & Hcols);
      [|by eapply pointers_from_tail|rewrite length_insert; lia].
    rewrite length_insert in Hl2. split_and!; [done| | |].
    + rewrite Hm2. by eapply memcpy_length.
    + intros a. rewrite Hb2. by eapply memcpy_blen.
    + intros i c Hc. destruct (decide (i = k)) as [->|Hne].
      * rewrite (Hcols k (deliver v ck)) by (by apply list_lookup_insert_eq; lia).
        rewrite decide_False by lia. rewrite decide_True by lia.
        rewrite Nat.sub_diag. simpl. by simplify_eq.
      * rewrite (Hcols i c) by (by rewrite list_lookup_insert_ne).
        destruct (decide (S k ≤ i)%nat).
        -- rewrite decide_True by lia.
           replace (i - k)%nat with (S (i - S k)) by lia. done.
        -- rewrite decide_False by lia. done.
Qed.

Lemma store_row_defined bs : ∀ r k cols m,
  pointers_from k bs →
  (k + length bs ≤ length cols)%nat →
  (∀ j b, bs !! j = Some b → ∃ a n,
      bind_buffer b = Some a ∧ blen m a = Some n ∧
      0 ≤ bind_buffer_length b ≤ Z.of_nat n) →
  is_Some (store_row bs r cols m).
Proof.
  induction bs as [|b bs IH]; intros r k cols m Hp Hlen Hbuf; [done|].
  destruct r as [|v r]; [done|]. simpl in Hlen. cbn [store_row].
  destruct (Hp 0%nat b eq_refl) as [Hn Hl]. rewrite Nat.add_0_r in Hn, Hl.
  destruct (lookup_lt_is_Some_2 cols k) as [ck Hck]; [lia|].
  destruct (Hbuf 0%nat b eq_refl) as (a & n & Ha & Hblen & Hcap).
  unfold blen in Hblen. destruct (live m a) as [blk|] eqn:Hlive; [|done].
  simpl in Hblen. simplify_eq.
  destruct (memcpy_defined a (delivered_bytes b v 0) m blk Hlive) as (m1 & Hm1 & _).
  { destruct v as [d|]; simpl; [|lia]. rewrite length_take. lia. }
  rewrite <- Ha in Hm1.
  destruct (store_value_defined _ _ _ _ _ _ _ _ Hn Hl Hck Hm1) as [t Hv].
  rewrite Hv. simpl.
  destruct (IH r (S k) (<[k:=deliver v ck]> cols) m1) as [[[t2 cols2] m2] Hr].
  - by eapply pointers_from_tail.
  - rewrite length_insert. lia.
  - intros j b' Hj. destruct (Hbuf (S j) b' Hj) as (a' & n' & ? & Hb' & ?).
    exists a', n'. split_and!; try done; try lia. rewrite <- Hb'. by eapply memcpy_blen.
  - rewrite Hr. simpl. eauto.
Qed.

(* ------------------------------------------------------------------ *)
(** ** Running the code: equations for the primitives *)

Lemma bind_Ok {A B} (x : M A) (f : A → M B) st a st' :
  x st = Ok a st' → (x ≫= f) st = f a st'.
Proof. unfold mbind, M_bind. by intros ->. Qed.

Lemma bind_Throw {A B} (x : M A) (f : A → M B) st e st' :
  x st = Throw e st' → (x ≫= f) st = Throw e st'.
Proof. unfold mbind, M_bind. by intros ->. Qed.

Lemma bind_Undefined {A B} (x : M A) (f : A → M B) st :
  x st = Undefined → (x ≫= f) st = Undefined.
Proof. unfold mbind, M_bind. by intros ->. Qed.

Lemma at_index_nat {A} (l : list A) (k : nat) :
  at_index (Some l) (Z.of_nat k) = l !! k.
Proof.
  unfold at_index. simpl. destruct (Z.ltb_spec (Z.of_nat k) 0); [lia|].
  by rewrite Nat2Z.id.
Qed.

Lemma column_at_eq st cols (k : nat) c :
  columns (R st) = Some cols → cols !! k = Some c →
  column_at (Z.of_nat k) st = Ok c st.
Proof.
  intros Hcols Hc. unfold column_at, getR, mbind, M_bind.
  by rewrite Hcols, at_index_nat, Hc.
Qed.

Lemma bind_at_eq st bs (k : nat) b :
  bind (R st) = Some bs → bs !! k = Some b →
  bind_at (Z.of_nat k) st = Ok b st.
Proof.
  intros Hbs Hb. unfold bind_at, getR, mbind, M_bind.
  by rewrite Hbs, at_index_nat, Hb.
Qed.

Lemma update_column_eq st cols (k : nat) c f :
  columns (R st) = Some cols → cols !! k = Some c →
  update_column (Z.of_nat k) f st =
    Ok tt (set_R st (set_columns (R st) (Some (<[k := f c]> cols)))).
Proof.
  intros Hcols Hc. unfold update_column.
  erewrite bind_Ok by (by eapply column_at_eq).
  unfold modifyR. by rewrite Hcols, Nat2Z.id.
Qed.

Lemma update_bind_eq st bs (k : nat) b f :
  bind (R st) = Some bs → bs !! k = Some b →
  update_bind (Z.of_nat k) f st =
    Ok tt (set_R st (set_bind (R st) (Some (<[k := f b]> bs)))).
Proof.
  intros Hbs Hb. unfold update_bind.
  erewrite bind_Ok by (by eapply bind_at_eq).
  unfold modifyR. by rewrite Hbs, Nat2Z.id.
Qed.

(** The loop rule: an invariant kept by each iteration holds at the
    end, and the loop returns. *)
Lemma for_range_inv (I : nat → state → Prop) body count : ∀ start st,
  I 0%nat st →
  (∀ j st, (j < count)%nat → I j st →
     ∃ st', body (start + Z.of_nat j) st = Ok tt st' ∧ I (S j) st') →
  ∃ st', for_range start count body st = Ok tt st' ∧ I count st'.
Proof.
  revert I. induction count as [|k IH]; intros I start st H0 Hstep.
  - exists st. done.
  - destruct (Hstep 0%nat st ltac:(lia) H0) as (st1 & Hb & H1).
    rewrite Z.add_0_r in Hb. cbn [for_range].
    erewrite bind_Ok by exact Hb.
    apply (IH (λ j, I (S j))); [done|].
    intros j st2 Hj HI. destruct (Hstep (S j) st2 ltac:(lia) HI) as (st3 & Hb3 & H3).
    exists st3. split; [|done]. rewrite <- Hb3. f_equal. lia.
Qed.

(* ------------------------------------------------------------------ *)
(** ** Construction *)

Lemma new_column_eq st cols bs fields (k : nat) :
  columns (R st) = Some cols → bind (R st) = Some bs →
  meta (R st) = Some fields →
  cols !! k = Some zero_column → bs !! k = Some zero_bind →
  new_column (Z.of_nat k) st =
    Ok tt {| R := set_columns
                    (set_bind (R st) (Some (<[k := init_bind (length (mem st)) k]> bs)))
                    (Some (<[k := init_column fields (length (mem st)) k]> cols));
             mem := mem st ++ [Some fresh_block];
             stmt := stmt st |}.
Proof.
  intros Hcols Hbs Hmeta Hc Hb.
  pose proof (lookup_lt_Some _ _ _ Hc) as Hlc.
  pose proof (lookup_lt_Some _ _ _ Hb) as Hlb.
  unfold new_column, ALLOC.
  erewrite bind_Ok by reflexivity.
  erewrite bind_Ok by reflexivity.
  erewrite bind_Ok by (by eapply update_column_eq).
  erewrite bind_Ok by (by eapply update_bind_eq).
  erewrite bind_Ok
    by (eapply column_at_eq; [reflexivity|by apply list_lookup_insert_eq]).
  erewrite bind_Ok
    by (eapply update_bind_eq; [reflexivity|by apply list_lookup_insert_eq]).
  erewrite bind_Ok
    by (eapply update_bind_eq; [reflexivity|
        by apply list_lookup_insert_eq; rewrite ?length_insert]).
  erewrite bind_Ok
    by (eapply update_bind_eq; [reflexivity|
        by apply list_lookup_insert_eq; rewrite ?length_insert]).
  erewrite bind_Ok
    by (eapply update_bind_eq; [reflexivity|
        by apply list_lookup_insert_eq; rewrite ?length_insert]).
  erewrite bind_Ok by reflexivity.
  erewrite bind_Ok by (simpl; rewrite Hmeta; reflexivity).
  erewrite update_column_eq
    by (first [reflexivity|by apply list_lookup_insert_eq]).
  rewrite Nat2Z.id. destruct st as [r m s]. simpl in *.
  rewrite !list_insert_insert_eq. reflexivity.
Qed.

Lemma fill_lookup {A} (f : nat → A) (z : A) (n k : nat) :
  (k < n)%nat → ((f <$> seq 0 k) ++ replicate (n - k) z) !! k = Some z.
Proof.
  intros H. rewrite lookup_app_r by (rewrite length_fmap, length_seq; lia).
  rewrite length_fmap, length_seq, Nat.sub_diag.
  apply lookup_replicate_2. lia.
Qed.

Lemma fill_step {A} (f : nat → A) (z : A) (n k : nat) :
  (k < n)%nat →
  <[k := f k]> ((f <$> seq 0 k) ++ replicate (n - k) z) =
  (f <$> seq 0 (S k)) ++ replicate (n - S k) z.
Proof.
  intros H. rewrite seq_S, fmap_app.
  rewrite insert_app_r_alt by (rewrite length_fmap, length_seq; lia).
  rewrite length_fmap, length_seq, Nat.sub_diag.
  replace (n - k)%nat with (S (n - S k)) by lia. simpl.
  by rewrite <- app_assoc.
Qed.

Lemma new_loop r m s fields n :
  meta r = Some fields →
  for_range 0 n new_column (loop_state r m s fields n 0) =
    Ok tt (loop_state r m s fields n n).
Proof.
  intros Hmeta.
  destruct (for_range_inv (λ k st, st = loop_state r m s fields n k)
              new_column n 0 (loop_state r m s fields n 0)) as (st & -> & ->);
    [done| |done].
  intros j st Hj ->. eexists. split; [|reflexivity].
  rewrite Z.add_0_l.
  erewrite new_column_eq;
    [|reflexivity|reflexivity|exact Hmeta|by apply fill_lookup..].
  unfold loop_state. cbn [R mem stmt].
  rewrite length_app, length_replicate.
  rewrite (fill_step (λ i, init_bind (length m + i) i)) by done.
  rewrite (fill_step (λ i, init_column fields (length m + i) i)) by done.
  replace (replicate (S j) (Some fresh_block))
    with (replicate j (Some fresh_block) ++ [Some fresh_block]).
  - rewrite app_assoc. by destruct r.
  - clear. induction j; simpl; [done|]. by rewrite IHj.
Qed.

Lemma new_loop_eq r m s fields n :
  meta r = Some fields →
  for_range 0 n new_column
    {| R := set_columns (set_bind r (Some (replicate n zero_bind)))
                        (Some (replicate n zero_column));
       mem := m; stmt := s |} =
  Ok tt
    {| R := set_columns
              (set_bind r (Some ((λ i, init_bind (length m + i) i) <$> seq 0 n)))
              (Some ((λ i, init_column fields (length m + i) i) <$> seq 0 n));
       mem := m ++ replicate n (Some fresh_block);
       stmt := s |}.
Proof.
  intros Hmeta. pose proof (new_loop r m s fields n Hmeta) as H.
  unfold loop_state in H. rewrite Nat.sub_diag, Nat.sub_0_r in H.
  simpl in H. by rewrite !app_nil_r in H.
Qed.

(** Normalisation of record accesses on updated states. *)
Ltac norm :=
  cbn [R mem stmt set_R set_mem set_stmt
       stop keep maxRows lastError needRebind currentRow columnCount meta
       bind columns
       set_stop set_keep set_maxRows set_lastError set_needRebind
       set_currentRow set_columnCount set_meta set_bind set_columns
       field_count metadata pending current bound faults errtext log
       set_pending set_current set_bound set_faults
       zero_R fst snd].

Ltac norm_in H :=
  cbn [R mem stmt set_R set_mem set_stmt
       stop keep maxRows lastError needRebind currentRow columnCount meta
       bind columns
       set_stop set_keep set_maxRows set_lastError set_needRebind
       set_currentRow set_columnCount set_meta set_bind set_columns
       field_count metadata pending current bound faults errtext log
       set_pending set_current set_bound set_faults
       zero_R fst snd] in H.

(** One step of the code whose outcome is known by computation. *)
Ltac step := erewrite bind_Ok by (norm; reflexivity); norm.

Lemma engine_eq {A} (f : MYSQL_STMT → A * MYSQL_STMT) st a s' :
  f (stmt st) = (a, s') → engine f st = Ok a (set_stmt st s').
Proof. unfold engine. by intros ->. Qed.

Lemma new_eq s maxRows keep m :
  MysqlResultSet_new s maxRows keep m = Ok tt (new_state s maxRows keep m).
Proof.
  unfold MysqlResultSet_new, new_body, new_state.
  do 5 step. unfold modifyR, getR, getStmt. norm.
  destruct (to_int (mysql_stmt_field_count s) <=? 0) eqn:Hcc.
  { step. reflexivity. }
  erewrite bind_Ok.
  2:{ do 2 step. reflexivity. }
  unfold mysql_stmt_result_metadata. norm.
  destruct (metadata s) as [fields|] eqn:Hmeta; [|reflexivity].
  do 3 step.
  erewrite bind_Ok by (by apply new_loop_eq).
  do 2 step.
  destruct (mysql_stmt_bind_result _ _) as [rc1 s2] eqn:Hb.
  erewrite bind_Ok by (eapply engine_eq; norm; exact Hb).
  step. unfold when.
  destruct (mysql_stmt_store_result s2) as [rc2 s3] eqn:Hs.
  destruct (negb (rc1 =? 0)); step;
    (erewrite bind_Ok by (eapply engine_eq; norm; exact Hs));
    reflexivity.
Qed.

(* ------------------------------------------------------------------ *)
(** ** The targeted re-fetch *)

Lemma called_pending c s : pending (called c s) = pending s.
Proof. unfold called, take_fault, logged. simpl. by destruct (faults s). Qed.

Lemma called_current c s : current (called c s) = current s.
Proof. unfold called, take_fault, logged. simpl. by destruct (faults s). Qed.

Lemma called_bound c s : bound (called c s) = bound s.
Proof. unfold called, take_fault, logged. simpl. by destruct (faults s). Qed.

Lemma called_field_count c s : field_count (called c s) = field_count s.
Proof. unfold called, take_fault, logged. simpl. by destruct (faults s). Qed.

Lemma called_metadata c s : metadata (called c s) = metadata s.
Proof. unfold called, take_fault, logged. simpl. by destruct (faults s). Qed.

Lemma called_errtext c s : errtext (called c s) = errtext s.
Proof. unfold called, take_fault, logged. simpl. by destruct (faults s). Qed.

Lemma called_log c s : log (called c s) = c :: log s.
Proof. unfold called, take_fault, logged. simpl. by destruct (faults s). Qed.

Lemma called_faults c s : faults (called c s) = tail (faults s).
Proof. unfold called, take_fault, logged. simpl. by destruct (faults s). Qed.

Lemma take_fault_eq c s : take_fault (logged c s) = (faulty s, called c s).
Proof. unfold faulty, called, take_fault, logged. simpl. by destruct (faults s). Qed.

Create Rewrite HintDb stmt.

#[global] Hint Rewrite called_pending called_current called_bound
  called_field_count called_metadata called_errtext called_log : stmt.

Lemma fetch_column_eq s b (k : nat) cols m :
  mysql_stmt_fetch_column s b (Z.of_nat k) 0 cols m =
    match column_value s k with
    | None => Some (1, called (call_fetch_column b (Z.of_nat k) 0) s, cols, m)
    | Some v =>
        '(_, cols1, m1) ← store_value b v 0 cols m;
        Some (0, called (call_fetch_column b (Z.of_nat k) 0) s, cols1, m1)
    end.
Proof.
  unfold mysql_stmt_fetch_column, column_value. rewrite take_fault_eq.
  destruct (faulty s); [done|].
  rewrite called_current, called_field_count.
  destruct (current s) as [r|]; [|done]. simpl.
  destruct (Z.ltb_spec (Z.of_nat k) 0); [lia|]. simpl.
  destruct (field_count s <=? Z.of_nat k); [done|].
  rewrite Nat2Z.id. by destruct (r !! k).
Qed.

Lemma ensureCapacity_fits st cols bs (k : nat) c b :
  columns (R st) = Some cols → bind (R st) = Some bs →
  cols !! k = Some c → bs !! k = Some b →
  real_length c ≤ bind_buffer_length b →
  _ensureCapacity (Z.of_nat k) st = Ok tt st.
Proof.
  intros Hcols Hbs Hc Hb Hfit. unfold _ensureCapacity.
  erewrite bind_Ok by (by eapply column_at_eq).
  erewrite bind_Ok by (by eapply bind_at_eq).
  destruct (Z.ltb_spec (bind_buffer_length b) (real_length c)); [lia|done].
Qed.

Lemma ensureCapacity_grows st cols bs (k : nat) c b a blk :
  columns (R st) = Some cols → bind (R st) = Some bs →
  cols !! k = Some c → bs !! k = Some b →
  bind_buffer_length b < real_length c →
  buffer c = Some a → live (mem st) a = Some blk →
  let a' := length (mem st) in
  let b1 := grown_bind c b a' in
  _ensureCapacity (Z.of_nat k) st =
    match mysql_stmt_fetch_column (stmt st) b1 (Z.of_nat k) 0
            (<[k := grown_column c a']> cols) (grown_mem (mem st) a c blk) with
    | None => Undefined
    | Some (rc, s2, cols2, m2) =>
        let r2 := set_lastError
                    (set_columns (set_bind (R st) (Some (<[k := b1]> bs)))
                                 (Some cols2)) rc in
        if rc =? 0
        then Ok tt {| R := set_needRebind r2 true; mem := m2; stmt := s2 |}
        else Throw (SQLException "mysql_stmt_fetch_column -- %s"
                                 (mysql_stmt_error s2))
                   {| R := r2; mem := m2; stmt := s2 |}
    end.
Proof.
  intros Hcols Hbs Hc Hb Htrunc Ha Hlive a' b1.
  pose proof (lookup_lt_Some _ _ _ Hc) as Hlc.
  pose proof (lookup_lt_Some _ _ _ Hb) as Hlb.
  unfold _ensureCapacity.
  erewrite bind_Ok by (by eapply column_at_eq).
  erewrite bind_Ok by (by eapply bind_at_eq).
  destruct (Z.ltb_spec (bind_buffer_length b) (real_length c)); [|lia].
  unfold when.
  erewrite bind_Ok by reflexivity.
  erewrite bind_Ok.
  2:{ unfold RESIZE. rewrite Ha, Hlive. reflexivity. }
  cbv beta iota zeta.
  erewrite bind_Ok by reflexivity.
  erewrite bind_Ok by (by eapply update_column_eq).
  erewrite bind_Ok
    by (eapply column_at_eq; [reflexivity|by apply list_lookup_insert_eq]).
  erewrite bind_Ok by (by eapply update_bind_eq).
  erewrite bind_Ok
    by (eapply update_bind_eq; [reflexivity|by apply list_lookup_insert_eq]).
  erewrite bind_Ok
    by (eapply bind_at_eq; [reflexivity|
        by apply list_lookup_insert_eq; rewrite ?length_insert]).
  rewrite !list_insert_insert_eq.
  unfold mbind, M_bind, engine_io. norm. unfold grown_mem, grown_column.
  fold a'. cbn [buffer real_length set_buffer].
  change (set_bind_buffer_length (set_bind_buffer b (Some a')) (real_length c))
    with b1.
  destruct (mysql_stmt_fetch_column _ _ _ _ _ _) as [[[[rc s2] cols2] m2]|];
    [|done].
  unfold modifyR, getStmt, throw, mret, M_ret. norm.
  destruct (rc =? 0); reflexivity.
Qed.

(* ------------------------------------------------------------------ *)
(** ** The invariant is kept *)

Lemma to_ulong_small z : 0 ≤ z < LONG_MAX → to_ulong (z + 1) = z + 1.
Proof. intros H. unfold to_ulong, LONG_MAX in *. apply Z.mod_small. lia. Qed.

Lemma to_long_small z : 0 ≤ z < LONG_MAX → to_long z = z.
Proof.
  intros H. unfold to_long, LONG_MAX in *.
  rewrite Z.mod_small by lia. lia.
Qed.

Lemma to_int_small z : - 2 ^ 31 ≤ z < 2 ^ 31 → to_int z = z.
Proof. intros H. unfold to_int. rewrite Z.mod_small by lia. lia. Qed.

Lemma to_int_range z : - 2 ^ 31 ≤ to_int z < 2 ^ 31.
Proof.
  unfold to_int. pose proof (Z.mod_pos_bound (z + 2 ^ 31) (2 ^ 32)). lia.
Qed.

(** Changes that leave the tables and the heap alone keep the
    invariant. *)
Lemma Inv_frame st st' :
  Inv st →
  columns (R st') = columns (R st) → bind (R st') = bind (R st) →
  columnCount (R st') = columnCount (R st) →
  mem st' = mem st →
  field_count (stmt st') = field_count (stmt st) →
  (stop (R st) = true → stop (R st') = true) →
  (current (stmt st') = current (stmt st) ∨ current (stmt st') = None) →
  Forall row_ok (pending (stmt st')) →
  (stop (R st') = false →
     ∃ reg, bound (stmt st') = Some reg ∧
       length reg = Z.to_nat (columnCount (R st)) ∧ pointers_from 0 reg ∧
       capacities_below reg (bind (R st))) →
  Inv st'.
Proof.
  intros [Ht Hc Hr Hn Hp Hb] Hcols Hbs Hcc Hmem Hfc Hstop Hcur Hpend Hbound.
  split.
  - rewrite Hcols, Hbs. destruct (columns (R st)) as [cols|], (bind (R st)) as [bs|];
      try done; [|by auto].
    destruct Ht as [? ? ? Hs Hd]. split; rewrite ?Hcc, ?Hfc, ?Hmem; done.
  - by rewrite Hcc.
  - rewrite Hcols. intros r cols i c v Hr'. destruct Hcur as [Hcur|Hcur].
    + rewrite Hcur in Hr'. by eapply Hr.
    + by rewrite Hcur in Hr'.
  - rewrite Hcols. intros Hnone. destruct Hcur as [->| ->]; auto.
  - done.
  - rewrite Hcc, Hbs. done.
Qed.

Lemma blen_grown_new m a c blk :
  0 ≤ real_length c < LONG_MAX →
  blen (grown_mem m a c blk) (length m) = Some (Z.to_nat (real_length c + 1)).
Proof.
  intros H. unfold blen, grown_mem.
  rewrite <- (length_insert m a None).
  rewrite live_app_new. simpl. by rewrite length_resize, to_ulong_small.
Qed.

Lemma blen_grown_old m a c blk a' :
  a' ≠ a → (a' < length m)%nat →
  blen (grown_mem m a c blk) a' = blen m a'.
Proof.
  intros Hne Hlt. unfold blen, grown_mem.
  rewrite live_app_l by by rewrite length_insert.
  by rewrite live_insert_ne.
Qed.

Lemma blen_lt m a n : blen m a = Some n → (a < length m)%nat.
Proof.
  unfold blen. destruct (live m a) eqn:H; [|done]. intros _.
  by eapply live_lt.
Qed.

(** Growing the buffer of column [k] keeps the invariant, whatever the
    re-fetch then delivers into the column. *)
Lemma Inv_grow st cols bs k c b a blk c2 r2 m2 s2 :
  Inv st →
  columns (R st) = Some cols → bind (R st) = Some bs →
  cols !! k = Some c → bs !! k = Some b →
  bind_buffer_length b < real_length c →
  buffer c = Some a → live (mem st) a = Some blk →
  buffer c2 = Some (length (mem st)) →
  real_length c2 = real_length c →
  (∀ r v, current (stmt st) = Some r → r !! k = Some v → in_sync v c2) →
  (∀ a', blen m2 a' = blen (grown_mem (mem st) a c blk) a') →
  pending s2 = pending (stmt st) → current s2 = current (stmt st) →
  bound s2 = bound (stmt st) → field_count s2 = field_count (stmt st) →
  columns r2 = Some (<[k := c2]> cols) →
  bind r2 = Some (<[k := grown_bind c b (length (mem st))]> bs) →
  columnCount r2 = columnCount (R st) → stop r2 = stop (R st) →
  Inv {| R := r2; mem := m2; stmt := s2 |}.
Proof.
  intros [Ht Hc Hr Hn Hp Hb] Hcols Hbs Hck Hbk Htrunc Ha Hlive Hc2 Hrl Hsync Hblen
    Hpend Hcur Hbound Hfc Hcols2 Hbs2 Hcc Hstop.
  rewrite Hcols, Hbs in Ht. destruct Ht as [Hlc Hlb Hcount Hslots Hdist].
  pose proof (Hslots _ _ _ Hck Hbk) as Hk.
  split; norm.
  - rewrite Hcols2, Hbs2. split; norm.
    + by rewrite length_insert, Hcc.
    + by rewrite length_insert, Hcc.
    + by rewrite Hcc, Hfc.
    + intros i ci bi Hci Hbi. destruct (decide (i = k)) as [->|Hne].
      * rewrite list_lookup_insert_eq in Hci by eauto using lookup_lt_Some.
        rewrite list_lookup_insert_eq in Hbi by eauto using lookup_lt_Some.
        simplify_eq. destruct Hk.
        split; simpl; [by rewrite Hc2|by rewrite Hc2|lia| |done|done|by rewrite Hrl].
        intros a'. rewrite Hc2. intros [= <-]. rewrite Hblen.
        by apply blen_grown_new.
      * rewrite list_lookup_insert_ne in Hci by done.
        rewrite list_lookup_insert_ne in Hbi by done.
        destruct (Hslots _ _ _ Hci Hbi). split; try done.
        intros a' Ha'. rewrite Hblen. rewrite blen_grown_old; [by auto| |].
        -- intros ->. apply Hne. eapply Hdist; [done..|]. by rewrite Ha, Ha'.
        -- eapply blen_lt; eauto.
    + intros i j ci cj Hci Hcj Heq.
      destruct (decide (i = k)) as [->|Hi], (decide (j = k)) as [->|Hj]; [done| | |].
      * rewrite list_lookup_insert_eq in Hci by eauto using lookup_lt_Some.
        rewrite list_lookup_insert_ne in Hcj by done. simplify_eq.
        destruct (lookup_lt_is_Some_2 bs j) as [bj Hbj];
          [rewrite Hlb, <- Hlc; eauto using lookup_lt_Some|].
        destruct (Hslots _ _ _ Hcj Hbj) as [_ _ _ Hsz _ _ _].
        rewrite Hc2 in Heq. symmetry in Heq. apply Hsz, blen_lt in Heq. lia.
      * rewrite list_lookup_insert_ne in Hci by done.
        rewrite list_lookup_insert_eq in Hcj by eauto using lookup_lt_Some.
        simplify_eq.
        destruct (lookup_lt_is_Some_2 bs i) as [bi Hbi];
          [rewrite Hlb, <- Hlc; eauto using lookup_lt_Some|].
        destruct (Hslots _ _ _ Hci Hbi) as [_ _ _ Hsz _ _ _].
        rewrite Hc2 in Heq. apply Hsz, blen_lt in Heq. lia.
      * rewrite list_lookup_insert_ne in Hci, Hcj by done. by eapply Hdist.
  - by rewrite Hcc.
  - rewrite Hcur, Hcols2. intros r cols' i ci v Hr' [= <-] Hci Hv.
    destruct (decide (i = k)) as [->|Hne].
    + rewrite list_lookup_insert_eq in Hci by eauto using lookup_lt_Some.
      simplify_eq. by eapply Hsync.
    + rewrite list_lookup_insert_ne in Hci by done. by eapply Hr.
  - by rewrite Hcols2.
  - by rewrite Hpend.
  - rewrite Hstop, Hbound, Hcc, Hbs2. intros Hs.
    destruct (Hb Hs) as (reg & Hreg & Hlreg & Hptr & Hcap).
    exists reg. split_and!; try done.
    intros bs' j br b' [= <-] Hbr Hb'.
    destruct (decide (j = k)) as [->|Hne].
    + rewrite list_lookup_insert_eq in Hb' by eauto using lookup_lt_Some.
      simplify_eq. simpl. specialize (Hcap _ _ _ _ Hbs Hbr Hbk). lia.
    + rewrite list_lookup_insert_ne in Hb' by done. by eapply Hcap.
Qed.

Lemma slot_live m i c b :
  slot_ok m i c b → ∃ a blk, buffer c = Some a ∧ live m a = Some blk ∧
    length blk = Z.to_nat (bind_buffer_length b + 1).
Proof.
  intros [[a Ha] _ _ Hsz _ _ _]. specialize (Hsz a Ha). unfold blen in Hsz.
  destruct (live m a) as [blk|] eqn:Hlive; [|done]. simpl in Hsz. simplify_eq.
  by exists a, blk.
Qed.

Lemma Inv_tables st cols bs :
  Inv st → columns (R st) = Some cols → bind (R st) = Some bs →
  tables_ok st cols bs.
Proof. intros [Ht _ _ _ _ _] Hc Hb. by rewrite Hc, Hb in Ht. Qed.

(** What [_ensureCapacity] does for a truncated column, in a state that
    satisfies the invariant. *)
Lemma ensureCapacity_truncated st cols bs (k : nat) c b :
  Inv st →
  columns (R st) = Some cols → bind (R st) = Some bs →
  cols !! k = Some c → bs !! k = Some b →
  bind_buffer_length b < real_length c →
  ∃ a blk, buffer c = Some a ∧ live (mem st) a = Some blk ∧
    let a' := length (mem st) in
    let b1 := grown_bind c b a' in
    let c1 := grown_column c a' in
    let m1 := grown_mem (mem st) a c blk in
    match column_value (stmt st) k with
    | None =>
        _ensureCapacity (Z.of_nat k) st =
          Throw (SQLException "mysql_stmt_fetch_column -- %s" (errtext (stmt st)))
                (refetched st cols bs k c b c1 1 m1)
    | Some v =>
        ∃ m2, memcpy (Some a') (delivered_bytes b1 v 0) m1 = Some m2 ∧
          view m2 (Some a') (length (delivered_bytes b1 v 0))
            = Some (delivered_bytes b1 v 0) ∧
          _ensureCapacity (Z.of_nat k) st =
            Ok tt (set_R (refetched st cols bs k c b (deliver v c1) 0 m2)
                     (set_needRebind
                        (R (refetched st cols bs k c b (deliver v c1) 0 m2)) true))
    end.
Proof.
  intros HI Hcols Hbs Hc Hb Htrunc.
  pose proof (Inv_tables _ _ _ HI Hcols Hbs) as [_ _ _ Hslots _].
  pose proof (Hslots _ _ _ Hc Hb) as Hslot.
  destruct (slot_live _ _ _ _ Hslot) as (a & blk & Ha & Hlive & Hlen).
  destruct Hslot as [_ Hbb Hcap _ Hn Hl Hrl].
  exists a, blk. split_and!; [done..|]. intros a' b1 c1 m1.
  pose proof (lookup_lt_Some _ _ _ Hc) as Hlc.
  rewrite (ensureCapacity_grows _ _ _ _ _ _ _ _ Hcols Hbs Hc Hb Htrunc Ha Hlive).
  fold a' b1 c1 m1. rewrite fetch_column_eq.
  destruct (column_value (stmt st) k) as [v|]; [|by rewrite called_errtext].
  assert (live m1 a' = Some (resize (Z.to_nat (to_ulong (real_length c + 1))) None blk))
    as Hlive1.
  { unfold m1, grown_mem, a'. rewrite <- (length_insert (mem st) a None).
    apply live_app_new. }
  destruct (memcpy_defined a' (delivered_bytes b1 v 0) m1 _ Hlive1) as (m2 & Hm2 & Hview).
  { rewrite length_resize, to_ulong_small by done.
    destruct v as [d|]; simpl; [|lia]. rewrite length_take. lia. }
  exists m2. split_and!; [done..|].
  destruct (store_value_defined b1 v 0 (<[k := c1]> cols) m1 m2 k c1) as [t Ht];
    [done|done|by apply list_lookup_insert_eq|done|].
  rewrite Ht. simpl. rewrite list_insert_insert_eq. reflexivity.
Qed.

Lemma ensureCapacity_Inv st cols bs (k : nat) c b :
  Inv st →
  columns (R st) = Some cols → bind (R st) = Some bs →
  cols !! k = Some c → bs !! k = Some b →
  match _ensureCapacity (Z.of_nat k) st with
  | Ok _ st' =>
      Inv st' ∧
      (st' = st ∨
       bind_buffer_length b < real_length c ∧ needRebind (R st') = true ∧
       is_Some (column_value (stmt st) k)) ∧
      ∃ cols' bs' c' b', columns (R st') = Some cols' ∧ bind (R st') = Some bs' ∧
        cols' !! k = Some c' ∧ bs' !! k = Some b' ∧
        real_length c' = real_length c ∧
        real_length c' ≤ bind_buffer_length b'
  | Throw e st' =>
      Inv st' ∧ bind_buffer_length b < real_length c ∧
      column_value (stmt st) k = None ∧
      e = SQLException "mysql_stmt_fetch_column -- %s" (errtext (stmt st))
  | Undefined => False
  end.
Proof.
  intros HI Hcols Hbs Hc Hb.
  destruct (Z.le_gt_cases (real_length c) (bind_buffer_length b)) as [Hfit|Htrunc].
  { rewrite (ensureCapacity_fits _ _ _ _ _ _ Hcols Hbs Hc Hb Hfit).
    split_and!; [done|by left|]. by exists cols, bs, c, b. }
  destruct (ensureCapacity_truncated _ _ _ _ _ _ HI Hcols Hbs Hc Hb Htrunc)
    as (a & blk & Ha & Hlive & Hspec).
  cbv zeta in Hspec.
  pose proof (lookup_lt_Some _ _ _ Hc) as Hlc.
  pose proof (lookup_lt_Some _ _ _ Hb) as Hlb.
  destruct (column_value (stmt st) k) as [v|] eqn:Hv.
  - destruct Hspec as (m2 & Hm2 & _ & ->).
    assert (∀ r v', current (stmt st) = Some r → r !! k = Some v' → v' = v) as Hcur.
    { intros r v' Hr Hv'. unfold column_value in Hv. rewrite Hr in Hv.
      destruct (faulty _); [done|]. simpl in Hv.
      destruct (_ <=? _); [done|]. congruence. }
    assert (real_length (deliver v (grown_column c (length (mem st)))) = real_length c)
      as Hrl.
    { unfold column_value in Hv. destruct (faulty _); [done|].
      destruct (current (stmt st)) as [r|] eqn:Hr; [|done]. simpl in Hv.
      destruct (_ <=? _); [done|].
      destruct HI as [_ _ Hrow _ _ _].
      specialize (Hrow _ _ _ _ _ Hr Hcols Hc Hv).
      destruct v as [d|]; simpl in *; [|done]. by destruct Hrow as [_ ->]. }
    split_and!.
    + eapply (Inv_grow st cols bs k c b a blk
                (deliver v (grown_column c (length (mem st)))));
        [done..| | | | | | | | | | | |]; try done; unfold refetched; norm;
        rewrite ?called_pending, ?called_current, ?called_bound,
          ?called_field_count; try done.
      * by rewrite deliver_buffer.
      * intros r v' Hr Hv'. rewrite (Hcur _ _ Hr Hv'). apply deliver_in_sync.
      * intros a'. by eapply memcpy_blen.
    + right. by split_and!.
    + eexists _, _, _, _. unfold refetched. norm.
      split_and!; [done|done|by apply list_lookup_insert_eq
                  |by apply list_lookup_insert_eq|done|].
      rewrite Hrl. simpl. lia.
  - rewrite Hspec. split_and!; try done.
    eapply (Inv_grow st cols bs k c b a blk (grown_column c (length (mem st))));
      try done; unfold refetched; norm;
      rewrite ?called_pending, ?called_current, ?called_bound,
        ?called_field_count; try done.
    intros r v Hr Hv'. destruct HI as [_ _ Hrow _ _ _].
    specialize (Hrow _ _ _ _ _ Hr Hcols Hc Hv'). by destruct v.
Qed.

Lemma Inv_mem st m' :
  Inv st → (∀ a, blen m' a = blen (mem st) a) → Inv (set_mem st m').
Proof.
  intros [Ht Hc Hr Hn Hp Hb] Hblen. split; norm; try done.
  destruct (columns (R st)) as [cols|], (bind (R st)) as [bs|]; try done.
  destruct Ht as [? ? ? Hs Hd]. split; norm; try done.
  intros i c b Hci Hbi. destruct (Hs _ _ _ Hci Hbi). split; try done.
  intros a Ha. rewrite Hblen. auto.
Qed.

(* ------------------------------------------------------------------ *)
(** ** The accessors *)

Lemma check_index_in idx cc st :
  1 ≤ idx ≤ cc → checkAndSetColumnIndex idx cc st = Ok (idx - 1) st.
Proof.
  intros H. unfold checkAndSetColumnIndex.
  destruct (Z.leb_spec 1 idx); [|lia]. destruct (Z.leb_spec idx cc); [|lia]. done.
Qed.

Lemma check_index_out idx cc st :
  ¬ (1 ≤ idx ≤ cc) → checkAndSetColumnIndex idx cc st = Throw IndexError st.
Proof.
  intros H. unfold checkAndSetColumnIndex.
  destruct (Z.leb_spec 1 idx), (Z.leb_spec idx cc); try done. lia.
Qed.

Lemma slot_eq idx : 1 ≤ idx → Z.of_nat (slot idx) = idx - 1.
Proof. unfold slot. lia. Qed.

Lemma slot_lookup {A} (l : list A) idx cc :
  1 ≤ idx ≤ cc → length l = Z.to_nat cc → is_Some (l !! slot idx).
Proof. intros H Hl. apply lookup_lt_is_Some_2. unfold slot. lia. Qed.

Lemma getString_null st cols idx c :
  columns (R st) = Some cols → 1 ≤ idx ≤ columnCount (R st) →
  cols !! slot idx = Some c → is_null c = true →
  MysqlResultSet_getString idx st = Ok None st.
Proof.
  intros Hcols Hidx Hc Hnull. unfold MysqlResultSet_getString.
  erewrite bind_Ok by reflexivity.
  erewrite bind_Ok by (by apply check_index_in).
  rewrite <- slot_eq by lia.
  erewrite bind_Ok by (by eapply column_at_eq).
  by rewrite Hnull.
Qed.

Lemma getBlob_null st cols idx c :
  columns (R st) = Some cols → 1 ≤ idx ≤ columnCount (R st) →
  cols !! slot idx = Some c → is_null c = true →
  MysqlResultSet_getBlob idx st = Ok (None, None) st.
Proof.
  intros Hcols Hidx Hc Hnull. unfold MysqlResultSet_getBlob.
  erewrite bind_Ok by reflexivity.
  erewrite bind_Ok by (by apply check_index_in).
  rewrite <- slot_eq by lia.
  erewrite bind_Ok by (by eapply column_at_eq).
  by rewrite Hnull.
Qed.

Lemma getString_nonnull st cols idx c :
  columns (R st) = Some cols → 1 ≤ idx ≤ columnCount (R st) →
  cols !! slot idx = Some c → is_null c = false →
  MysqlResultSet_getString idx st =
    (_ensureCapacity (Z.of_nat (slot idx));; terminate (slot idx)) st.
Proof.
  intros Hcols Hidx Hc Hnull. unfold MysqlResultSet_getString.
  erewrite bind_Ok by reflexivity.
  erewrite bind_Ok by (by apply check_index_in).
  rewrite <- slot_eq by lia.
  erewrite bind_Ok by (by eapply column_at_eq).
  by rewrite Hnull.
Qed.

Lemma getBlob_nonnull st cols idx c :
  columns (R st) = Some cols → 1 ≤ idx ≤ columnCount (R st) →
  cols !! slot idx = Some c → is_null c = false →
  MysqlResultSet_getBlob idx st =
    (_ensureCapacity (Z.of_nat (slot idx));; blob_view (slot idx)) st.
Proof.
  intros Hcols Hidx Hc Hnull. unfold MysqlResultSet_getBlob.
  erewrite bind_Ok by reflexivity.
  erewrite bind_Ok by (by apply check_index_in).
  rewrite <- slot_eq by lia.
  erewrite bind_Ok by (by eapply column_at_eq).
  by rewrite Hnull.
Qed.

(** The terminator write is inside the buffer when the length of the
    value is within the capacity given to the engine. *)
Lemma terminate_spec st cols bs k c b :
  Inv st →
  columns (R st) = Some cols → bind (R st) = Some bs →
  cols !! k = Some c → bs !! k = Some b →
  real_length c ≤ bind_buffer_length b →
  ∃ a m2, buffer c = Some a ∧
    poke (Some a) (real_length c) x00 (mem st) = Some m2 ∧
    peek m2 (Some a) (Z.to_nat (real_length c)) = Some x00 ∧
    (∀ n, (n ≤ Z.to_nat (real_length c))%nat →
       view m2 (Some a) n = view (mem st) (Some a) n) ∧
    terminate k st = Ok (Some a) (set_mem st m2).
Proof.
  intros HI Hcols Hbs Hc Hb Hfit.
  pose proof (Inv_tables _ _ _ HI Hcols Hbs) as [_ _ _ Hslots _].
  pose proof (Hslots _ _ _ Hc Hb) as Hslot.
  destruct (slot_live _ _ _ _ Hslot) as (a & blk & Ha & Hlive & Hlen).
  destruct Hslot as [_ _ Hcap _ _ _ Hrl].
  destruct (poke_defined a (real_length c) x00 (mem st) blk Hlive)
    as (m2 & Hpoke & Hpeek & Hview); [lia|].
  exists a, m2. split_and!; try done.
  unfold terminate.
  erewrite bind_Ok by (by eapply column_at_eq).
  erewrite bind_Ok.
  2:{ unfold store_byte. erewrite bind_Ok by reflexivity.
      rewrite Ha, Hpoke. reflexivity. }
  erewrite bind_Ok by (by eapply column_at_eq).
  by rewrite Ha.
Qed.

(* ------------------------------------------------------------------ *)
(** ** Advancing the cursor *)

Lemma fetch_eq s cols m :
  mysql_stmt_fetch s cols m =
    if faulty s then Some (1, called call_fetch s, cols, m)
    else
      match pending s with
      | [] => Some (MYSQL_NO_DATA, set_current (called call_fetch s) None, cols, m)
      | r :: rest =>
          '(t, cols1, m1) ← store_row (default [] (bound s)) r cols m;
          Some (if t : bool then MYSQL_DATA_TRUNCATED else MYSQL_OK,
                set_current (set_pending (called call_fetch s) rest) (Some r),
                cols1, m1)
      end.
Proof.
  unfold mysql_stmt_fetch. rewrite take_fault_eq.
  by rewrite called_pending, called_bound.
Qed.

Lemma bind_result_eq s bs :
  mysql_stmt_bind_result s bs =
    if faulty s then (1, called (call_bind_result bs) s)
    else (0, set_bound (called (call_bind_result bs) s) (Some bs)).
Proof. unfold mysql_stmt_bind_result. by rewrite take_fault_eq. Qed.

Lemma store_result_eq s :
  mysql_stmt_store_result s =
    (if faulty s then 1 else 0, called call_store_result s).
Proof.
  unfold mysql_stmt_store_result. rewrite take_fault_eq. by destruct (faulty s).
Qed.

Lemma next_stopped st :
  stop (R st) = true → MysqlResultSet_next st = Ok false st.
Proof.
  intros H. unfold MysqlResultSet_next.
  erewrite bind_Ok by reflexivity. by rewrite H.
Qed.

Lemma next_limit st :
  stop (R st) = false → limit_reached (R st) = true →
  MysqlResultSet_next st =
    Ok false {| R := set_stop (counted (R st)) true; mem := mem st;
                stmt := mysql_stmt_reset (stmt st) |}.
Proof.
  intros Hstop Hlim. unfold MysqlResultSet_next, limit_reached, counted in *.
  erewrite bind_Ok by reflexivity. rewrite Hstop.
  destruct (maxRows (R st) =? 0) eqn:Hmax; [done|]. simpl in Hlim.
  erewrite bind_Ok.
  2:{ erewrite bind_Ok by reflexivity. reflexivity. }
  rewrite Hlim. reflexivity.
Qed.

Lemma needRebind_counted r : needRebind (counted r) = needRebind r.
Proof. unfold counted. by destruct (_ =? _). Qed.

Lemma bind_counted r : bind (counted r) = bind r.
Proof. unfold counted. by destruct (_ =? _). Qed.

Lemma columns_counted r : columns (counted r) = columns r.
Proof. unfold counted. by destruct (_ =? _). Qed.

Lemma columnCount_counted r : columnCount (counted r) = columnCount r.
Proof. unfold counted. by destruct (_ =? _). Qed.

Lemma stop_counted r : stop (counted r) = stop r.
Proof. unfold counted. by destruct (_ =? _). Qed.

Lemma maxRows_counted r : maxRows (counted r) = maxRows r.
Proof. unfold counted. by destruct (_ =? _). Qed.

Lemma next_continues st :
  stop (R st) = false → limit_reached (R st) = false →
  MysqlResultSet_next st = (rebind;; fetch_row) (set_R st (counted (R st))).
Proof.
  intros Hstop Hlim. unfold MysqlResultSet_next, limit_reached, counted in *.
  erewrite bind_Ok by reflexivity. rewrite Hstop.
  destruct (maxRows (R st) =? 0) eqn:Hmax; simpl in Hlim.
  - erewrite bind_Ok by reflexivity. cbv beta iota.
    replace (set_R st (R st)) with st by (by destruct st). reflexivity.
  - erewrite bind_Ok.
    2:{ erewrite bind_Ok by reflexivity. reflexivity. }
    rewrite Hlim. reflexivity.
Qed.

Lemma rebind_fails st bs :
  needRebind (R st) = true → bind (R st) = Some bs →
  faulty (stmt st) = true →
  rebind st =
    Throw (SQLException "mysql_stmt_bind_result -- %s" (errtext (stmt st)))
      {| R := set_lastError (R st) 1; mem := mem st;
         stmt := called (call_bind_result bs) (stmt st) |}.
Proof.
  intros Hneed Hbs Hfault. unfold rebind.
  erewrite bind_Ok by reflexivity. rewrite Hneed. unfold when.
  erewrite bind_Ok by (rewrite Hbs; reflexivity).
  erewrite bind_Ok
    by (eapply engine_eq; rewrite bind_result_eq, Hfault; reflexivity).
  erewrite bind_Ok by reflexivity.
  erewrite bind_Throw; [reflexivity|]. simpl.
  erewrite bind_Ok by reflexivity. unfold throw. norm.
  by rewrite called_errtext.
Qed.

Lemma rebind_succeeds st bs :
  needRebind (R st) = true → bind (R st) = Some bs →
  faulty (stmt st) = false →
  rebind st =
    Ok tt {| R := set_needRebind (set_lastError (R st) 0) false; mem := mem st;
             stmt := set_bound (called (call_bind_result bs) (stmt st)) (Some bs) |}.
Proof.
  intros Hneed Hbs Hfault. unfold rebind.
  erewrite bind_Ok by reflexivity. rewrite Hneed. unfold when.
  erewrite bind_Ok by (rewrite Hbs; reflexivity).
  erewrite bind_Ok
    by (eapply engine_eq; rewrite bind_result_eq, Hfault; reflexivity).
  erewrite bind_Ok by reflexivity.
  erewrite bind_Ok by reflexivity.
  reflexivity.
Qed.

Lemma rebind_skipped st : needRebind (R st) = false → rebind st = Ok tt st.
Proof.
  intros Hneed. unfold rebind.
  erewrite bind_Ok by reflexivity. by rewrite Hneed.
Qed.

Lemma next_rebind_fails st bs :
  stop (R st) = false → limit_reached (R st) = false →
  needRebind (R st) = true → bind (R st) = Some bs →
  faulty (stmt st) = true →
  MysqlResultSet_next st =
    Throw (SQLException "mysql_stmt_bind_result -- %s" (errtext (stmt st)))
      {| R := set_lastError (counted (R st)) 1; mem := mem st;
         stmt := called (call_bind_result bs) (stmt st) |}.
Proof.
  intros Hstop Hlim Hneed Hbs Hfault. rewrite next_continues by done.
  erewrite bind_Throw; [reflexivity|].
  erewrite rebind_fails; norm; rewrite ?needRebind_counted, ?bind_counted; done.
Qed.

Lemma next_fetches st :
  stop (R st) = false → limit_reached (R st) = false →
  (needRebind (R st) = true → faulty (stmt st) = false ∧ is_Some (bind (R st))) →
  MysqlResultSet_next st = fetch_row (before_fetch st).
Proof.
  intros Hstop Hlim Hneed. rewrite next_continues by done.
  unfold before_fetch. rewrite needRebind_counted.
  destruct (needRebind (R st)) eqn:Hn.
  - destruct Hneed as [Hfault [bs Hbs]]; [done|].
    erewrite bind_Ok; [reflexivity|].
    erewrite rebind_succeeds; norm;
      rewrite ?needRebind_counted, ?bind_counted; try done.
    by rewrite Hbs.
  - erewrite bind_Ok; [reflexivity|].
    apply rebind_skipped. norm. by rewrite needRebind_counted.
Qed.

Lemma fetch_row_eq st :
  fetch_row st =
    match mysql_stmt_fetch (stmt st) (default [] (columns (R st))) (mem st) with
    | None => Undefined
    | Some (rc, s, cols, m) =>
        if rc =? 1
        then Throw (SQLException "mysql_stmt_fetch -- %s" (errtext s))
                   (fetched st rc s cols m)
        else Ok ((rc =? MYSQL_OK) || (rc =? MYSQL_DATA_TRUNCATED))
                (fetched st rc s cols m)
    end.
Proof.
  unfold fetch_row, mbind, M_bind, engine_io.
  destruct (mysql_stmt_fetch _ _ _) as [[[[rc s] cols] m]|]; [|done].
  unfold modifyR, when, getStmt, throw, mret, M_ret, fetched. norm.
  by destruct (rc =? 1).
Qed.

Lemma Forall_lookup_value (r : row) i v :
  row_ok r → r !! i = Some v → value_ok v.
Proof. intros H Hi. eapply Forall_lookup_1; eauto. Qed.

(** A delivered row leaves the tables in order and the columns in sync
    with the row. *)
Lemma Inv_fetched st cols bs reg r rest t cols1 m1 rc :
  Inv st →
  columns (R st) = Some cols → bind (R st) = Some bs →
  bound (stmt st) = Some reg →
  length reg = Z.to_nat (columnCount (R st)) → pointers_from 0 reg →
  capacities_below reg (bind (R st)) →
  pending (stmt st) = r :: rest →
  store_row reg r cols (mem st) = Some (t, cols1, m1) →
  Inv (fetched st rc
         (set_current (set_pending (called call_fetch (stmt st)) rest) (Some r))
         cols1 m1).
Proof.
  intros HI Hcols Hbs Hreg Hlreg Hptr Hcap Hpend Hstore.
  pose proof (Inv_tables _ _ _ HI Hcols Hbs) as [Hlc Hlb Hcount Hslots Hdist].
  destruct HI as [_ Hc Hr Hn Hp Hb].
  apply store_row_inv with (k := 0%nat) in Hstore as (Hl1 & Hm1 & Hblen & Hcols1);
    [|done|lia].
  rewrite Hpend in Hp. apply Forall_cons in Hp as [Hrok Hrest].
  assert (∀ i c1, cols1 !! i = Some c1 → ∃ c, cols !! i = Some c ∧
            c1 = match r !! i with Some v => deliver v c | None => c end) as Hback.
  { intros i c1 Hc1.
    destruct (lookup_lt_is_Some_2 cols i) as [c Hci];
      [rewrite <- Hl1; eauto using lookup_lt_Some|].
    exists c. split; [done|]. rewrite (Hcols1 _ _ Hci) in Hc1.
    rewrite decide_True in Hc1 by lia. rewrite Nat.sub_0_r in Hc1.
    destruct (r !! i) as [v|]; [|by simplify_eq].
    destruct (lookup_lt_is_Some_2 reg i) as [bi Hbi];
      [rewrite Hlreg, <- Hlc; eauto using lookup_lt_Some|].
    rewrite Hbi in Hc1. by simplify_eq. }
  unfold fetched. rewrite Hcols. split; norm.
  - rewrite Hbs. split; norm.
    + by rewrite Hl1.
    + done.
    + by rewrite called_field_count.
    + intros i c1 b Hc1 Hbi. destruct (Hback _ _ Hc1) as (c & Hci & ->).
      destruct (Hslots _ _ _ Hci Hbi) as [? ? ? Hsz ? ? ?].
      destruct (r !! i) as [v|] eqn:Hv.
      * split; rewrite ?deliver_buffer; try done.
        -- intros a Ha. rewrite Hblen. auto.
        -- pose proof (Forall_lookup_value _ _ _ Hrok Hv) as Hvok.
           destruct v as [d|]; simpl in *; [lia|done].
      * split; try done. intros a Ha. rewrite Hblen. auto.
    + intros i j ci cj Hci Hcj Heq.
      destruct (Hback _ _ Hci) as (c & Hi & ->).
      destruct (Hback _ _ Hcj) as (c' & Hj & ->).
      eapply Hdist; [done..|].
      destruct (r !! i), (r !! j); by rewrite ?deliver_buffer in Heq.
  - done.
  - intros r' cols' i c1 v [= <-] [= <-] Hc1 Hv.
    destruct (Hback _ _ Hc1) as (c & Hi & ->). rewrite Hv.
    apply deliver_in_sync.
  - done.
  - done.
  - rewrite called_bound. intros _. exists reg. by rewrite Hbs in *.
Qed.

Lemma pointers_of_tables st cols bs :
  tables_ok st cols bs → pointers_from 0 bs.
Proof.
  intros [Hlc Hlb _ Hslots _] j b Hb.
  destruct (lookup_lt_is_Some_2 cols j) as [c Hc];
    [rewrite Hlc, <- Hlb; eauto using lookup_lt_Some|].
  by destruct (Hslots _ _ _ Hc Hb).
Qed.

Lemma Inv_counted st : Inv st → Inv (set_R st (counted (R st))).
Proof.
  intros HI. eapply Inv_frame; [exact HI|norm..];
    rewrite ?columns_counted, ?bind_counted, ?columnCount_counted, ?stop_counted;
    try done; [by left|by destruct HI|by destruct HI].
Qed.

Lemma Inv_before_fetch st :
  Inv st → stop (R st) = false → Inv (before_fetch st).
Proof.
  intros HI Hstop. unfold before_fetch. rewrite needRebind_counted.
  destruct (needRebind (R st)); [|by apply Inv_counted].
  eapply Inv_frame; [exact HI|norm..];
    rewrite ?columns_counted, ?bind_counted, ?columnCount_counted, ?stop_counted,
      ?called_field_count, ?called_current, ?called_pending;
    try done; [by left|by destruct HI|].
  intros _. destruct HI as [Ht _ _ _ _ _].
  destruct (columns (R st)) as [cols|], (bind (R st)) as [bs|]; try done;
    [|congruence].
  exists bs. split_and!; [done|by destruct Ht|by eapply pointers_of_tables|].
  intros bs' j br b' [= <-] Hbr Hb'. rewrite Hb' in Hbr. by simplify_eq.
Qed.

Lemma fetch_row_Inv st st' :
  Inv st → stop (R st) = false → after (fetch_row st) st' → Inv st'.
Proof.
  intros HI Hstop. rewrite fetch_row_eq, fetch_eq.
  pose proof HI as [Ht Hc Hr Hn Hp Hb].
  destruct (Hb Hstop) as (reg & Hreg & Hlreg & Hptr & Hcap).
  destruct (columns (R st)) as [cols|] eqn:Hcols, (bind (R st)) as [bs|] eqn:Hbs;
    try done; [|congruence].
  destruct (faulty (stmt st)).
  { simpl. intros <-. eapply Inv_frame; [exact HI|unfold fetched; norm..];
      rewrite ?Hcols, ?called_field_count, ?called_current, ?called_pending;
      norm; try done; [by left|].
    rewrite called_bound. intros _. exists reg. by rewrite ?Hbs. }
  destruct (pending (stmt st)) as [|r rest] eqn:Hpend.
  { simpl. intros <-. eapply Inv_frame; [exact HI|unfold fetched; norm..];
      rewrite ?Hcols, ?called_field_count, ?called_pending;
      norm; try done; [by right|by rewrite Hpend|].
    rewrite called_bound. intros _. exists reg. by rewrite ?Hbs. }
  rewrite Hreg. simpl.
  destruct (store_row reg r cols (mem st)) as [[[t cols1] m1]|] eqn:Hstore;
    [|done].
  simpl. destruct t; simpl; intros <-; eapply Inv_fetched; try done;
    by rewrite Hbs.
Qed.

Lemma next_Inv st st' :
  Inv st → after (MysqlResultSet_next st) st' → Inv st'.
Proof.
  intros HI. destruct (stop (R st)) eqn:Hstop.
  { rewrite next_stopped by done. by intros <-. }
  destruct (limit_reached (R st)) eqn:Hlim.
  { rewrite next_limit by done. intros <-.
    eapply Inv_frame; [exact HI|norm..];
      rewrite ?columns_counted, ?bind_counted, ?columnCount_counted; try done.
    by right. }
  destruct (needRebind (R st)) eqn:Hneed.
  - pose proof HI as [Ht _ _ _ _ _].
    destruct (columns (R st)) as [cols|] eqn:Hcols, (bind (R st)) as [bs|] eqn:Hbs;
      try done; [|congruence].
    destruct (faulty (stmt st)) eqn:Hfault.
    + erewrite next_rebind_fails by done. intros <-.
      eapply Inv_frame; [exact HI|norm..];
        rewrite ?columns_counted, ?bind_counted, ?columnCount_counted,
          ?stop_counted, ?called_field_count, ?called_current, ?called_pending,
          ?called_bound;
        try done; [by left|by destruct HI|by destruct HI].
    + rewrite next_fetches by (rewrite ?Hbs; eauto).
      apply fetch_row_Inv; [by apply Inv_before_fetch|].
      unfold before_fetch. rewrite needRebind_counted, Hneed. norm.
      by rewrite stop_counted.
  - rewrite next_fetches by (by rewrite ?Hneed).
    apply fetch_row_Inv; [by apply Inv_before_fetch|].
    unfold before_fetch. rewrite needRebind_counted, Hneed. norm.
    by rewrite stop_counted.
Qed.

Lemma column_at_null st i : columns (R st) = None → column_at i st = Undefined.
Proof. intros H. unfold column_at, getR, mbind, M_bind. by rewrite H. Qed.

(** What [getString] does on a valid index of a cursor with columns. *)
Lemma getString_spec st cols bs idx c b :
  Inv st →
  columns (R st) = Some cols → bind (R st) = Some bs →
  1 ≤ idx ≤ columnCount (R st) →
  cols !! slot idx = Some c → bs !! slot idx = Some b →
  match MysqlResultSet_getString idx st with
  | Ok p st' =>
      Inv st' ∧
      (is_null c = true ∧ p = None ∧ st' = st ∨
       is_null c = false ∧
       ∃ a cols' bs' c' b' blk, p = Some a ∧
         columns (R st') = Some cols' ∧ bind (R st') = Some bs' ∧
         cols' !! slot idx = Some c' ∧ bs' !! slot idx = Some b' ∧
         buffer c' = Some a ∧ real_length c' = real_length c ∧
         real_length c ≤ bind_buffer_length b' ∧
         live (mem st') a = Some blk ∧
         blk !! Z.to_nat (real_length c) = Some (Some x00))
  | Throw e st' =>
      Inv st' ∧ is_null c = false ∧ bind_buffer_length b < real_length c ∧
      column_value (stmt st) (slot idx) = None ∧
      e = SQLException "mysql_stmt_fetch_column -- %s" (errtext (stmt st))
  | Undefined => False
  end.
Proof.
  intros HI Hcols Hbs Hidx Hc Hb. destruct (is_null c) eqn:Hnull.
  { erewrite getString_null by done. split; [done|]. by left. }
  erewrite getString_nonnull by done.
  pose proof (ensureCapacity_Inv _ _ _ _ _ _ HI Hcols Hbs Hc Hb) as Hens.
  unfold mbind at 1, M_bind at 1.
  destruct (_ensureCapacity _ st) as [[] st1|e st1|];
    [|by destruct Hens as (? & ? & ? & ?)|done].
  destruct Hens as (HI1 & _ & cols' & bs' & c' & b' & Hcols' & Hbs' & Hc' & Hb' & Hrl & Hfit).
  destruct (terminate_spec _ _ _ _ _ _ HI1 Hcols' Hbs' Hc' Hb' Hfit)
    as (a & m2 & Ha & Hpoke & Hpeek & _ & ->).
  split.
  - apply Inv_mem; [done|]. intros a'. by eapply poke_blen.
  - right. split; [done|].
    unfold peek in Hpeek. destruct (live m2 a) as [blk|] eqn:Hlive; [|done].
    exists a, cols', bs', c', b', blk. norm. rewrite <- Hrl.
    split_and!; try done.
    destruct (blk !! _) as [[x|]|]; simpl in Hpeek; by simplify_eq.
Qed.

Lemma getString_Inv st idx st' :
  Inv st → after (MysqlResultSet_getString idx st) st' → Inv st'.
Proof.
  intros HI.
  destruct (decide (1 ≤ idx ≤ columnCount (R st))) as [Hidx|Hidx].
  2:{ unfold MysqlResultSet_getString.
      erewrite bind_Ok by reflexivity.
      erewrite bind_Throw by (by apply check_index_out). by intros <-. }
  destruct (columns (R st)) as [cols|] eqn:Hcols.
  2:{ unfold MysqlResultSet_getString.
      erewrite bind_Ok by reflexivity.
      erewrite bind_Ok by (by apply check_index_in).
      erewrite bind_Undefined by (by apply column_at_null). done. }
  destruct (bind (R st)) as [bs|] eqn:Hbs.
  2:{ destruct HI as [Ht _ _ _ _ _]. by rewrite Hcols, Hbs in Ht. }
  pose proof (Inv_tables _ _ _ HI Hcols Hbs) as [Hlc Hlb _ _ _].
  destruct (slot_lookup cols idx _ Hidx Hlc) as [c Hc].
  destruct (slot_lookup bs idx _ Hidx Hlb) as [b Hb].
  pose proof (getString_spec _ _ _ _ _ _ HI Hcols Hbs Hidx Hc Hb) as H.
  destruct (MysqlResultSet_getString idx st); simpl; [intros <-..|done];
    by destruct H.
Qed.

(** What [getBlob] does on a valid index of a cursor with columns. *)
Lemma getBlob_spec st cols bs idx c b :
  Inv st →
  columns (R st) = Some cols → bind (R st) = Some bs →
  1 ≤ idx ≤ columnCount (R st) →
  cols !! slot idx = Some c → bs !! slot idx = Some b →
  match MysqlResultSet_getBlob idx st with
  | Ok p st' =>
      Inv st' ∧
      (is_null c = true ∧ p = (None, None) ∧ st' = st ∨
       is_null c = false ∧
       ∃ a cols' bs' c' b', p = (Some a, Some (to_int (real_length c))) ∧
         columns (R st') = Some cols' ∧ bind (R st') = Some bs' ∧
         cols' !! slot idx = Some c' ∧ bs' !! slot idx = Some b' ∧
         buffer c' = Some a ∧ real_length c' = real_length c ∧
         real_length c ≤ bind_buffer_length b')
  | Throw e st' =>
      Inv st' ∧ is_null c = false ∧ bind_buffer_length b < real_length c ∧
      column_value (stmt st) (slot idx) = None ∧
      e = SQLException "mysql_stmt_fetch_column -- %s" (errtext (stmt st))
  | Undefined => False
  end.
Proof.
  intros HI Hcols Hbs Hidx Hc Hb. destruct (is_null c) eqn:Hnull.
  { erewrite getBlob_null by done. split; [done|]. by left. }
  erewrite getBlob_nonnull by done.
  pose proof (ensureCapacity_Inv _ _ _ _ _ _ HI Hcols Hbs Hc Hb) as Hens.
  unfold mbind at 1, M_bind at 1.
  destruct (_ensureCapacity _ st) as [[] st1|e st1|];
    [|by destruct Hens as (? & ? & ? & ?)|done].
  destruct Hens as (HI1 & _ & cols' & bs' & c' & b' & Hcols' & Hbs' & Hc' & Hb' & Hrl & Hfit).
  pose proof (Inv_tables _ _ _ HI1 Hcols' Hbs') as [_ _ _ Hslots _].
  destruct (slot_live _ _ _ _ (Hslots _ _ _ Hc' Hb')) as (a & blk & Ha & _ & _).
  unfold blob_view.
  erewrite bind_Ok by (by eapply column_at_eq).
  split; [done|]. right. split; [done|].
  exists a, cols', bs', c', b'. rewrite Ha, Hrl in *. by split_and!.
Qed.

Lemma getBlob_Inv st idx st' :
  Inv st → after (MysqlResultSet_getBlob idx st) st' → Inv st'.
Proof.
  intros HI.
  destruct (decide (1 ≤ idx ≤ columnCount (R st))) as [Hidx|Hidx].
  2:{ unfold MysqlResultSet_getBlob.
      erewrite bind_Ok by reflexivity.
      erewrite bind_Throw by (by apply check_index_out). by intros <-. }
  destruct (columns (R st)) as [cols|] eqn:Hcols.
  2:{ unfold MysqlResultSet_getBlob.
      erewrite bind_Ok by reflexivity.
      erewrite bind_Ok by (by apply check_index_in).
      erewrite bind_Undefined by (by apply column_at_null). done. }
  destruct (bind (R st)) as [bs|] eqn:Hbs.
  2:{ destruct HI as [Ht _ _ _ _ _]. by rewrite Hcols, Hbs in Ht. }
  pose proof (Inv_tables _ _ _ HI Hcols Hbs) as [Hlc Hlb _ _ _].
  destruct (slot_lookup cols idx _ Hidx Hlc) as [c Hc].
  destruct (slot_lookup bs idx _ Hidx Hlb) as [b Hb].
  pose proof (getBlob_spec _ _ _ _ _ _ HI Hcols Hbs Hidx Hc Hb) as H.
  destruct (MysqlResultSet_getBlob idx st); simpl; [intros <-..|done];
    by destruct H.
Qed.

(* ------------------------------------------------------------------ *)
(** ** The invariant holds after construction *)

Lemma lookup_init {A} (f : nat → A) n i x :
  (f <$> seq 0 n) !! i = Some x ↔ x = f i ∧ (i < n)%nat.
Proof.
  rewrite list_lookup_fmap, fmap_Some. split.
  - intros (j & Hj & ->). apply lookup_seq in Hj as [-> ?]. done.
  - intros [-> Hi]. exists i. split; [|done]. by apply lookup_seq.
Qed.

Lemma blen_fresh m n i :
  (i < n)%nat →
  blen (m ++ replicate n (Some fresh_block)) (length m + i)
    = Some (Z.to_nat (STRLEN + 1)).
Proof.
  intros Hi. unfold blen, live.
  rewrite lookup_app_r by lia.
  replace (length m + i - length m)%nat with i by lia.
  rewrite lookup_replicate_2 by done.
  change (Some (length fresh_block) = Some (Z.to_nat (STRLEN + 1))).
  unfold fresh_block. by rewrite length_replicate.
Qed.

Lemma to_int_count fc :
  0 ≤ fc < 2 ^ 32 → 0 < to_int fc → to_int fc = fc.
Proof.
  intros Hfc Hpos. unfold to_int in *.
  destruct (Z.lt_ge_cases fc (2 ^ 31)).
  - rewrite Z.mod_small by lia. lia.
  - replace (fc + 2 ^ 31) with (fc - 2 ^ 31 + 1 * 2 ^ 32) in Hpos by lia.
    rewrite Z.mod_add in Hpos by lia. rewrite Z.mod_small in Hpos by lia. lia.
Qed.

Lemma new_Inv s maxRows keep m :
  executed s → Inv (new_state s maxRows keep m).
Proof.
  intros [Hcur Hfc Hrows]. unfold new_state, mysql_stmt_field_count.
  pose proof (to_int_range (field_count s)) as Hrange.
  destruct (Z.leb_spec (to_int (field_count s)) 0) as [Hle|Hpos].
  { split; norm; try done. }
  destruct (metadata s) as [fields|] eqn:Hmeta.
  2:{ split; norm; try done. }
  set (n := Z.to_nat (to_int (field_count s))).
  set (bs := (λ i, init_bind (length m + i) i) <$> seq 0 n).
  set (cols := (λ i, init_column fields (length m + i) i) <$> seq 0 n).
  assert (tables_ok
            {| R := {| stop := false; keep := keep; maxRows := maxRows;
                       lastError := 0; needRebind := false; currentRow := 0;
                       columnCount := to_int (field_count s);
                       meta := Some fields; bind := Some bs;
                       columns := Some cols |};
               mem := m ++ replicate n (Some fresh_block);
               stmt := s |} cols bs) as Htab.
  { split; norm.
    - unfold cols. by rewrite length_fmap, length_seq.
    - unfold bs. by rewrite length_fmap, length_seq.
    - by apply to_int_count.
    - intros i c b Hc Hb. apply lookup_init in Hc as [-> Hi].
      apply lookup_init in Hb as [-> _].
      split; simpl; try done.
      intros a [= <-]. by apply blen_fresh.
    - intros i j c c' Hc Hc' Heq. apply lookup_init in Hc as [-> Hi].
      apply lookup_init in Hc' as [-> Hj]. simpl in Heq. simplify_eq. lia. }
  assert (pointers_from 0 bs) as Hptr by (by eapply pointers_of_tables).
  destruct Htab as [Hlc Hlb Hcount Hslots Hdist].
  rewrite bind_result_eq.
  destruct (faulty (logged call_result_metadata s)) eqn:Hf1;
    rewrite store_result_eq;
    split; norm; try done;
    try (by split; repeat (norm; autorewrite with stmt));
    try (by repeat (norm; autorewrite with stmt); unfold logged; norm).
  - repeat (norm; autorewrite with stmt). unfold logged. norm. by rewrite Hcur.
  - repeat (norm; autorewrite with stmt). unfold logged. norm. by rewrite Hcur.
  - intros _. exists bs. repeat (norm; autorewrite with stmt).
    split_and!; try done. intros bs' j br b' [= <-] Hbr Hb'. by simplify_eq.
Qed.

(* ------------------------------------------------------------------ *)
(** ** The states a client reaches *)

Lemma reachable_Inv st : reachable st → Inv st.
Proof.
  induction 1; eauto using new_Inv, next_Inv, getString_Inv, getBlob_Inv.
Qed.

(* ------------------------------------------------------------------ *)
(** ** Teardown *)

Lemma free_column_eq st cols (k : nat) c a blk :
  columns (R st) = Some cols → cols !! k = Some c →
  buffer c = Some a → live (mem st) a = Some blk →
  free_column (Z.of_nat k) st =
    Ok tt {| R := set_columns (R st) (Some (<[k := set_buffer c None]> cols));
             mem := <[a := None]> (mem st); stmt := stmt st |}.
Proof.
  intros Hcols Hc Ha Hlive. unfold free_column.
  erewrite bind_Ok by (by eapply column_at_eq).
  erewrite bind_Ok by reflexivity.
  erewrite bind_Ok by (unfold FREE; rewrite Ha, Hlive; reflexivity).
  erewrite bind_Ok by reflexivity.
  erewrite update_column_eq by done. reflexivity.
Qed.

(** The part of [MysqlResultSet_free] after the loop. *)
Lemma free_rest_eq st r :
  keep (R st) = keep r → meta (R st) = meta r →
  (engine_ mysql_stmt_free_result;;
   when (keep r =? 0) (engine_ mysql_stmt_close);;
   when (match meta r with Some _ => true | None => false end)
        (engine_ mysql_free_result);;
   modifyR (λ r, set_columns r None);;
   modifyR (λ r, set_bind r None)) st =
  Ok tt {| R := set_bind (set_columns (R st) None) None; mem := mem st;
           stmt := released r (stmt st) |}.
Proof.
  intros Hkeep Hmeta. unfold released.
  erewrite bind_Ok by reflexivity.
  destruct (keep r =? 0), (meta r); unfold when;
    do 3 (erewrite bind_Ok by reflexivity); reflexivity.
Qed.

(** Teardown of a cursor with its tables: every column buffer is
    released, nothing else in the heap is touched. *)
Lemma free_tables st cols bs :
  tables_ok st cols bs → columns (R st) = Some cols →
  ∃ m', MysqlResultSet_free st = Ok tt (m', released (R st) (stmt st)) ∧
    length m' = length (mem st) ∧
    (∀ i c a, cols !! i = Some c → buffer c = Some a → live m' a = None) ∧
    (∀ a, (∀ i c, cols !! i = Some c → buffer c ≠ Some a) →
          live m' a = live (mem st) a).
Proof.
  intros [Hlc Hlb _ Hslots Hdist] Hcols.
  set (n := Z.to_nat (columnCount (R st))) in *.
  pose (I := λ (j : nat) (st1 : state),
    stmt st1 = stmt st ∧ keep (R st1) = keep (R st) ∧ meta (R st1) = meta (R st) ∧
    length (mem st1) = length (mem st) ∧
    (∃ cols1, columns (R st1) = Some cols1 ∧ length cols1 = n ∧
       ∀ i, (j ≤ i)%nat → cols1 !! i = cols !! i) ∧
    (∀ i c a, (j ≤ i)%nat → cols !! i = Some c → buffer c = Some a →
       live (mem st1) a = live (mem st) a) ∧
    (∀ i c a, (i < j)%nat → cols !! i = Some c → buffer c = Some a →
       live (mem st1) a = None) ∧
    (∀ a, (∀ i c, cols !! i = Some c → buffer c ≠ Some a) →
       live (mem st1) a = live (mem st) a)).
  destruct (for_range_inv I free_column n 0 st) as (st1 & Hloop & HI1).
  { unfold I. split_and!; try done; [|lia]. by exists cols. }
  { intros j st1 Hj (Hs & Hk & Hm & Hlm & (cols1 & Hcols1 & Hl1 & Hsame) & Hlive & Hfreed & Hother).
    destruct (lookup_lt_is_Some_2 cols j) as [c Hc]; [lia|].
    destruct (lookup_lt_is_Some_2 bs j) as [b Hb]; [lia|].
    destruct (slot_live _ _ _ _ (Hslots _ _ _ Hc Hb)) as (a & blk & Ha & Hblk & _).
    rewrite Z.add_0_l.
    erewrite free_column_eq;
      [|done|by rewrite Hsame|done|by erewrite Hlive].
    eexists. split; [done|]. unfold I. norm.
    split_and!; try done.
    - by rewrite length_insert.
    - eexists. split_and!; [done|by rewrite length_insert|].
      intros i Hi. rewrite list_lookup_insert_ne by lia. apply Hsame. lia.
    - intros i c' a' Hi Hc' Ha'.
      rewrite live_insert_ne; [apply (Hlive i c' a'); [lia|done|done]|].
      intros <-. assert (j = i); [|lia].
      eapply Hdist; [done..|]. by rewrite Ha, Ha'.
    - intros i c' a' Hi Hc' Ha'. destruct (decide (i = j)) as [->|Hne].
      + simplify_eq. apply live_insert_eq. rewrite Hlm. by eapply live_lt.
      + destruct (decide (a = a')) as [<-|Hna].
        * apply live_insert_eq. rewrite Hlm. by eapply live_lt.
        * rewrite live_insert_ne by done. apply (Hfreed i c' a'); [lia|done|done].
    - intros a' Ha'. rewrite live_insert_ne; [by apply Hother|].
      intros <-. by eapply Ha'. }
  destruct HI1 as (Hs & Hk & Hm & Hlm & _ & _ & Hfreed & Hother).
  exists (mem st1). split_and!; [|done| |done].
  - unfold MysqlResultSet_free, free_body.
    erewrite bind_Ok by reflexivity.
    erewrite bind_Ok by exact Hloop.
    rewrite free_rest_eq by done. by rewrite Hs.
  - intros i c a Hc Ha. eapply Hfreed; eauto.
    fold n in Hlc. rewrite <- Hlc. by eapply lookup_lt_Some.
Qed.

(** Teardown of a cursor without tables: with a positive column count
    the loop reads [columns[0]] of the [NULL] array. *)
Lemma free_no_tables st :
  columns (R st) = None →
  MysqlResultSet_free st =
    if columnCount (R st) <=? 0
    then Ok tt (mem st, released (R st) (stmt st))
    else Undefined.
Proof.
  intros Hcols. unfold MysqlResultSet_free, free_body.
  erewrite bind_Ok by reflexivity.
  destruct (Z.leb_spec (columnCount (R st)) 0) as [Hle|Hpos].
  - replace (Z.to_nat (columnCount (R st))) with 0%nat by lia.
    erewrite bind_Ok by reflexivity. by rewrite free_rest_eq.
  - destruct (Z.to_nat (columnCount (R st))) as [|n] eqn:Hn; [lia|].
    cbn [for_range].
    erewrite bind_Undefined; [done|].
    erewrite bind_Undefined; [done|].
    unfold free_column. erewrite bind_Undefined; [done|].
    by apply column_at_null.
Qed.

Lemma released_log r s :
  log (released r s) =
    match meta r with Some _ => [call_free_meta] | None => [] end ++
    (if keep r =? 0 then [call_close] else []) ++
    call_free_result :: log s.
Proof. unfold released. by destruct (meta r), (keep r =? 0). Qed.

(** Teardown of a reachable cursor that has its tables returns, leaves
    no column buffer allocated, and closes the statement exactly when
    [keep] is 0. *)
Lemma teardown_of_reachable st cols :
  reachable st → columns (R st) = Some cols →
  ∃ m', MysqlResultSet_free st = Ok tt (m', released (R st) (stmt st)) ∧
    (∀ i c a, cols !! i = Some c → buffer c = Some a → live m' a = None) ∧
    (call_close ∈ log (released (R st) (stmt st)) ↔
       keep (R st) = 0 ∨ call_close ∈ log (stmt st)).
Proof.
  intros Hreach Hcols. apply reachable_Inv in Hreach as HI.
  pose proof HI as [Ht _ _ _ _ _]. rewrite Hcols in Ht.
  destruct (bind (R st)) as [bs|] eqn:Hbs; [|done].
  destruct (free_tables _ _ _ Ht Hcols) as (m' & Hfree & _ & Hfreed & _).
  exists m'. split_and!; [done..|].
  rewrite released_log.
  destruct (meta (R st)), (Z.eqb_spec (keep (R st)) 0); simpl;
    rewrite ?elem_of_cons; intuition congruence.
Qed.

(* ------------------------------------------------------------------ *)
(** ** Sample statements *)

Lemma sample_executed rows script :
  Forall row_ok rows → executed (sample_stmt rows script).
Proof. intros H. split; simpl; [done|lia|done]. Qed.

Lemma sample_rows_ok : Forall row_ok sample_rows.
Proof.
  repeat constructor; unfold value_ok, long_value, LONG_MAX;
    rewrite ?length_replicate; simpl; lia.
Qed.

(* ------------------------------------------------------------------ *)
(** ** Construction never raises (C8) *)

Lemma faulty_logged c s : faulty (logged c s) = faulty s.
Proof. unfold faulty, take_fault, logged. simpl. by destruct (faults s). Qed.

(** C8. [MysqlResultSet_new] always returns a cursor.  With no column or
    no metadata the cursor is stopped and [MysqlResultSet_next] returns
    false at once.  When the registration of the bind table fails the
    cursor is stopped too, is still returned, and
    [MysqlResultSet_free] closes it.  When the registration succeeds the
    cursor is not stopped, whether or not [mysql_stmt_store_result]
    fails; its failure only leaves the error code in [lastError]. *)
Theorem new_never_raises s maxRows keep m :
  executed s →
  ∃ st, MysqlResultSet_new s maxRows keep m = Ok tt st ∧
    (to_int (mysql_stmt_field_count s) ≤ 0 ∨ metadata s = None →
       stop (R st) = true ∧ MysqlResultSet_next st = Ok false st) ∧
    (0 < to_int (mysql_stmt_field_count s) → is_Some (metadata s) →
       (faulty s = true →
          stop (R st) = true ∧ MysqlResultSet_next st = Ok false st ∧
          ∃ w, MysqlResultSet_free st = Ok tt w) ∧
       (faulty s = false → stop (R st) = false) ∧
       (∀ script, faults s = false :: true :: script →
          stop (R st) = false ∧ lastError (R st) = 1)).
Proof.
  intros Hexec. exists (new_state s maxRows keep m).
  split; [apply new_eq|].
  pose proof (new_Inv s maxRows keep m Hexec) as HI.
  unfold new_state in *.
  destruct (Z.leb_spec (to_int (mysql_stmt_field_count s)) 0) as [Hle|Hpos].
  { split; [|lia]. intros _. split; [done|]. by apply next_stopped. }
  destruct (metadata s) as [fields|] eqn:Hmeta.
  2:{ split; [|by intros _ []]. intros _. split; [done|]. by apply next_stopped. }
  split; [intros [?|?]; [lia|done]|]. intros _ _.
  rewrite bind_result_eq, faulty_logged in *.
  destruct (faulty s) eqn:Hfault; rewrite store_result_eq in *; norm.
  - split_and!; [|done|].
    + intros _. split_and!; [done|by apply next_stopped|].
      pose proof HI as [Ht _ _ _ _ _]. norm_in Ht.
      destruct (free_tables _ _ _ Ht eq_refl) as (m' & Hfree & _).
      eauto.
    + intros script Hs. unfold faulty, take_fault in Hfault.
      by rewrite Hs in Hfault.
  - split_and!; [done|done|].
    intros script Hs. split; [done|].
    unfold faulty, called, take_fault, logged, set_bound. simpl. by rewrite Hs.
Qed.

Lemma new_never_raises_witness :
  ∃ st, MysqlResultSet_new (sample_stmt sample_rows [false; true]) 0 0 [] = Ok tt st ∧
    stop (R st) = false ∧ lastError (R st) = 1.
Proof.
  destruct (new_never_raises (sample_stmt sample_rows [false; true]) 0 0 []
              (sample_executed _ _ sample_rows_ok))
    as (st & Hnew & _ & H).
  exists st. split; [exact Hnew|].
  destruct H as (_ & _ & Hstore); [vm_compute; reflexivity|by eexists|].
  exact (Hstore [] eq_refl).
Defined.

(* ------------------------------------------------------------------ *)
(** ** Teardown after a failed construction (C9) *)

(** C9, at the failing input.  When the statement reports a positive
    column count and no metadata, [MysqlResultSet_new] leaves
    [columnCount] positive and [columns] NULL, and the loop of
    [MysqlResultSet_free] reads [columns[0].buffer]: teardown of this
    cursor has no defined behaviour. *)
Theorem free_after_failed_metadata s maxRows keep m :
  0 < to_int (mysql_stmt_field_count s) → metadata s = None →
  ∃ st, MysqlResultSet_new s maxRows keep m = Ok tt st ∧
    columns (R st) = None ∧ 0 < columnCount (R st) ∧
    MysqlResultSet_free st = Undefined.
Proof.
  intros Hpos Hmeta. exists (new_state s maxRows keep m).
  split; [apply new_eq|]. unfold new_state.
  destruct (Z.leb_spec (to_int (mysql_stmt_field_count s)) 0) as [Hle|_]; [lia|].
  rewrite Hmeta. split_and!; [done..|].
  rewrite free_no_tables by done. norm.
  by destruct (Z.leb_spec (to_int (mysql_stmt_field_count s)) 0); [lia|].
Qed.

Lemma free_after_failed_metadata_witness :
  ∃ st, MysqlResultSet_new no_metadata_stmt 0 0 [] = Ok tt st ∧
    columns (R st) = None ∧ 0 < columnCount (R st) ∧
    MysqlResultSet_free st = Undefined.
Proof.
  apply (free_after_failed_metadata no_metadata_stmt 0 0 []);
    [vm_compute; reflexivity|reflexivity].
Defined.

(* ------------------------------------------------------------------ *)
(** ** Column indexes out of range (C4) *)

Lemma sample_cursor_reachable : reachable sample_cursor.
Proof. apply reach_new, sample_executed, sample_rows_ok. Qed.

(** C4, at the failing inputs.  On a cursor with three columns,
    [MysqlResultSet_getColumnName] returns NULL for index 0 without
    raising, and for index 4 ([columnCount + 1]) passes its range check
    ([columnIndex > R->columnCount] after the decrement) and reads
    [columns[3]], past the end of the array.  The accessors that go
    through [checkAndSetColumnIndex] raise for both. *)
Theorem getColumnName_out_of_range :
  columnCount (R sample_cursor) = 3 ∧
  MysqlResultSet_getColumnName 0 sample_cursor = Ok None sample_cursor ∧
  MysqlResultSet_getColumnName 4 sample_cursor = Undefined ∧
  MysqlResultSet_isnull 0 sample_cursor = Throw IndexError sample_cursor ∧
  MysqlResultSet_isnull 4 sample_cursor = Throw IndexError sample_cursor.
Proof. vm_compute. by split_and!. Qed.

(** The range check of [MysqlResultSet_getColumnName] on any cursor that
    has its columns: index 0 gives NULL, index [columnCount + 1] reads
    past the end of the column array. *)
Lemma getColumnName_past_the_end st cols :
  columns (R st) = Some cols →
  length cols = Z.to_nat (columnCount (R st)) →
  0 < columnCount (R st) < INT_MAX →
  MysqlResultSet_getColumnName 0 st = Ok None st ∧
  MysqlResultSet_getColumnName (columnCount (R st) + 1) st = Undefined.
Proof.
  intros Hcols Hlen Hcc. unfold INT_MAX in Hcc.
  unfold MysqlResultSet_getColumnName. split.
  - erewrite bind_Ok by reflexivity.
    replace (to_int (0 - 1)) with (-1) by done.
    destruct (columnCount (R st) <=? 0); [done|]. simpl. done.
  - erewrite bind_Ok by reflexivity.
    replace (columnCount (R st) + 1 - 1) with (columnCount (R st)) by lia.
    rewrite to_int_small by lia.
    destruct (Z.leb_spec (columnCount (R st)) 0); [lia|].
    destruct (Z.ltb_spec (columnCount (R st)) 0); [lia|].
    destruct (Z.ltb_spec (columnCount (R st)) (columnCount (R st))); [lia|].
    cbn [orb].
    erewrite bind_Undefined; [done|].
    unfold column_at. erewrite bind_Ok by reflexivity.
    unfold at_index. rewrite Hcols. simpl.
    destruct (Z.ltb_spec (columnCount (R st)) 0); [lia|].
    by rewrite lookup_ge_None_2 by lia.
Qed.

(* ------------------------------------------------------------------ *)
(** ** Reading the columns of the current row *)

(** The column a valid index names, when a row is current. *)
Lemma current_column st idx r v :
  Inv st → current (stmt st) = Some r →
  1 ≤ idx ≤ columnCount (R st) → r !! slot idx = Some v →
  ∃ cols bs c b,
    columns (R st) = Some cols ∧ bind (R st) = Some bs ∧
    cols !! slot idx = Some c ∧ bs !! slot idx = Some b ∧
    in_sync v c ∧ slot_ok (mem st) (slot idx) c b ∧
    column_value (stmt st) (slot idx) = if faulty (stmt st) then None else Some v.
Proof.
  intros HI Hr Hidx Hv. pose proof HI as [Ht _ Hrow Hcur _ _].
  destruct (columns (R st)) as [cols|] eqn:Hcols.
  2:{ rewrite Hcur in Hr; done. }
  destruct (bind (R st)) as [bs|] eqn:Hbs; [|done].
  destruct Ht as [Hlc Hlb Hcount Hslots _].
  destruct (slot_lookup cols idx _ Hidx Hlc) as [c Hc].
  destruct (slot_lookup bs idx _ Hidx Hlb) as [b Hb].
  exists cols, bs, c, b. split_and!; try done; [by eapply Hrow|by eapply Hslots|].
  unfold column_value. destruct (faulty (stmt st)); [done|].
  rewrite Hr. simpl. rewrite <- Hcount.
  destruct (Z.leb_spec (columnCount (R st)) (Z.of_nat (slot idx))); [|done].
  unfold slot in *. lia.
Qed.

(** C7. For a valid index, [MysqlResultSet_getColumnSize] returns 0 when
    the value of the current row in that column is NULL and the length
    of the value otherwise, whatever the capacity of the buffer: the
    size is never below the number of bytes the engine delivers for the
    value, also when the buffer was too small for it. *)
Theorem getColumnSize_true_length st idx r v :
  reachable st → current (stmt st) = Some r →
  1 ≤ idx ≤ columnCount (R st) → r !! slot idx = Some v →
  ∃ size, MysqlResultSet_getColumnSize idx st = Ok size st ∧
    size = match v with
           | None => 0
           | Some d => Z.of_nat (length d)
           end ∧
    ∀ b, Z.of_nat (length (delivered_bytes b v 0)) ≤ size.
Proof.
  intros Hreach Hr Hidx Hv. apply reachable_Inv in Hreach as HI.
  destruct (current_column _ _ _ _ HI Hr Hidx Hv)
    as (cols & bs & c & b & Hcols & Hbs & Hc & Hb & Hsync & Hslot & _).
  destruct Hslot as [_ _ _ _ _ _ Hrl].
  assert (MysqlResultSet_getColumnSize idx st =
            Ok (if is_null c then 0 else real_length c) st) as ->.
  { unfold MysqlResultSet_getColumnSize.
    erewrite bind_Ok by reflexivity.
    erewrite bind_Ok by (by apply check_index_in).
    rewrite <- slot_eq by lia.
    erewrite bind_Ok by (by eapply column_at_eq).
    destruct (is_null c); [done|]. by rewrite to_long_small. }
  eexists. split; [reflexivity|].
  destruct v as [d|]; simpl in *.
  - destruct Hsync as [-> ->]. split; [done|].
    intros b'. rewrite length_take, length_drop. lia.
  - by rewrite Hsync.
Qed.

Lemma getColumnSize_true_length_witness :
  let st := state_of (MysqlResultSet_next sample_cursor) sample_cursor in
  ∃ size, MysqlResultSet_getColumnSize 2 st = Ok size st ∧
    size = 500 ∧
    ∀ b, Z.of_nat (length (delivered_bytes b (Some long_value) 0)) ≤ size.
Proof.
  intros st.
  assert (reachable st) as Hreach.
  { apply (reach_next sample_cursor); [apply sample_cursor_reachable|].
    vm_compute. reflexivity. }
  apply (getColumnSize_true_length st 2 [Some ["1"%byte]; Some long_value; None]
           (Some long_value) Hreach);
    [reflexivity|vm_compute; split; discriminate|reflexivity].
Defined.

(** In every reachable state and for a valid index: when the value of
    the current row in that column is NULL, [getString] and [getBlob]
    return NULL and leave the state as it is.  When it is not NULL they
    return the column's buffer, never NULL; the one other outcome is the
    exception of a failed re-fetch of a truncated column.  What the
    buffer holds is the subject of the theorems that follow and of the
    section on the values read. *)
Lemma null_reads_absent st idx r v :
  reachable st → current (stmt st) = Some r →
  1 ≤ idx ≤ columnCount (R st) → r !! slot idx = Some v →
  match v with
  | None =>
      MysqlResultSet_getString idx st = Ok None st ∧
      MysqlResultSet_getBlob idx st = Ok (None, None) st
  | Some d =>
      ((∃ a st', MysqlResultSet_getString idx st = Ok (Some a) st') ∨
       (faulty (stmt st) = true ∧
        ∃ st', MysqlResultSet_getString idx st =
                 Throw (SQLException "mysql_stmt_fetch_column -- %s"
                                     (errtext (stmt st))) st')) ∧
      ((∃ a st', MysqlResultSet_getBlob idx st =
                   Ok (Some a, Some (to_int (Z.of_nat (length d)))) st') ∨
       (faulty (stmt st) = true ∧
        ∃ st', MysqlResultSet_getBlob idx st =
                 Throw (SQLException "mysql_stmt_fetch_column -- %s"
                                     (errtext (stmt st))) st'))
  end.
Proof.
  intros Hreach Hr Hidx Hv. apply reachable_Inv in Hreach as HI.
  destruct (current_column _ _ _ _ HI Hr Hidx Hv)
    as (cols & bs & c & b & Hcols & Hbs & Hc & Hb & Hsync & Hslot & Hval).
  destruct v as [d|]; simpl in Hsync.
  2:{ split; [by eapply getString_null|by eapply getBlob_null]. }
  destruct Hsync as [Hnull Hlen]. split.
  - pose proof (getString_spec _ _ _ _ _ _ HI Hcols Hbs Hidx Hc Hb) as H.
    destruct (MysqlResultSet_getString idx st) as [p st'|e st'|]; [| |done].
    + left. destruct H as (_ & [(Hn & _)|(_ & a & ? & ? & ? & ? & ? & -> & _)]);
        [congruence|eauto].
    + right. destruct H as (_ & _ & _ & Hnone & ->). rewrite Hval in Hnone.
      destruct (faulty (stmt st)); [eauto|done].
  - pose proof (getBlob_spec _ _ _ _ _ _ HI Hcols Hbs Hidx Hc Hb) as H.
    destruct (MysqlResultSet_getBlob idx st) as [p st'|e st'|]; [| |done].
    + left. destruct H as (_ & [(Hn & _)|(_ & a & ? & ? & ? & ? & -> & _)]);
        [congruence|]. rewrite Hlen. eauto.
    + right. destruct H as (_ & _ & _ & Hnone & ->). rewrite Hval in Hnone.
      destruct (faulty (stmt st)); [eauto|done].
Qed.

Lemma null_reads_absent_witness :
  let st1 := state_of (MysqlResultSet_next sample_cursor) sample_cursor in
  let st2 := state_of (MysqlResultSet_next st1) st1 in
  MysqlResultSet_getString 2 st2 = Ok None st2 ∧
  MysqlResultSet_getBlob 2 st2 = Ok (None, None) st2.
Proof.
  intros st1 st2.
  assert (reachable st2) as Hreach.
  { apply (reach_next st1);
      [apply (reach_next sample_cursor); [apply sample_cursor_reachable|]|];
      vm_compute; reflexivity. }
  apply (null_reads_absent st2 2 [Some ["2"%byte]; None; Some []] None Hreach);
    [reflexivity|vm_compute; split; discriminate|reflexivity].
Defined.



(* ------------------------------------------------------------------ *)
(** ** Truncated values are read in full (C1) *)

Lemma delivered_whole b (d : list byte) :
  bind_buffer_length b = Z.of_nat (length d) →
  delivered_bytes b (Some d) 0 = d.
Proof.
  intros H. simpl. rewrite H, Nat2Z.id. rewrite drop_0. by apply take_ge.
Qed.

(** The re-fetch of a truncated column of the current row, when the
    engine does not fail. *)
Lemma ensureCapacity_resolves st cols bs (k : nat) c b d :
  Inv st →
  columns (R st) = Some cols → bind (R st) = Some bs →
  cols !! k = Some c → bs !! k = Some b →
  is_null c = false → real_length c = Z.of_nat (length d) →
  bind_buffer_length b < real_length c →
  column_value (stmt st) k = Some (Some d) →
  ∃ st1, _ensureCapacity (Z.of_nat k) st = Ok tt st1 ∧ Inv st1 ∧
    resolved st k d (length (mem st)) st1.
Proof.
  intros HI Hcols Hbs Hc Hb Hnull Hlen Htrunc Hval.
  pose proof (ensureCapacity_Inv _ _ _ _ _ _ HI Hcols Hbs Hc Hb) as Hinv.
  destruct (ensureCapacity_truncated _ _ _ _ _ _ HI Hcols Hbs Hc Hb Htrunc)
    as (a & blk & Ha & Hlive & Hspec).
  cbv zeta in Hspec. rewrite Hval in Hspec.
  destruct Hspec as (m2 & Hm2 & Hview & Hens).
  rewrite Hens in Hinv. destruct Hinv as (HI1 & _ & _).
  eexists. split; [exact Hens|]. split; [exact HI1|].
  pose proof (lookup_lt_Some _ _ _ Hc) as Hlc.
  pose proof (lookup_lt_Some _ _ _ Hb) as Hlb.
  assert (0 ≤ real_length c < LONG_MAX) as Hrl.
  { pose proof (Inv_tables _ _ _ HI Hcols Hbs) as [_ _ _ Hslots _].
    by destruct (Hslots _ _ _ Hc Hb). }
  rewrite delivered_whole in Hview by (simpl; done).
  split; unfold refetched; norm.
  - erewrite memcpy_blen by exact Hm2.
    rewrite blen_grown_new by done. f_equal. lia.
  - done.
  - eexists _, _. split_and!; [done|by apply list_lookup_insert_eq|done|done].
  - eexists _, _. split_and!; [done|by apply list_lookup_insert_eq|done..].
  - done.
  - eexists. rewrite called_log. split_and!; [done|done|done].
Qed.

(** C1. A column of the current row whose value [d] is longer than the
    capacity of its buffer: unless the engine fails the re-fetch,
    [getString] and [getBlob] return a fresh buffer of [|d| + 1] bytes
    that holds the whole of [d] ([getString] with the terminator after
    it), the capacity of the column is now [|d|], and the engine has
    received one call, the fetch of this column alone.  When the engine
    fails the re-fetch both raise. *)
Theorem truncated_value_read_in_full st idx r d bs b :
  reachable st → current (stmt st) = Some r →
  1 ≤ idx ≤ columnCount (R st) → r !! slot idx = Some (Some d) →
  bind (R st) = Some bs → bs !! slot idx = Some b →
  bind_buffer_length b < Z.of_nat (length d) →
  let a := length (mem st) in
  let failure :=
    SQLException "mysql_stmt_fetch_column -- %s" (errtext (stmt st)) in
  if faulty (stmt st) then
    (∃ st', MysqlResultSet_getString idx st = Throw failure st') ∧
    (∃ st', MysqlResultSet_getBlob idx st = Throw failure st')
  else
    (∃ st', MysqlResultSet_getString idx st = Ok (Some a) st' ∧
       resolved st (slot idx) d a st' ∧
       peek (mem st') (Some a) (length d) = Some x00) ∧
    (∃ st', MysqlResultSet_getBlob idx st =
              Ok (Some a, Some (to_int (Z.of_nat (length d)))) st' ∧
       resolved st (slot idx) d a st').
Proof.
  intros Hreach Hr Hidx Hv Hbs Hb Htrunc a failure.
  apply reachable_Inv in Hreach as HI.
  destruct (current_column _ _ _ _ HI Hr Hidx Hv)
    as (cols & bs' & c & b' & Hcols & Hbs' & Hc & Hb' & [Hnull Hlen] & Hslot & Hval).
  rewrite Hbs in Hbs'. simplify_eq. rewrite <- Hlen in Htrunc.
  rewrite (getString_nonnull _ _ _ _ Hcols Hidx Hc Hnull).
  rewrite (getBlob_nonnull _ _ _ _ Hcols Hidx Hc Hnull).
  destruct (faulty (stmt st)).
  { destruct (ensureCapacity_truncated _ _ _ _ _ _ HI Hcols Hbs Hc Hb Htrunc)
      as (a0 & blk & Ha & Hlive & Hspec).
    cbv zeta in Hspec. rewrite Hval in Hspec.
    split; eexists; erewrite bind_Throw by exact Hspec; reflexivity. }
  destruct (ensureCapacity_resolves _ _ _ _ _ _ _ HI Hcols Hbs Hc Hb Hnull Hlen
              Htrunc Hval) as (st1 & Hens & HI1 & Hres).
  pose proof Hres as [Hsize Hview (bs1 & b1 & Hbs1 & Hb1 & Hbuf1 & Hcap1)
    (cols1 & c1 & Hcols1 & Hc1 & Ha1 & Hrl1 & Hn1) Hflag Hlog].
  split.
  - destruct (terminate_spec _ _ _ _ _ _ HI1 Hcols1 Hbs1 Hc1 Hb1)
      as (a' & m3 & Ha' & Hpoke & Hpeek & Hkeep & Hterm); [lia|].
    rewrite Ha1 in Ha'. simplify_eq. rewrite Hrl1, Nat2Z.id in *.
    eexists. split; [erewrite bind_Ok by exact Hens; exact Hterm|].
    split; [|done].
    split; norm; try done.
    + erewrite poke_blen by exact Hpoke. done.
    + by rewrite Hkeep.
    + eauto 10.
    + eauto 10.
  - eexists. split; [|exact Hres].
    erewrite bind_Ok by exact Hens. unfold blob_view.
    erewrite bind_Ok by (by eapply column_at_eq).
    by rewrite Ha1, Hrl1.
Qed.

Lemma truncated_value_read_in_full_witness :
  let st := state_of (MysqlResultSet_next sample_cursor) sample_cursor in
  (∃ st', MysqlResultSet_getString 2 st = Ok (Some 3%nat) st' ∧
     resolved st 1 long_value 3 st' ∧
     peek (mem st') (Some 3%nat) 500 = Some x00) ∧
  (∃ st', MysqlResultSet_getBlob 2 st = Ok (Some 3%nat, Some 500) st' ∧
     resolved st 1 long_value 3 st').
Proof.
  intros st.
  assert (reachable st) as Hreach.
  { apply (reach_next sample_cursor); [apply sample_cursor_reachable|].
    vm_compute. reflexivity. }
  apply (truncated_value_read_in_full st 2
           [Some ["1"%byte]; Some long_value; None] long_value
           [init_bind 0 0; init_bind 1 1; init_bind 2 2] (init_bind 1 1) Hreach);
    [reflexivity|vm_compute; split; discriminate|reflexivity|reflexivity
    |reflexivity|vm_compute; reflexivity].
Defined.

(* ------------------------------------------------------------------ *)
(** ** The buffers are one byte larger than their capacity (C10) *)

(** The buffers as [MysqlResultSet_new] leaves them: [STRLEN + 1] bytes
    allocated, [STRLEN] given to the engine as the capacity. *)
Lemma new_buffer_sizes s maxRows keep m cols bs i c b :
  columns (R (new_state s maxRows keep m)) = Some cols →
  bind (R (new_state s maxRows keep m)) = Some bs →
  cols !! i = Some c → bs !! i = Some b →
  bind_buffer_length b = STRLEN ∧
  ∃ a, buffer c = Some a ∧ bind_buffer b = Some a ∧
    blen (mem (new_state s maxRows keep m)) a = Some (Z.to_nat (STRLEN + 1)).
Proof.
  unfold new_state.
  destruct (_ <=? 0); [done|]. destruct (metadata s) as [fields|]; [|done].
  rewrite bind_result_eq. destruct (faulty _); rewrite store_result_eq; norm;
    intros [= <-] [= <-] Hc Hb;
    apply lookup_init in Hc as [-> Hi]; apply lookup_init in Hb as [-> _];
    (split; [done|]); eexists; (split_and!; [done|done|by apply blen_fresh]).
Qed.

(** C10. In every reachable state each column and its bind entry share
    a live buffer whose size is the capacity of the entry plus one, and
    the capacity the engine holds for the column is below that size.
    So the terminator [getString] writes at offset [real_length], after
    the truncation was resolved, is inside the buffer: [getString] on a
    cursor with columns has defined behaviour, and the buffer it
    returns holds the terminator at that offset. *)
Theorem buffer_one_byte_larger st :
  reachable st →
  (∀ cols bs i c b,
     columns (R st) = Some cols → bind (R st) = Some bs →
     cols !! i = Some c → bs !! i = Some b →
     ∃ a blk, buffer c = Some a ∧ bind_buffer b = Some a ∧
       live (mem st) a = Some blk ∧
       Z.of_nat (length blk) = bind_buffer_length b + 1 ∧
       ∀ reg br, stop (R st) = false → bound (stmt st) = Some reg →
         reg !! i = Some br → bind_buffer_length br < Z.of_nat (length blk)) ∧
  (∀ idx, is_Some (columns (R st)) →
     MysqlResultSet_getString idx st ≠ Undefined) ∧
  (∀ idx a st', MysqlResultSet_getString idx st = Ok (Some a) st' →
     ∃ cols' c' blk, columns (R st') = Some cols' ∧
       cols' !! slot idx = Some c' ∧ buffer c' = Some a ∧
       live (mem st') a = Some blk ∧
       0 ≤ real_length c' < Z.of_nat (length blk) ∧
       blk !! Z.to_nat (real_length c') = Some (Some x00)).
Proof.
  intros Hreach. apply reachable_Inv in Hreach as HI.
  assert (∀ idx,
    (¬ 1 ≤ idx ≤ columnCount (R st) ∧
       MysqlResultSet_getString idx st = Throw IndexError st) ∨
    (columns (R st) = None ∧ MysqlResultSet_getString idx st = Undefined) ∨
    (1 ≤ idx ≤ columnCount (R st) ∧
     ∃ cols bs c b, columns (R st) = Some cols ∧ bind (R st) = Some bs ∧
       cols !! slot idx = Some c ∧ bs !! slot idx = Some b)) as Hcases.
  { intros idx.
    destruct (decide (1 ≤ idx ≤ columnCount (R st))) as [Hidx|Hidx].
    2:{ left. split; [done|]. unfold MysqlResultSet_getString.
        erewrite bind_Ok by reflexivity.
        by erewrite bind_Throw by (by apply check_index_out). }
    right. destruct (columns (R st)) as [cols|] eqn:Hcols.
    2:{ left. split; [done|]. unfold MysqlResultSet_getString.
        erewrite bind_Ok by reflexivity.
        erewrite bind_Ok by (by apply check_index_in).
        by erewrite bind_Undefined by (by apply column_at_null). }
    right. split; [done|].
    destruct (bind (R st)) as [bs|] eqn:Hbs.
    2:{ destruct HI as [Ht _ _ _ _ _]. by rewrite Hcols, Hbs in Ht. }
    pose proof (Inv_tables _ _ _ HI Hcols Hbs) as [Hlc Hlb _ _ _].
    destruct (slot_lookup cols idx _ Hidx Hlc) as [c Hc].
    destruct (slot_lookup bs idx _ Hidx Hlb) as [b Hb].
    by exists cols, bs, c, b. }
  split_and!.
  - intros cols bs i c b Hcols Hbs Hc Hb.
    pose proof (Inv_tables _ _ _ HI Hcols Hbs) as [_ _ _ Hslots _].
    pose proof (Hslots _ _ _ Hc Hb) as Hslot.
    destruct (slot_live _ _ _ _ Hslot) as (a & blk & Ha & Hlive & Hlen).
    destruct Hslot as [_ Hbb Hcap _ _ _ _].
    exists a, blk. split_and!; [done|congruence|done|lia|].
    intros reg br Hstop Hreg Hbr. destruct HI as [_ _ _ _ _ Hbound].
    destruct (Hbound Hstop) as (reg' & Hreg' & _ & _ & Hbelow).
    rewrite Hreg in Hreg'. simplify_eq.
    specialize (Hbelow _ _ _ _ Hbs Hbr Hb). lia.
  - intros idx [cols Hcols].
    destruct (Hcases idx) as [[_ ->]|[[? _]|(Hidx & cols' & bs & c & b & ? & Hbs & Hc & Hb)]];
      [done|congruence|].
    pose proof (getString_spec _ _ _ _ _ _ HI H Hbs Hidx Hc Hb) as Hspec.
    by destruct (MysqlResultSet_getString idx st).
  - intros idx a st' Hget.
    destruct (Hcases idx) as [[_ Heq]|[[_ Heq]|(Hidx & cols & bs & c & b & Hcols & Hbs & Hc & Hb)]];
      [congruence..|].
    pose proof (getString_spec _ _ _ _ _ _ HI Hcols Hbs Hidx Hc Hb) as Hspec.
    rewrite Hget in Hspec.
    destruct Hspec as (HI' & [(_ & ? & _)|(_ & a' & cols' & bs' & c' & b' & blk & Hp
      & Hcols' & Hbs' & Hc' & Hb' & Ha' & Hrl & Hfit & Hlive & Hterm)]); [done|].
    simplify_eq. exists cols', c', blk. rewrite Hrl.
    split_and!; try done.
    + pose proof (Inv_tables _ _ _ HI' Hcols' Hbs') as [_ _ _ Hslots _].
      destruct (Hslots _ _ _ Hc' Hb') as [_ _ _ _ _ _ ?]. lia.
    + apply lookup_lt_Some in Hterm.
      pose proof (Inv_tables _ _ _ HI' Hcols' Hbs') as [_ _ _ Hslots _].
      destruct (Hslots _ _ _ Hc' Hb') as [_ _ _ _ _ _ ?]. lia.
Qed.

Lemma buffer_one_byte_larger_witness :
  let st1 := state_of (MysqlResultSet_next sample_cursor) sample_cursor in
  let st := state_of (MysqlResultSet_getString 2 st1) st1 in
  ∃ a blk, live (mem st) a = Some blk ∧ Z.of_nat (length blk) = 500 + 1.
Proof.
  intros st1 st.
  assert (reachable st) as Hreach.
  { apply (reach_getString st1 2);
      [apply (reach_next sample_cursor); [apply sample_cursor_reachable|]|];
      vm_compute; reflexivity. }
  destruct (buffer_one_byte_larger st Hreach) as (Hsizes & _ & _).
  destruct (Hsizes (default [] (columns (R st))) (default [] (bind (R st))) 1%nat
              (default zero_column (default [] (columns (R st)) !! 1%nat))
              (default zero_bind (default [] (bind (R st)) !! 1%nat)))
    as (a & blk & _ & _ & Hlive & Hlen & _); [vm_compute; reflexivity..|].
  exists a, blk. split; [exact Hlive|]. rewrite Hlen. vm_compute. reflexivity.
Defined.

(* ------------------------------------------------------------------ *)
(** ** What reading a column leaves alone *)

Lemma frame_refl st : frame st st.
Proof. split; auto. Qed.

Lemma frame_set_mem st st' m : frame st st' → frame st (set_mem st' m).
Proof. intros []. split; norm; auto. Qed.

Lemma frame_refetched st cols bs k c b c2 rc m2 flag :
  (needRebind (R st) = true → flag = true) →
  frame st (set_R (refetched st cols bs k c b c2 rc m2)
              (set_needRebind (R (refetched st cols bs k c b c2 rc m2)) flag)).
Proof.
  intros Hflag. unfold refetched. split; norm; autorewrite with stmt; auto.
  right. apply called_faults.
Qed.

Lemma ensureCapacity_frame st cols bs (k : nat) c b :
  Inv st →
  columns (R st) = Some cols → bind (R st) = Some bs →
  cols !! k = Some c → bs !! k = Some b →
  match _ensureCapacity (Z.of_nat k) st with
  | Ok _ st' =>
      frame st st' ∧
      (st' = st ∨ needRebind (R st') = true ∧ is_Some (current (stmt st)))
  | Throw _ st' => frame st st'
  | Undefined => True
  end.
Proof.
  intros HI Hcols Hbs Hc Hb.
  destruct (Z.le_gt_cases (real_length c) (bind_buffer_length b)) as [Hfit|Htrunc].
  { rewrite (ensureCapacity_fits _ _ _ _ _ _ Hcols Hbs Hc Hb Hfit).
    split; [apply frame_refl|by left]. }
  destruct (ensureCapacity_truncated _ _ _ _ _ _ HI Hcols Hbs Hc Hb Htrunc)
    as (a & blk & Ha & Hlive & Hspec).
  cbv zeta in Hspec.
  destruct (column_value (stmt st) k) as [v|] eqn:Hv.
  - destruct Hspec as (m2 & _ & _ & ->). split; [by apply frame_refetched|].
    right. split; [done|]. unfold column_value in Hv.
    destruct (faulty _); [done|]. by destruct (current (stmt st)).
  - rewrite Hspec.
    pose proof (frame_refetched st cols bs k c b
                  (grown_column c (length (mem st))) 1
                  (grown_mem (mem st) a c blk) (needRebind (R st))) as H.
    replace (set_R _ _) with
      (refetched st cols bs k c b (grown_column c (length (mem st))) 1
         (grown_mem (mem st) a c blk)) in H; [by apply H|].
    unfold refetched, set_R. norm. by destruct (R st).
Qed.

(** The three ways a read by column index goes. *)
Lemma index_cases st idx :
  Inv st →
  ¬ 1 ≤ idx ≤ columnCount (R st) ∨
  (1 ≤ idx ≤ columnCount (R st) ∧ columns (R st) = None) ∨
  (1 ≤ idx ≤ columnCount (R st) ∧
   ∃ cols bs c b, columns (R st) = Some cols ∧ bind (R st) = Some bs ∧
     cols !! slot idx = Some c ∧ bs !! slot idx = Some b).
Proof.
  intros HI.
  destruct (decide (1 ≤ idx ≤ columnCount (R st))) as [Hidx|Hidx]; [|by left].
  right. destruct (columns (R st)) as [cols|] eqn:Hcols; [|by left].
  right. split; [done|].
  destruct (bind (R st)) as [bs|] eqn:Hbs.
  2:{ destruct HI as [Ht _ _ _ _ _]. by rewrite Hcols, Hbs in Ht. }
  pose proof (Inv_tables _ _ _ HI Hcols Hbs) as [Hlc Hlb _ _ _].
  destruct (slot_lookup cols idx _ Hidx Hlc) as [c Hc].
  destruct (slot_lookup bs idx _ Hidx Hlb) as [b Hb].
  by exists cols, bs, c, b.
Qed.

Lemma getString_out st idx :
  ¬ 1 ≤ idx ≤ columnCount (R st) →
  MysqlResultSet_getString idx st = Throw IndexError st.
Proof.
  intros Hidx. unfold MysqlResultSet_getString.
  erewrite bind_Ok by reflexivity.
  by erewrite bind_Throw by (by apply check_index_out).
Qed.

Lemma getBlob_out st idx :
  ¬ 1 ≤ idx ≤ columnCount (R st) →
  MysqlResultSet_getBlob idx st = Throw IndexError st.
Proof.
  intros Hidx. unfold MysqlResultSet_getBlob.
  erewrite bind_Ok by reflexivity.
  by erewrite bind_Throw by (by apply check_index_out).
Qed.

Lemma getString_frame st idx :
  Inv st →
  match MysqlResultSet_getString idx st with
  | Ok _ st' =>
      frame st st' ∧
      ((R st' = R st ∧ stmt st' = stmt st) ∨
       needRebind (R st') = true ∧ is_Some (current (stmt st)))
  | Throw _ st' => frame st st'
  | Undefined => True
  end.
Proof.
  intros HI.
  destruct (index_cases st idx HI)
    as [Hidx|[[Hidx Hnone]|(Hidx & cols & bs & c & b & Hcols & Hbs & Hc & Hb)]].
  - rewrite getString_out by done. apply frame_refl.
  - unfold MysqlResultSet_getString.
    erewrite bind_Ok by reflexivity.
    erewrite bind_Ok by (by apply check_index_in).
    by erewrite bind_Undefined by (by apply column_at_null).
  - destruct (is_null c) eqn:Hnull.
    { erewrite getString_null by done. split; [apply frame_refl|by left]. }
    erewrite getString_nonnull by done.
    pose proof (ensureCapacity_Inv _ _ _ _ _ _ HI Hcols Hbs Hc Hb) as Hens.
    pose proof (ensureCapacity_frame _ _ _ _ _ _ HI Hcols Hbs Hc Hb) as Hfr.
    unfold mbind at 1, M_bind at 1.
    destruct (_ensureCapacity _ st) as [[] st1|e st1|]; [|done..].
    destruct Hens as (HI1 & _ & cols' & bs' & c' & b' & Hcols' & Hbs' & Hc' & Hb' & Hrl & Hfit).
    destruct (terminate_spec _ _ _ _ _ _ HI1 Hcols' Hbs' Hc' Hb' Hfit)
      as (a & m2 & _ & _ & _ & _ & ->).
    destruct Hfr as [Hfr Hsame]. split; [by apply frame_set_mem|].
    norm. destruct Hsame as [->|?]; auto.
Qed.

Lemma getBlob_frame st idx :
  Inv st →
  match MysqlResultSet_getBlob idx st with
  | Ok _ st' =>
      frame st st' ∧
      ((R st' = R st ∧ stmt st' = stmt st) ∨
       needRebind (R st') = true ∧ is_Some (current (stmt st)))
  | Throw _ st' => frame st st'
  | Undefined => True
  end.
Proof.
  intros HI.
  destruct (index_cases st idx HI)
    as [Hidx|[[Hidx Hnone]|(Hidx & cols & bs & c & b & Hcols & Hbs & Hc & Hb)]].
  - rewrite getBlob_out by done. apply frame_refl.
  - unfold MysqlResultSet_getBlob.
    erewrite bind_Ok by reflexivity.
    erewrite bind_Ok by (by apply check_index_in).
    by erewrite bind_Undefined by (by apply column_at_null).
  - destruct (is_null c) eqn:Hnull.
    { erewrite getBlob_null by done. split; [apply frame_refl|by left]. }
    erewrite getBlob_nonnull by done.
    pose proof (ensureCapacity_Inv _ _ _ _ _ _ HI Hcols Hbs Hc Hb) as Hens.
    pose proof (ensureCapacity_frame _ _ _ _ _ _ HI Hcols Hbs Hc Hb) as Hfr.
    unfold mbind at 1, M_bind at 1.
    destruct (_ensureCapacity _ st) as [[] st1|e st1|]; [|done..].
    destruct Hens as (HI1 & _ & cols' & bs' & c' & b' & Hcols' & Hbs' & Hc' & Hb' & Hrl & Hfit).
    unfold blob_view.
    erewrite bind_Ok by (by eapply column_at_eq).
    destruct Hfr as [Hfr Hsame]. split; [done|].
    destruct Hsame as [->|?]; auto.
Qed.

(* ------------------------------------------------------------------ *)
(** ** The end of the rows and the stop flag (C5) *)

(** C5 as stated fails.  On a result without rows the first
    [MysqlResultSet_next] gets [MYSQL_NO_DATA] and returns false, but
    leaves [stop] clear; the second call is no no-op: it calls
    [mysql_stmt_fetch] again. *)
Lemma no_data_does_not_stop :
  let st1 := state_of (MysqlResultSet_next empty_cursor) empty_cursor in
  let st2 := state_of (MysqlResultSet_next st1) st1 in
  MysqlResultSet_next empty_cursor = Ok false st1 ∧
  lastError (R st1) = MYSQL_NO_DATA ∧
  stop (R st1) ≠ true ∧
  MysqlResultSet_next st1 = Ok false st2 ∧
  log (stmt st2) = call_fetch :: log (stmt st1) ∧
  st2 ≠ st1.
Proof. vm_compute. split_and!; try done. Qed.

Lemma next_no_data st :
  stop (R st) = false → limit_reached (R st) = false →
  (needRebind (R st) = true → is_Some (bind (R st))) →
  faults (stmt st) = [] → pending (stmt st) = [] →
  ∃ st', MysqlResultSet_next st = Ok false st' ∧
    stop (R st') = false ∧ lastError (R st') = MYSQL_NO_DATA ∧
    maxRows (R st') = maxRows (R st) ∧
    columns (R st') = columns (R st) ∧ bind (R st') = bind (R st) ∧
    mem st' = mem st ∧
    faults (stmt st') = [] ∧ pending (stmt st') = [] ∧
    current (stmt st') = None ∧
    ∃ l, log (stmt st') = call_fetch :: l.
Proof.
  intros Hstop Hlim Hbind Hfaults Hpend.
  assert (faulty (stmt st) = false) as Hfault.
  { unfold faulty, take_fault. by rewrite Hfaults. }
  rewrite next_fetches by auto.
  rewrite fetch_row_eq, fetch_eq.
  assert (faulty (stmt (before_fetch st)) = false ∧
          pending (stmt (before_fetch st)) = []) as [-> ->].
  { unfold before_fetch. rewrite needRebind_counted.
    destruct (needRebind (R st)); norm.
    - unfold faulty, take_fault. norm. rewrite called_faults, called_pending.
      by rewrite Hfaults, Hpend.
    - done. }
  eexists. split; [reflexivity|]. unfold fetched, before_fetch.
  rewrite needRebind_counted.
  destruct (needRebind (R st)); norm;
    rewrite ?columns_counted, ?bind_counted, ?stop_counted, ?maxRows_counted;
    destruct (columns (R st)) eqn:Hcols; norm;
    rewrite ?columns_counted, ?bind_counted, ?stop_counted, ?maxRows_counted;
    autorewrite with stmt; norm; autorewrite with stmt;
    rewrite ?called_faults; norm; rewrite ?called_faults, ?Hfaults;
    split_and!; eauto.
Qed.

(** C5 as amended.  When the engine reports no more rows,
    [MysqlResultSet_next] returns false and leaves [stop] clear; the
    statement stays without rows, so the next call asks the engine
    again.  Once [stop] is set, [MysqlResultSet_next] returns false
    without calling the engine or changing the state, and reading
    columns never clears the flag. *)
Theorem stop_is_terminal st :
  reachable st →
  (stop (R st) = false → limit_reached (R st) = false →
   faults (stmt st) = [] → pending (stmt st) = [] →
   ∃ st', MysqlResultSet_next st = Ok false st' ∧
     stop (R st') = false ∧ lastError (R st') = MYSQL_NO_DATA ∧
     faults (stmt st') = [] ∧ pending (stmt st') = [] ∧
     ∃ l, log (stmt st') = call_fetch :: l) ∧
  (stop (R st) = true →
   MysqlResultSet_next st = Ok false st ∧
   ∀ idx st',
     after (MysqlResultSet_getString idx st) st' ∨
     after (MysqlResultSet_getBlob idx st) st' →
     stop (R st') = true).
Proof.
  intros Hreach. apply reachable_Inv in Hreach as HI. split.
  - intros Hstop Hlim Hfaults Hpend.
    destruct (next_no_data st Hstop Hlim) as (st' & Hnext & H); try done.
    { intros _. destruct HI as [Ht _ _ _ _ _].
      destruct (columns (R st)), (bind (R st)); try done. congruence. }
    exists st'. destruct H as (? & ? & _ & _ & _ & _ & ? & ? & _ & ?).
    by split_and!.
  - intros Hstop. split; [by apply next_stopped|].
    intros idx st' [Hafter|Hafter].
    + pose proof (getString_frame st idx HI) as Hfr.
      destruct (MysqlResultSet_getString idx st); simpl in Hafter; [..|done];
        subst; [destruct Hfr as [[] _]|destruct Hfr]; congruence.
    + pose proof (getBlob_frame st idx HI) as Hfr.
      destruct (MysqlResultSet_getBlob idx st); simpl in Hafter; [..|done];
        subst; [destruct Hfr as [[] _]|destruct Hfr]; congruence.
Qed.

Lemma stop_is_terminal_witness :
  ∃ st', MysqlResultSet_next empty_cursor = Ok false st' ∧
    stop (R st') = false ∧ lastError (R st') = MYSQL_NO_DATA ∧
    faults (stmt st') = [] ∧ pending (stmt st') = [] ∧
    ∃ l, log (stmt st') = call_fetch :: l.
Proof.
  assert (reachable empty_cursor) as Hreach.
  { apply reach_new, sample_executed. constructor. }
  destruct (stop_is_terminal empty_cursor Hreach) as [Hnodata _].
  apply Hnodata; reflexivity.
Defined.

(* ------------------------------------------------------------------ *)
(** ** The rebind flag (C3) *)

(** On the path without failure the flag does its work: with the flag
    set, [MysqlResultSet_next] registers the table before it fetches and
    clears the flag, or raises when the registration fails. *)
Lemma rebind_precedes_fetch st bs :
  stop (R st) = false → limit_reached (R st) = false →
  needRebind (R st) = true → bind (R st) = Some bs →
  if faulty (stmt st) then
    ∃ st', MysqlResultSet_next st =
      Throw (SQLException "mysql_stmt_bind_result -- %s" (errtext (stmt st))) st'
  else
    ∃ st1, MysqlResultSet_next st = fetch_row st1 ∧
      needRebind (R st1) = false ∧ bound (stmt st1) = Some bs ∧
      bind (R st1) = Some bs ∧
      log (stmt st1) = call_bind_result bs :: log (stmt st).
Proof.
  intros Hstop Hlim Hneed Hbs. destruct (faulty (stmt st)) eqn:Hfault.
  - eexists. by apply next_rebind_fails.
  - exists (before_fetch st). split; [apply next_fetches; rewrite ?Hbs; eauto|].
    unfold before_fetch. rewrite needRebind_counted, Hneed. norm.
    rewrite bind_counted, Hbs. by autorewrite with stmt.
Qed.

(** C3, at the failing inputs.  [_ensureCapacity] resizes the buffer and
    updates the bind entry before it calls the engine, and sets
    [needRebind] only after the call returned 0.  When the re-fetch
    fails, the buffer of column 2 has moved (capacity 500 at a fresh
    address, the old block released) while the engine still holds the
    old entry, and [needRebind] is clear: the next
    [MysqlResultSet_next] fetches without registering the table, and
    the engine writes the next row through the released buffer.  The
    same happens without any fault of the engine when the column is
    read after the rows ended. *)
Theorem resize_without_rebind_flag :
  (let st1 := state_of (MysqlResultSet_next refetch_fails_cursor) refetch_fails_cursor in
   let st2 := state_of (MysqlResultSet_getString 2 st1) st1 in
   MysqlResultSet_next refetch_fails_cursor = Ok true st1 ∧
   MysqlResultSet_getString 2 st1 =
     Throw (SQLException "mysql_stmt_fetch_column -- %s" "server has gone away") st2 ∧
   entry (bind (R st1)) 1 = Some (init_bind 1 1) ∧
   (bind_buffer_length <$> entry (bind (R st2)) 1) = Some 500 ∧
   (bind_buffer <$> entry (bind (R st2)) 1) = Some (Some 3%nat) ∧
   live (mem st2) 1 = None ∧
   entry (bound (stmt st2)) 1 = Some (init_bind 1 1) ∧
   needRebind (R st2) = false ∧
   MysqlResultSet_next st2 = Undefined) ∧
  (let st1 := state_of (MysqlResultSet_next one_row_cursor) one_row_cursor in
   let st2 := state_of (MysqlResultSet_next st1) st1 in
   let st3 := state_of (MysqlResultSet_getString 2 st2) st2 in
   MysqlResultSet_next one_row_cursor = Ok true st1 ∧
   MysqlResultSet_next st1 = Ok false st2 ∧
   MysqlResultSet_getString 2 st2 =
     Throw (SQLException "mysql_stmt_fetch_column -- %s" "server has gone away") st3 ∧
   (bind_buffer_length <$> entry (bind (R st3)) 1) = Some 500 ∧
   live (mem st3) 1 = None ∧
   entry (bound (stmt st3)) 1 = Some (init_bind 1 1) ∧
   needRebind (R st3) = false).
Proof. vm_compute. split_and!; reflexivity. Qed.

(* ------------------------------------------------------------------ *)
(** ** The number of rows delivered (C2) *)

Lemma faults_frame st st' :
  frame st st' → faults (stmt st) = [] → faults (stmt st') = [].
Proof. intros [] H. destruct frame_faults0 as [->| ->]; by rewrite H. Qed.

Lemma drained_frame st st' :
  drained st → Inv st' → frame st st' → drained st'.
Proof.
  intros [HI Hf Hrows Hcols] HI' Hfr. split; [done|by eapply faults_frame| |].
  - destruct Hfr. by rewrite frame_stop0, frame_pending0.
  - destruct Hfr. auto.
Qed.

Lemma ready_tables L rows j last st :
  ready L rows j last st →
  ∃ cols bs, columns (R st) = Some cols ∧ bind (R st) = Some bs ∧
    tables_ok st cols bs.
Proof.
  intros [HI _ Hstop _ _ _ _ _ _ _]. destruct HI as [Ht _ _ _ _ _].
  destruct (columns (R st)) as [cols|], (bind (R st)) as [bs|]; try done;
    [by eauto|congruence].
Qed.

(** In a ready cursor the re-fetch of a truncated column finds its
    value. *)
Lemma ready_column_value L rows j last st cols bs k c b :
  ready L rows j last st →
  columns (R st) = Some cols → bind (R st) = Some bs →
  cols !! k = Some c → bs !! k = Some b →
  bind_buffer_length b < real_length c →
  is_Some (column_value (stmt st) k).
Proof.
  intros Hready Hcols Hbs Hc Hb Htrunc.
  pose proof Hready as [HI Hf _ _ _ _ _ Hlast Hcur _].
  pose proof (Inv_tables _ _ _ HI Hcols Hbs) as [Hlc _ Hcount _ _].
  unfold column_value, faulty, take_fault. rewrite Hf, Hlast. simpl.
  destruct last as [r|].
  - simpl. apply lookup_lt_Some in Hc as Hk.
    destruct (Z.leb_spec (field_count (stmt st)) (Z.of_nat k)); [lia|].
    apply lookup_lt_is_Some_2. lia.
  - specialize (Hcur _ _ _ _ _ Hcols Hbs Hc Hb). lia.
Qed.

(** Reading columns keeps a cursor ready, and drained. *)
Lemma ready_read L rows j last st st' :
  ready L rows j last st → Inv st' → frame st st' →
  (R st' = R st ∧ stmt st' = stmt st ∨
   needRebind (R st') = true ∧ is_Some (current (stmt st))) →
  ready L rows j last st'.
Proof.
  intros [HI Hf Hstop Hmax Hrow Hpend Hwidth Hlast Hcur Hsync] HI' Hfr Hsame.
  pose proof Hfr as [].
  split; try congruence.
  - by eapply faults_frame.
  - by rewrite frame_columnCount0.
  - rewrite frame_columnCount0.
    destruct last as [r|]; [done|]. rewrite Hlast in Hsame.
    destruct Hsame as [[-> _]|[_ []]]; done.
  - destruct Hsame as [[-> ->]|[? _]]; auto.
Qed.

Lemma ready_getString L rows j last st idx :
  ready L rows j last st →
  match MysqlResultSet_getString idx st with
  | Ok _ st' | Throw _ st' => ready L rows j last st'
  | Undefined => False
  end.
Proof.
  intros Hready. pose proof Hready as [HI _ _ _ _ _ _ _ _ _].
  pose proof (getString_frame st idx HI) as Hfr.
  destruct (index_cases st idx HI)
    as [Hidx|[[Hidx Hnone]|(Hidx & cols & bs & c & b & Hcols & Hbs & Hc & Hb)]].
  - by rewrite getString_out.
  - destruct (ready_tables _ _ _ _ _ Hready) as (? & ? & ? & _). congruence.
  - pose proof (getString_spec _ _ _ _ _ _ HI Hcols Hbs Hidx Hc Hb) as Hspec.
    destruct (MysqlResultSet_getString idx st) as [p st'|e st'|]; [| |done].
    + destruct Hspec as [HI' _], Hfr as [Hfr Hsame]. by eapply ready_read.
    + destruct Hspec as (_ & _ & Htrunc & Hnone & _).
      destruct (ready_column_value _ _ _ _ _ _ _ _ _ _ Hready Hcols Hbs Hc Hb Htrunc)
        as [v Hv]. congruence.
Qed.

Lemma ready_getBlob L rows j last st idx :
  ready L rows j last st →
  match MysqlResultSet_getBlob idx st with
  | Ok _ st' | Throw _ st' => ready L rows j last st'
  | Undefined => False
  end.
Proof.
  intros Hready. pose proof Hready as [HI _ _ _ _ _ _ _ _ _].
  pose proof (getBlob_frame st idx HI) as Hfr.
  destruct (index_cases st idx HI)
    as [Hidx|[[Hidx Hnone]|(Hidx & cols & bs & c & b & Hcols & Hbs & Hc & Hb)]].
  - by rewrite getBlob_out.
  - destruct (ready_tables _ _ _ _ _ Hready) as (? & ? & ? & _). congruence.
  - pose proof (getBlob_spec _ _ _ _ _ _ HI Hcols Hbs Hidx Hc Hb) as Hspec.
    destruct (MysqlResultSet_getBlob idx st) as [p st'|e st'|]; [| |done].
    + destruct Hspec as [HI' _], Hfr as [Hfr Hsame]. by eapply ready_read.
    + destruct Hspec as (_ & _ & Htrunc & Hnone & _).
      destruct (ready_column_value _ _ _ _ _ _ _ _ _ _ Hready Hcols Hbs Hc Hb Htrunc)
        as [v Hv]. congruence.
Qed.

Lemma drained_getString st idx :
  drained st →
  match MysqlResultSet_getString idx st with
  | Ok _ st' | Throw _ st' => drained st'
  | Undefined => False
  end.
Proof.
  intros Hd. pose proof Hd as [HI _ _ [cols0 Hcols0]].
  pose proof (getString_frame st idx HI) as Hfr.
  destruct (index_cases st idx HI)
    as [Hidx|[[Hidx Hnone]|(Hidx & cols & bs & c & b & Hcols & Hbs & Hc & Hb)]].
  - by rewrite getString_out.
  - congruence.
  - pose proof (getString_spec _ _ _ _ _ _ HI Hcols Hbs Hidx Hc Hb) as Hspec.
    destruct (MysqlResultSet_getString idx st) as [p st'|e st'|]; [| |done].
    + destruct Hspec as [HI' _], Hfr as [Hfr _]. by eapply drained_frame.
    + destruct Hspec as [HI' _]. by eapply drained_frame.
Qed.

Lemma drained_getBlob st idx :
  drained st →
  match MysqlResultSet_getBlob idx st with
  | Ok _ st' | Throw _ st' => drained st'
  | Undefined => False
  end.
Proof.
  intros Hd. pose proof Hd as [HI _ _ [cols0 Hcols0]].
  pose proof (getBlob_frame st idx HI) as Hfr.
  destruct (index_cases st idx HI)
    as [Hidx|[[Hidx Hnone]|(Hidx & cols & bs & c & b & Hcols & Hbs & Hc & Hb)]].
  - by rewrite getBlob_out.
  - congruence.
  - pose proof (getBlob_spec _ _ _ _ _ _ HI Hcols Hbs Hidx Hc Hb) as Hspec.
    destruct (MysqlResultSet_getBlob idx st) as [p st'|e st'|]; [| |done].
    + destruct Hspec as [HI' _], Hfr as [Hfr _]. by eapply drained_frame.
    + destruct Hspec as [HI' _]. by eapply drained_frame.
Qed.

Lemma faulty_nil s : faults s = [] → faulty s = false.
Proof. intros H. unfold faulty, take_fault. by rewrite H. Qed.

Lemma limit_reached_spec r :
  maxRows r ≠ 0 → limit_reached r = (maxRows r <=? currentRow r).
Proof.
  intros H. unfold limit_reached. by destruct (Z.eqb_spec (maxRows r) 0).
Qed.

Lemma drained_next st :
  drained st → ∃ st', MysqlResultSet_next st = Ok false st' ∧ drained st'.
Proof.
  intros [HI Hf Hrows Hcols].
  destruct (stop (R st)) eqn:Hstop.
  { exists st. split; [by apply next_stopped|]. split; auto. }
  destruct Hrows as [?|Hpend]; [done|].
  destruct (limit_reached (R st)) eqn:Hlim.
  - eexists. split; [by apply next_limit|].
    split; norm.
    + eapply next_Inv; [exact HI|]. by rewrite next_limit.
    + done.
    + by left.
    + by rewrite columns_counted.
  - assert (is_Some (bind (R st))) as Hbind.
    { destruct HI as [Ht _ _ _ _ _], Hcols as [cols Hcols]. rewrite Hcols in Ht.
      by destruct (bind (R st)). }
    destruct (next_no_data st Hstop Hlim) as (st' & Hnext & H); try done.
    exists st'. split; [done|].
    destruct H as (_ & _ & _ & Hc' & _ & _ & Hf' & Hp' & _).
    split; [|done|by right|by rewrite Hc'].
    eapply next_Inv; [exact HI|]. by rewrite Hnext.
Qed.

(** The state in which a ready cursor calls [mysql_stmt_fetch]. *)
Lemma ready_before_fetch L rows j last st cols bs :
  ready L rows j last st → L ≠ 0 → - 2 ^ 31 ≤ j + 1 < 2 ^ 31 →
  columns (R st) = Some cols → bind (R st) = Some bs →
  let st1 := before_fetch st in
  Inv st1 ∧ stop (R st1) = false ∧ maxRows (R st1) = L ∧
  currentRow (R st1) = j + 1 ∧ columnCount (R st1) = columnCount (R st) ∧
  columns (R st1) = Some cols ∧ bind (R st1) = Some bs ∧ mem st1 = mem st ∧
  faults (stmt st1) = [] ∧ pending (stmt st1) = rows ∧
  bound (stmt st1) = Some bs.
Proof.
  intros [HI Hf Hstop Hmax Hrow Hpend Hwidth Hlast Hcur Hsync] HL Hj Hcols Hbs st1.
  split; [by apply Inv_before_fetch|].
  unfold st1, before_fetch. rewrite needRebind_counted.
  assert (counted (R st) = set_currentRow (R st) (j + 1)) as Hcounted.
  { unfold counted. rewrite Hmax. destruct (Z.eqb_spec L 0); [done|].
    by rewrite Hrow, to_int_small. }
  destruct (needRebind (R st)) eqn:Hneed; rewrite Hcounted; norm;
    autorewrite with stmt; rewrite ?called_faults, ?Hf.
  - by split_and!.
  - destruct Hsync as [?|Hsync]; [done|]. rewrite Hsync. by split_and!.
Qed.

Lemma ready_drained L rows j last st :
  ready L rows j last st → rows = [] → drained st.
Proof.
  intros Hready ->.
  destruct (ready_tables _ _ _ _ _ Hready) as (cols & bs & Hcols & Hbs & Htab).
  destruct Hready. split; [done|done|by right|by rewrite Hcols].
Qed.

(** The fetch of a row by a ready cursor succeeds. *)
Lemma ready_fetch L r rest j last st :
  ready L (r :: rest) j last st → 0 < L ≤ INT_MAX → 0 ≤ j < L →
  ∃ st', MysqlResultSet_next st = Ok true st' ∧
    ready L rest (j + 1) (Some r) st'.
Proof.
  intros Hready HL Hj. unfold INT_MAX in HL.
  destruct (ready_tables _ _ _ _ _ Hready) as (cols & bs & Hcols & Hbs & Htab).
  pose proof Hready as [HI Hf Hstop Hmax Hrow Hpend Hwidth Hlast Hcur Hsync].
  assert (limit_reached (R st) = false) as Hlim.
  { rewrite limit_reached_spec by lia. rewrite Hmax, Hrow.
    destruct (Z.leb_spec L j); [lia|done]. }
  destruct (ready_before_fetch _ _ _ _ _ _ _ Hready ltac:(lia) ltac:(lia) Hcols Hbs)
    as (HI1 & Hstop1 & Hmax1 & Hrow1 & Hcc1 & Hcols1 & Hbs1 & Hmem1 & Hf1 & Hpend1 & Hbound1).
  pose proof (fetch_row_Inv (before_fetch st)) as Hkeep.
  rewrite next_fetches by (rewrite ?Hbs, ?faulty_nil; eauto).
  rewrite fetch_row_eq, fetch_eq in *.
  rewrite faulty_nil, Hpend1, Hbound1, Hcols1, Hmem1 in * by done.
  change (default [] (Some bs)) with bs in *.
  change (default [] (Some cols)) with cols in *.
  destruct Htab as [Hlc Hlb Hcount Hslots Hdist].
  destruct (store_row_defined bs r 0 cols (mem st)) as [[[t cols1] m1] Hstore].
  { by eapply pointers_of_tables. }
  { lia. }
  { intros i b Hb.
    destruct (lookup_lt_is_Some_2 cols i) as [c Hc];
      [rewrite Hlc, <- Hlb; eauto using lookup_lt_Some|].
    destruct (Hslots _ _ _ Hc Hb) as [[a Ha] Hbb Hcap Hsz _ _ _].
    exists a, (Z.to_nat (bind_buffer_length b + 1)).
    split_and!; [congruence|auto|lia|lia]. }
  rewrite Hstore in *. cbn [mbind option_bind] in *.
  set (rc := if t then MYSQL_DATA_TRUNCATED else MYSQL_OK) in *.
  assert ((rc =? 1) = false ∧ (rc =? MYSQL_OK) || (rc =? MYSQL_DATA_TRUNCATED) = true)
    as [Hrc1 Hrc2] by (unfold rc; by destruct t).
  rewrite Hrc1, Hrc2 in *.
  eexists. split; [reflexivity|].
  apply Forall_cons in Hwidth as [Hr Hrest].
  split; unfold fetched; rewrite ?Hcols1; norm; autorewrite with stmt;
    rewrite ?called_faults, ?Hf1; try done.
  - apply Hkeep; [done|done|]. simpl. unfold fetched. by rewrite Hcols1.
  - by rewrite Hcc1.
  - by rewrite Hcc1.
  - right. congruence.
Qed.

Lemma ready_next L rows j last st :
  ready L rows j last st → 0 < L ≤ INT_MAX → 0 ≤ j ≤ L →
  match rows with
  | r :: rest =>
      if j <? L
      then ∃ st', MysqlResultSet_next st = Ok true st' ∧
             ready L rest (j + 1) (Some r) st'
      else ∃ st', MysqlResultSet_next st = Ok false st' ∧ drained st'
  | [] => ∃ st', MysqlResultSet_next st = Ok false st' ∧ drained st'
  end.
Proof.
  intros Hready HL Hj. destruct rows as [|r rest].
  { apply drained_next. by eapply ready_drained. }
  destruct (Z.ltb_spec j L);
    [apply (ready_fetch L r rest j last st); [done|done|lia]|].
  destruct (ready_tables _ _ _ _ _ Hready) as (cols & bs & Hcols & Hbs & Htab).
  pose proof Hready as [HI Hf Hstop Hmax Hrow Hpend Hwidth Hlast Hcur Hsync].
  assert (limit_reached (R st) = true) as Hlim.
  { rewrite limit_reached_spec by lia. rewrite Hmax, Hrow.
    destruct (Z.leb_spec L j); [done|lia]. }
  eexists. split; [by apply next_limit|].
  split; norm.
  - eapply next_Inv; [exact HI|]. by rewrite next_limit.
  - done.
  - by left.
  - by rewrite columns_counted, Hcols.
Qed.

Lemma rows_then_end_true k t :
  rows_then_end (S k) (S t) = Some true :: rows_then_end k t.
Proof. done. Qed.

Lemma rows_then_end_false k : rows_then_end k 0 = replicate k (Some false).
Proof. unfold rows_then_end. by rewrite Nat.min_0_r, Nat.sub_0_r. Qed.

Lemma drained_run calls : ∀ st,
  drained st →
  ∃ st', run calls st = Some (replicate (next_calls calls) (Some false), st') ∧
    drained st'.
Proof.
  induction calls as [|[|idx|idx] calls IH]; intros st Hd; simpl.
  - by exists st.
  - destruct (drained_next st Hd) as (st1 & -> & Hd1).
    destruct (IH st1 Hd1) as (st' & -> & Hd'). by exists st'.
  - pose proof (drained_getString st idx Hd) as H.
    destruct (MysqlResultSet_getString idx st); [by apply IH..|done].
  - pose proof (drained_getBlob st idx Hd) as H.
    destruct (MysqlResultSet_getBlob idx st); [by apply IH..|done].
Qed.

Lemma ready_run calls : ∀ L rows j last st,
  ready L rows j last st → 0 < L ≤ INT_MAX → 0 ≤ j ≤ L →
  let k := next_calls calls in
  ∃ st', run calls st = Some (rows_then_end k (rows_allowed L rows j), st') ∧
    if (k <=? rows_allowed L rows j)%nat
    then ready L (drop k rows) (j + Z.of_nat k) (last_after k rows last) st'
    else drained st'.
Proof.
  induction calls as [|[|idx|idx] calls IH]; intros L rows j last st Hready HL Hj;
    cbn [next_calls run].
  - exists st. split; [done|]. cbn [Nat.leb last_after]. by rewrite drop_0, Z.add_0_r.
  - pose proof (ready_next _ _ _ _ _ Hready HL Hj) as Hnext. cbv zeta.
    unfold rows_allowed.
    destruct rows as [|r rest].
    { destruct Hnext as (st1 & -> & Hd1).
      destruct (drained_run calls st1 Hd1) as (st' & -> & Hd').
      exists st'. cbn [length Nat.min Nat.leb]. rewrite rows_then_end_false.
      by split. }
    destruct (Z.ltb_spec j L).
    + destruct Hnext as (st1 & -> & Hr1).
      destruct (IH _ _ _ _ _ Hr1 HL ltac:(lia)) as (st' & -> & Hend).
      exists st'. cbv zeta in Hend. unfold rows_allowed in Hend.
      replace (Z.to_nat (L - j)) with (S (Z.to_nat (L - (j + 1)))) by lia.
      cbn [length Nat.min Nat.leb]. rewrite rows_then_end_true. split; [done|].
      destruct (_ <=? _)%nat; [|done]. cbn [drop last_after].
      replace (j + Z.of_nat (S (next_calls calls)))
        with (j + 1 + Z.of_nat (next_calls calls)) by lia.
      destruct (next_calls calls); cbn [last_after] in *; done.
    + destruct Hnext as (st1 & -> & Hd1).
      destruct (drained_run calls st1 Hd1) as (st' & -> & Hd').
      exists st'. replace (Z.to_nat (L - j)) with 0%nat by lia.
      rewrite Nat.min_0_r. cbn [Nat.leb]. rewrite rows_then_end_false. by split.
  - pose proof (ready_getString _ _ _ _ _ idx Hready) as H.
    destruct (MysqlResultSet_getString idx st); [by apply IH..|done].
  - pose proof (ready_getBlob _ _ _ _ _ idx Hready) as H.
    destruct (MysqlResultSet_getBlob idx st); [by apply IH..|done].
Qed.

(** The cursor [MysqlResultSet_new] returns is ready, on an engine that
    does not fail and a statement with metadata. *)
Lemma new_ready s L keep m :
  executed s → faults s = [] → is_Some (metadata s) →
  0 < field_count s < 2 ^ 31 →
  Forall (λ r : row, length r = Z.to_nat (field_count s)) (pending s) →
  ready L (pending s) 0 None (new_state s L keep m).
Proof.
  intros Hexec Hf [fields Hmeta] Hfc Hwidth.
  pose proof (new_Inv s L keep m Hexec) as HI.
  pose proof (new_buffer_sizes s L keep m) as Hsizes.
  destruct Hexec as [Hcur _ _].
  unfold new_state, mysql_stmt_field_count in *.
  rewrite to_int_small in * by lia.
  destruct (Z.leb_spec (field_count s) 0); [lia|].
  rewrite Hmeta, bind_result_eq, faulty_logged, faulty_nil in * by done.
  rewrite store_result_eq in *.
  split; [exact HI|..]; norm; autorewrite with stmt; rewrite ?called_faults; norm;
    autorewrite with stmt; rewrite ?called_faults; unfold logged; norm;
    rewrite ?Hf; try done.
  - intros cols bs k c b [= <-] [= <-] Hc Hb.
    destruct (Hsizes _ _ _ _ _ eq_refl eq_refl Hc Hb) as [-> _].
    apply lookup_init in Hc as [-> _]. simpl. unfold STRLEN. lia.
  - by right.
Qed.

(** C2. A statement with [N] rows of full width, an engine that does not
    fail, a row limit [L > 0], and any sequence of calls of [next],
    [getString] and [getBlob] on the new cursor: every call has defined
    behaviour, and the calls of [MysqlResultSet_next] return true the
    first [min N L] times and false ever after.  The limit is checked
    before the fetch: after [L] calls the row delivered last, row [L],
    is the current row, and the call after it fetches nothing, sets
    [stop], and has the engine reset the statement, which discards the
    rows left, before it returns false. *)
Theorem advance_counts_rows s L keep m calls :
  executed s → faults s = [] → is_Some (metadata s) →
  0 < field_count s < 2 ^ 31 →
  Forall (λ r : row, length r = Z.to_nat (field_count s)) (pending s) →
  0 < L ≤ INT_MAX →
  let N := length (pending s) in
  let k := next_calls calls in
  ∃ st', run calls (new_state s L keep m)
           = Some (rows_then_end k (N `min` Z.to_nat L), st') ∧
    (k = Z.to_nat L → (Z.to_nat L ≤ N)%nat →
     current (stmt st') = pending s !! (Z.to_nat L - 1)%nat ∧
     ∃ st'', MysqlResultSet_next st' = Ok false st'' ∧
       stop (R st'') = true ∧
       log (stmt st'') = call_reset :: log (stmt st') ∧
       pending (stmt st'') = []).
Proof.
  intros Hexec Hf Hmeta Hfc Hwidth HL N k.
  pose proof (new_ready s L keep m Hexec Hf Hmeta Hfc Hwidth) as Hready.
  destruct (ready_run calls _ _ _ _ _ Hready HL ltac:(lia)) as (st' & Hrun & Hend).
  cbv zeta in Hend. fold k in Hrun, Hend. unfold rows_allowed in *.
  rewrite Z.sub_0_r in *. fold N in Hrun, Hend.
  exists st'. split; [done|]. intros Hk HN.
  destruct (Nat.leb_spec k (N `min` Z.to_nat L)); [|lia].
  destruct Hend as [HI _ Hstop Hmax Hrow _ _ Hlast _ _].
  split.
  - rewrite Hlast. destruct k as [|k'] eqn:Ek; [lia|].
    cbn [last_after]. f_equal. lia.
  - eexists. split; [apply next_limit; [done|]|].
    + rewrite limit_reached_spec by lia. rewrite Hmax, Hrow.
      destruct (Z.leb_spec L (0 + Z.of_nat k)); [done|lia].
    + by norm.
Qed.

Lemma advance_counts_rows_witness :
  ∃ st', run [Next; GetString 2; Next; GetBlob 1; Next]
           (new_state (sample_stmt sample_rows []) 1 0 [])
           = Some ([Some true; Some false; Some false], st').
Proof.
  destruct (advance_counts_rows (sample_stmt sample_rows []) 1 0 []
              [Next; GetString 2; Next; GetBlob 1; Next])
    as (st' & Hrun & _).
  - apply sample_executed, sample_rows_ok.
  - reflexivity.
  - by eexists.
  - simpl. lia.
  - repeat constructor.
  - unfold INT_MAX. lia.
  - exists st'. exact Hrun.
Defined.

(* ------------------------------------------------------------------ *)
(** ** The inspectors *)

(** X1. [MysqlResultSet_getColumnCount], [MysqlResultSet_getColumnName],
    [MysqlResultSet_getColumnSize] and [MysqlResultSet_isnull] never
    change the cursor, the heap or the statement, for any index and
    whether they return or raise. *)
Theorem inspectors_change_nothing st idx :
  unchanged st (MysqlResultSet_getColumnCount st) ∧
  unchanged st (MysqlResultSet_getColumnName idx st) ∧
  unchanged st (MysqlResultSet_getColumnSize idx st) ∧
  unchanged st (MysqlResultSet_isnull idx st).
Proof.
  unfold MysqlResultSet_getColumnCount, MysqlResultSet_getColumnName,
    MysqlResultSet_getColumnSize, MysqlResultSet_isnull,
    checkAndSetColumnIndex, column_at, defined, undefined, throw, getR,
    unchanged, mbind, M_bind, mret, M_ret.
  split_and!; repeat case_match; simplify_eq; done.
Qed.

(** X2. For a valid index and a current row, [MysqlResultSet_isnull]
    tells whether the value of the row in that column is NULL. *)
Theorem isnull_reflects_row st idx r v :
  reachable st → current (stmt st) = Some r →
  1 ≤ idx ≤ columnCount (R st) → r !! slot idx = Some v →
  MysqlResultSet_isnull idx st =
    Ok (match v with None => true | Some _ => false end) st.
Proof.
  intros Hreach Hr Hidx Hv. apply reachable_Inv in Hreach.
  destruct (current_column st idx r v Hreach Hr Hidx Hv)
    as (cols & bs & c & b & Hcols & _ & Hc & _ & Hsync & _).
  unfold MysqlResultSet_isnull.
  erewrite bind_Ok by reflexivity.
  erewrite bind_Ok by (by apply check_index_in).
  rewrite <- slot_eq by lia.
  erewrite bind_Ok by (by eapply column_at_eq).
  destruct v; simpl in Hsync; [by destruct Hsync as [-> _]|by rewrite Hsync].
Qed.

Lemma isnull_reflects_row_witness :
  let st := state_of (MysqlResultSet_next sample_cursor) sample_cursor in
  MysqlResultSet_isnull 3 st = Ok true st.
Proof.
  intros st.
  apply (isnull_reflects_row st 3 [Some ["1"%byte]; Some long_value; None] None).
  - apply (reach_next sample_cursor); [apply sample_cursor_reachable|].
    vm_compute. reflexivity.
  - reflexivity.
  - vm_compute. split; discriminate.
  - reflexivity.
Defined.

(* ------------------------------------------------------------------ *)
(** ** The cursor without its tables *)

(** X3. When [mysql_stmt_result_metadata] fails for a statement with
    columns, [MysqlResultSet_new] returns a cursor that reports the
    column count of the statement but has no column table: every
    accessor called with an index from 1 to the column count reads
    through the [NULL] table. *)
Theorem accessors_after_failed_metadata s maxRows keep m idx :
  0 < to_int (mysql_stmt_field_count s) → metadata s = None →
  1 ≤ idx ≤ to_int (mysql_stmt_field_count s) →
  ∃ st, MysqlResultSet_new s maxRows keep m = Ok tt st ∧
    MysqlResultSet_getColumnCount st = Ok (to_int (mysql_stmt_field_count s)) st ∧
    MysqlResultSet_getColumnName idx st = Undefined ∧
    MysqlResultSet_getColumnSize idx st = Undefined ∧
    MysqlResultSet_isnull idx st = Undefined ∧
    MysqlResultSet_getString idx st = Undefined ∧
    MysqlResultSet_getBlob idx st = Undefined.
Proof.
  intros Hcc Hmeta Hidx. exists (new_state s maxRows keep m).
  split; [apply new_eq|].
  pose proof (to_int_range (mysql_stmt_field_count s)) as Hrange.
  assert (columnCount (R (new_state s maxRows keep m))
          = to_int (mysql_stmt_field_count s)) as Hcount.
  { unfold new_state. destruct (Z.leb_spec (to_int (mysql_stmt_field_count s)) 0);
      [lia|]. by rewrite Hmeta. }
  assert (columns (R (new_state s maxRows keep m)) = None) as Hcols.
  { unfold new_state. destruct (Z.leb_spec (to_int (mysql_stmt_field_count s)) 0);
      [lia|]. by rewrite Hmeta. }
  split_and!.
  - unfold MysqlResultSet_getColumnCount.
    erewrite bind_Ok by reflexivity. by rewrite Hcount.
  - unfold MysqlResultSet_getColumnName.
    erewrite bind_Ok by reflexivity. rewrite Hcount.
    rewrite (to_int_small (idx - 1)) by lia.
    destruct (Z.leb_spec (to_int (mysql_stmt_field_count s)) 0); [lia|].
    destruct (Z.ltb_spec (idx - 1) 0); [lia|].
    destruct (Z.ltb_spec (to_int (mysql_stmt_field_count s)) (idx - 1)); [lia|].
    cbn [orb]. by erewrite bind_Undefined by (by apply column_at_null).
  - unfold MysqlResultSet_getColumnSize.
    erewrite bind_Ok by reflexivity.
    erewrite bind_Ok by (apply check_index_in; lia).
    by erewrite bind_Undefined by (by apply column_at_null).
  - unfold MysqlResultSet_isnull.
    erewrite bind_Ok by reflexivity.
    erewrite bind_Ok by (apply check_index_in; lia).
    by erewrite bind_Undefined by (by apply column_at_null).
  - unfold MysqlResultSet_getString.
    erewrite bind_Ok by reflexivity.
    erewrite bind_Ok by (apply check_index_in; lia).
    by erewrite bind_Undefined by (by apply column_at_null).
  - unfold MysqlResultSet_getBlob.
    erewrite bind_Ok by reflexivity.
    erewrite bind_Ok by (apply check_index_in; lia).
    by erewrite bind_Undefined by (by apply column_at_null).
Qed.

Lemma accessors_after_failed_metadata_witness :
  ∃ st, MysqlResultSet_new no_metadata_stmt 0 0 [] = Ok tt st ∧
    MysqlResultSet_getColumnCount st = Ok 3 st ∧
    MysqlResultSet_getColumnName 1 st = Undefined ∧
    MysqlResultSet_getColumnSize 1 st = Undefined ∧
    MysqlResultSet_isnull 1 st = Undefined ∧
    MysqlResultSet_getString 1 st = Undefined ∧
    MysqlResultSet_getBlob 1 st = Undefined.
Proof.
  apply (accessors_after_failed_metadata no_metadata_stmt 0 0 [] 1).
  - reflexivity.
  - reflexivity.
  - vm_compute. split; discriminate.
Defined.

(* ------------------------------------------------------------------ *)
(** ** The engine calls of the construction *)

Lemma fails_faulty s : faulty s = fails s 0.
Proof. unfold faulty, fails, take_fault. by destruct (faults s). Qed.

Lemma fails_called c s n : fails (called c s) n = fails s (S n).
Proof. unfold fails. rewrite called_faults. by destruct (faults s). Qed.

Lemma fails_logged c s n : fails (logged c s) n = fails s n.
Proof. done. Qed.

Lemma fails_set_bound s x n : fails (set_bound s x) n = fails s n.
Proof. done. Qed.

(** X4. For a statement with columns and metadata,
    [MysqlResultSet_new] calls [mysql_stmt_result_metadata],
    [mysql_stmt_bind_result] with the bind table, and
    [mysql_stmt_store_result], in this order; the last is called also
    when the registration failed.  The cursor is stopped exactly when
    the registration failed, and [lastError] holds the result of
    [mysql_stmt_store_result] alone: the error code of a failed
    registration is overwritten. *)
Theorem new_engine_calls s maxRows keep m :
  0 < to_int (mysql_stmt_field_count s) → is_Some (metadata s) →
  ∃ st bs, MysqlResultSet_new s maxRows keep m = Ok tt st ∧
    bind (R st) = Some bs ∧
    log (stmt st) =
      call_store_result :: call_bind_result bs :: call_result_metadata :: log s ∧
    stop (R st) = fails s 0 ∧
    lastError (R st) = (if fails s 1 then 1 else 0) ∧
    bound (stmt st) = (if fails s 0 then bound s else Some bs).
Proof.
  intros Hcc [fields Hmeta]. rewrite new_eq. unfold new_state.
  destruct (Z.leb_spec (to_int (mysql_stmt_field_count s)) 0); [lia|].
  rewrite Hmeta, bind_result_eq, faulty_logged, fails_faulty.
  destruct (fails s 0) eqn:Hf0; rewrite store_result_eq;
    eexists _, _; (split; [reflexivity|]); norm;
    rewrite ?fails_faulty, ?fails_set_bound, ?fails_called, ?fails_logged;
    autorewrite with stmt; norm; autorewrite with stmt; rewrite ?called_log;
    by split_and!.
Qed.

Lemma new_engine_calls_witness :
  ∃ st bs, MysqlResultSet_new (sample_stmt sample_rows [true]) 0 0 [] = Ok tt st ∧
    bind (R st) = Some bs ∧
    log (stmt st) = [call_store_result; call_bind_result bs; call_result_metadata] ∧
    stop (R st) = true ∧ lastError (R st) = 0 ∧ bound (stmt st) = None.
Proof.
  apply (new_engine_calls (sample_stmt sample_rows [true]) 0 0 []).
  - reflexivity.
  - by eexists.
Defined.

(* ------------------------------------------------------------------ *)
(** ** A failing fetch *)

(** X5. When [mysql_stmt_fetch] fails, [MysqlResultSet_next] raises an
    [SQLException] that carries the error text of the statement and
    leaves 1 in [lastError].  The cursor is not stopped, no row is
    consumed and the columns keep their values; with a row limit the
    failed call was counted as a row all the same. *)
Theorem fetch_failure_raises st :
  stop (R st) = false → limit_reached (R st) = false →
  needRebind (R st) = false → fails (stmt st) 0 = true →
  ∃ st', MysqlResultSet_next st =
           Throw (SQLException "mysql_stmt_fetch -- %s" (errtext (stmt st))) st' ∧
    stop (R st') = false ∧ lastError (R st') = 1 ∧
    currentRow (R st') =
      (if maxRows (R st) =? 0 then currentRow (R st)
       else to_int (currentRow (R st) + 1)) ∧
    columns (R st') = columns (R st) ∧ mem st' = mem st ∧
    pending (stmt st') = pending (stmt st) ∧
    current (stmt st') = current (stmt st) ∧
    log (stmt st') = call_fetch :: log (stmt st).
Proof.
  intros Hstop Hlim Hneed Hfail. rewrite <- fails_faulty in Hfail.
  rewrite next_fetches by (by rewrite ?Hneed).
  unfold before_fetch. rewrite needRebind_counted, Hneed.
  rewrite fetch_row_eq, fetch_eq. norm. rewrite Hfail. simpl.
  rewrite called_errtext. eexists. split; [reflexivity|].
  unfold fetched. norm. rewrite columns_counted.
  destruct (columns (R st)) eqn:Hcols; norm;
    rewrite ?stop_counted, ?columns_counted, ?Hcols;
    autorewrite with stmt; rewrite ?called_log;
    (split_and!; try done); unfold counted; by destruct (maxRows (R st) =? 0).
Qed.

Lemma fetch_failure_raises_witness :
  let st := new_state (sample_stmt sample_rows [false; false; true]) 2 0 [] in
  ∃ st', MysqlResultSet_next st =
           Throw (SQLException "mysql_stmt_fetch -- %s" "server has gone away") st' ∧
    stop (R st') = false ∧ lastError (R st') = 1 ∧ currentRow (R st') = 1 ∧
    pending (stmt st') = sample_rows.
Proof.
  intros st.
  destruct (fetch_failure_raises st) as (st' & Hnext & H); try reflexivity.
  exists st'. split; [exact Hnext|].
  destruct H as (? & ? & ? & _ & _ & ? & _). by split_and!.
Defined.

(* ------------------------------------------------------------------ *)
(** ** A negative row limit *)




(* ------------------------------------------------------------------ *)
(** ** The cases of the calls *)

Lemma counted_same r :
  stop (counted r) = stop r ∧ keep (counted r) = keep r ∧
  maxRows (counted r) = maxRows r ∧ columnCount (counted r) = columnCount r ∧
  meta (counted r) = meta r ∧ bind (counted r) = bind r ∧
  columns (counted r) = columns r ∧ needRebind (counted r) = needRebind r.
Proof. unfold counted. by destruct (maxRows r =? 0). Qed.

(** What the steps of [MysqlResultSet_next] before the fetch leave as
    they are. *)
Lemma before_fetch_same st :
  stop (R (before_fetch st)) = stop (R st) ∧
  keep (R (before_fetch st)) = keep (R st) ∧
  maxRows (R (before_fetch st)) = maxRows (R st) ∧
  columnCount (R (before_fetch st)) = columnCount (R st) ∧
  meta (R (before_fetch st)) = meta (R st) ∧
  bind (R (before_fetch st)) = bind (R st) ∧
  columns (R (before_fetch st)) = columns (R st) ∧
  mem (before_fetch st) = mem st ∧
  pending (stmt (before_fetch st)) = pending (stmt st) ∧
  current (stmt (before_fetch st)) = current (stmt st) ∧
  errtext (stmt (before_fetch st)) = errtext (stmt st) ∧
  field_count (stmt (before_fetch st)) = field_count (stmt st) ∧
  metadata (stmt (before_fetch st)) = metadata (stmt st).
Proof.
  unfold before_fetch.
  destruct (counted_same (R st)) as (? & ? & ? & ? & ? & ? & ? & ?).
  destruct (needRebind (counted (R st))); norm; autorewrite with stmt;
    rewrite ?called_field_count, ?called_metadata, ?called_errtext;
    by split_and!.
Qed.

Lemma next_cases st :
  MysqlResultSet_next st = Undefined ∨ next_does st (MysqlResultSet_next st).
Proof.
  destruct (stop (R st)) eqn:Hstop.
  { right. rewrite next_stopped by done. by constructor. }
  destruct (limit_reached (R st)) eqn:Hlim.
  { right. rewrite next_limit by done. by constructor. }
  assert (needRebind (R st) = true → bind (R st) = None →
          MysqlResultSet_next st = Undefined) as Hnull.
  { intros Hneed Hbind. rewrite next_continues by done.
    unfold rebind, getR, defined, undefined, mbind, M_bind. norm.
    by rewrite needRebind_counted, Hneed, bind_counted, Hbind. }
  assert (needRebind (R st) = true → faulty (stmt st) = true →
          ∀ bs, bind (R st) = Some bs → next_does st (MysqlResultSet_next st))
    as Hfail.
  { intros Hneed Hfault bs Hbs. erewrite next_rebind_fails by done.
    by constructor. }
  destruct (before_fetch_same st)
    as (_ & _ & _ & _ & _ & _ & Hcols & Hmem & Hpend & _ & Herr & _).
  assert ((needRebind (R st) = true →
             faulty (stmt st) = false ∧ is_Some (bind (R st))) →
          MysqlResultSet_next st = Undefined ∨
          next_does st (MysqlResultSet_next st)) as Hfetch.
  { intros Hready. rewrite next_fetches by done.
    rewrite fetch_row_eq, fetch_eq, Hcols, Hmem, Hpend.
    destruct (faulty (stmt (before_fetch st))) eqn:Hfault.
    { right. simpl. rewrite called_errtext, Herr. by constructor. }
    destruct (pending (stmt st)) as [|r rest] eqn:Hrows.
    { right. simpl. by constructor. }
    destruct (store_row _ r _ (mem st)) as [[[t cols1] m1]|] eqn:Hstore;
      [|by left].
    right. cbn [mbind option_bind].
    replace ((if t then MYSQL_DATA_TRUNCATED else MYSQL_OK) =? 1) with false
      by (by destruct t).
    replace (((if t then MYSQL_DATA_TRUNCATED else MYSQL_OK) =? MYSQL_OK)
             || ((if t then MYSQL_DATA_TRUNCATED else MYSQL_OK)
                 =? MYSQL_DATA_TRUNCATED)) with true by (by destruct t).
    by constructor. }
  destruct (needRebind (R st)) eqn:Hneed; [|by apply Hfetch].
  destruct (bind (R st)) as [bs|] eqn:Hbs; [|left; by apply Hnull].
  destruct (faulty (stmt st)) eqn:Hfault; [right; by eapply Hfail|].
  apply Hfetch. eauto.
Qed.

Lemma column_value_Some s k v :
  column_value s k = Some v → ∃ r, current s = Some r ∧ r !! k = Some v.
Proof.
  unfold column_value. destruct (faulty s); [done|].
  destruct (current s) as [r|]; [|done]. simpl.
  destruct (_ <=? _); [done|]. eauto.
Qed.

(** The outcomes of [_ensureCapacity] on a column that is not NULL. *)
Lemma ensureCapacity_cases st cols bs (k : nat) c b :
  Inv st →
  columns (R st) = Some cols → bind (R st) = Some bs →
  cols !! k = Some c → bs !! k = Some b → is_null c = false →
  match _ensureCapacity (Z.of_nat k) st with
  | Ok _ st1 =>
      Inv st1 ∧
      (real_length c ≤ bind_buffer_length b ∧ st1 = st ∨
       ∃ a blk d m2,
         bind_buffer_length b < real_length c ∧
         buffer c = Some a ∧ live (mem st) a = Some blk ∧
         column_value (stmt st) k = Some (Some d) ∧
         real_length c = Z.of_nat (length d) ∧
         memcpy (Some (length (mem st))) d (grown_mem (mem st) a c blk) = Some m2 ∧
         st1 = {| R := set_needRebind
                         (R (refetched st cols bs k c b
                               (grown_column c (length (mem st))) 0 m2)) true;
                  mem := m2;
                  stmt := called (call_fetch_column
                                    (grown_bind c b (length (mem st)))
                                    (Z.of_nat k) 0) (stmt st) |})
  | Throw _ st1 =>
      ∃ a blk,
        bind_buffer_length b < real_length c ∧
        buffer c = Some a ∧ live (mem st) a = Some blk ∧
        column_value (stmt st) k = None ∧
        st1 = refetched st cols bs k c b (grown_column c (length (mem st))) 1
                (grown_mem (mem st) a c blk)
  | Undefined => False
  end.
Proof.
  intros HI Hcols Hbs Hc Hb Hnull.
  pose proof (ensureCapacity_Inv _ _ _ _ _ _ HI Hcols Hbs Hc Hb) as Hens.
  destruct (Z.le_gt_cases (real_length c) (bind_buffer_length b)) as [Hfit|Htrunc].
  { rewrite (ensureCapacity_fits _ _ _ _ _ _ Hcols Hbs Hc Hb Hfit) in *.
    split; [done|]. by left. }
  destruct (ensureCapacity_truncated _ _ _ _ _ _ HI Hcols Hbs Hc Hb Htrunc)
    as (a & blk & Ha & Hlive & Hspec).
  cbv zeta in Hspec.
  destruct (column_value (stmt st) k) as [v|] eqn:Hv.
  - destruct Hspec as (m2 & Hm2 & _ & Heq). rewrite Heq in *.
    destruct Hens as [HI1 _]. split; [done|]. right.
    destruct (column_value_Some _ _ _ Hv) as (r & Hr & Hrv).
    destruct HI as [_ _ Hrow _ _ _].
    pose proof (Hrow _ _ _ _ _ Hr Hcols Hc Hrv) as Hsync.
    destruct v as [d|]; simpl in Hsync; [|congruence].
    destruct Hsync as [_ Hlen].
    rewrite delivered_whole in Hm2 by done.
    rewrite deliver_id by (by split).
    exists a, blk, d, m2. by split_and!.
  - rewrite Hspec in *. exists a, blk. by split_and!.
Qed.

Lemma getString_cases st idx st' :
  Inv st → after (MysqlResultSet_getString idx st) st' →
  read_does (slot idx) st st'.
Proof.
  intros HI.
  destruct (index_cases st idx HI)
    as [Hidx|[[Hidx Hnone]|(Hidx & cols & bs & c & b & Hcols & Hbs & Hc & Hb)]].
  - rewrite getString_out by done. intros <-. constructor.
  - unfold MysqlResultSet_getString.
    erewrite bind_Ok by reflexivity.
    erewrite bind_Ok by (by apply check_index_in).
    by erewrite bind_Undefined by (by apply column_at_null).
  - destruct (is_null c) eqn:Hnull.
    { erewrite getString_null by done. intros <-. constructor. }
    erewrite getString_nonnull by done.
    pose proof (ensureCapacity_cases _ _ _ _ _ _ HI Hcols Hbs Hc Hb Hnull) as Hens.
    unfold mbind at 1, M_bind at 1.
    destruct (_ensureCapacity _ st) as [[] st1|e st1|]; [| |done].
    + destruct Hens as [HI1 [[Hfit ->]|Hgrow]].
      * destruct (terminate_spec _ _ _ _ _ _ HI Hcols Hbs Hc Hb Hfit)
          as (a & m2 & Ha & Hpoke & _ & _ & ->).
        intros <-. by eapply read_in_place.
      * destruct Hgrow as (a & blk & d & m2 & Htrunc & Ha & Hlive & Hv & Hlen & Hm2 & ->).
        pose proof (lookup_lt_Some _ _ _ Hc) as Hlc.
        pose proof (lookup_lt_Some _ _ _ Hb) as Hlb.
        destruct (terminate_spec _ (<[slot idx := grown_column c (length (mem st))]> cols)
                    (<[slot idx := grown_bind c b (length (mem st))]> bs)
                    (slot idx) (grown_column c (length (mem st)))
                    (grown_bind c b (length (mem st))) HI1)
          as (a2 & m3 & Ha2 & Hpoke & _ & _ & ->);
          [done|done|by apply list_lookup_insert_eq|by apply list_lookup_insert_eq
          |simpl; lia|].
        simpl in Ha2. injection Ha2 as <-. simpl in Hpoke.
        intros <-. eapply (read_refetched _ _ cols bs c b a blk d m2 m3); eauto.
    + destruct Hens as (a & blk & Htrunc & Ha & Hlive & Hv & ->).
      intros <-. by eapply read_refetch_fails.
Qed.

Lemma getBlob_cases st idx st' :
  Inv st → after (MysqlResultSet_getBlob idx st) st' →
  read_does (slot idx) st st'.
Proof.
  intros HI.
  destruct (index_cases st idx HI)
    as [Hidx|[[Hidx Hnone]|(Hidx & cols & bs & c & b & Hcols & Hbs & Hc & Hb)]].
  - rewrite getBlob_out by done. intros <-. constructor.
  - unfold MysqlResultSet_getBlob.
    erewrite bind_Ok by reflexivity.
    erewrite bind_Ok by (by apply check_index_in).
    by erewrite bind_Undefined by (by apply column_at_null).
  - destruct (is_null c) eqn:Hnull.
    { erewrite getBlob_null by done. intros <-. constructor. }
    erewrite getBlob_nonnull by done.
    pose proof (ensureCapacity_cases _ _ _ _ _ _ HI Hcols Hbs Hc Hb Hnull) as Hens.
    unfold mbind at 1, M_bind at 1.
    destruct (_ensureCapacity _ st) as [[] st1|e st1|]; [| |done].
    + destruct Hens as [HI1 [[Hfit ->]|Hgrow]].
      * unfold blob_view. erewrite bind_Ok by (by eapply column_at_eq).
        intros <-. constructor.
      * destruct Hgrow as (a & blk & d & m2 & Htrunc & Ha & Hlive & Hv & Hlen & Hm2 & ->).
        pose proof (lookup_lt_Some _ _ _ Hc) as Hlc.
        unfold blob_view.
        erewrite bind_Ok
          by (eapply column_at_eq; [reflexivity|by apply list_lookup_insert_eq]).
        intros <-. eapply (read_refetched _ _ cols bs c b a blk d m2 m2); eauto.
    + destruct Hens as (a & blk & Htrunc & Ha & Hlive & Hv & ->).
      intros <-. by eapply read_refetch_fails.
Qed.

(* ------------------------------------------------------------------ *)
(** ** The blocks a write leaves alone *)

Lemma poke_other p off x m m' a' :
  poke p off x m = Some m' → p ≠ Some a' → live m' a' = live m a'.
Proof.
  unfold poke. destruct p as [a|]; [|done].
  destruct (live m a) as [b|]; [|done]. destruct (_ && _); [|done].
  intros [= <-] Hne. apply live_insert_ne. congruence.
Qed.

Lemma memcpy_other p data m m' a' :
  memcpy p data m = Some m' → p ≠ Some a' → live m' a' = live m a'.
Proof.
  unfold memcpy. destruct (length data =? 0)%nat; [by intros [= <-]|].
  destruct p as [a|]; [|done].
  destruct (live m a) as [b|]; [|done]. destruct (_ <=? _)%nat; [|done].
  intros [= <-] Hne. apply live_insert_ne. congruence.
Qed.

Lemma memcpy_live p data m m' a' :
  memcpy p data m = Some m' → is_Some (live m' a') ↔ is_Some (live m a').
Proof.
  intros H. pose proof (memcpy_blen _ _ _ _ a' H) as Hb. unfold blen in Hb.
  destruct (live m' a'), (live m a'); simpl in Hb; try done;
    split; intros [? ?]; done.
Qed.

Lemma poke_live p off x m m' a' :
  poke p off x m = Some m' → is_Some (live m' a') ↔ is_Some (live m a').
Proof.
  intros H. pose proof (poke_blen _ _ _ _ _ a' H) as Hb. unfold blen in Hb.
  destruct (live m' a'), (live m a'); simpl in Hb; try done;
    split; intros [? ?]; done.
Qed.

Lemma length_grown m a c blk : length (grown_mem m a c blk) = S (length m).
Proof. unfold grown_mem. rewrite length_app, length_insert. simpl. lia. Qed.

Lemma live_grown_old m a c blk a' :
  a' ≠ a → (a' < length m)%nat → live (grown_mem m a c blk) a' = live m a'.
Proof.
  intros Hne Hlt. unfold grown_mem.
  rewrite live_app_l by (by rewrite length_insert).
  by apply live_insert_ne.
Qed.

Lemma live_grown_new m a c blk :
  live (grown_mem m a c blk) (length m)
    = Some (resize (Z.to_nat (to_ulong (real_length c + 1))) None blk).
Proof.
  unfold grown_mem. rewrite <- (length_insert m a None). apply live_app_new.
Qed.

Lemma live_grown_released m a c blk :
  (a < length m)%nat → live (grown_mem m a c blk) a = None.
Proof.
  intros Hlt. unfold grown_mem.
  rewrite live_app_l by (by rewrite length_insert).
  by apply live_insert_eq.
Qed.

Lemma live_grown_beyond m a c blk a' :
  (length m < a')%nat → live (grown_mem m a c blk) a' = None.
Proof. intros H. apply live_ge. rewrite length_grown. lia. Qed.

(** The heap after a value was delivered through a bind entry. *)
Lemma store_value_mem b v off cols m t cols' m' :
  store_value b v off cols m = Some (t, cols', m') →
  memcpy (bind_buffer b) (delivered_bytes b v off) m = Some m'.
Proof.
  unfold store_value. destruct v as [d|]; simpl.
  - destruct (store_is_null _ _ _) as [cols1|]; [|done]. simpl.
    destruct (store_length _ _ _) as [cols2|]; [|done]. simpl.
    destruct (memcpy _ _ _) as [m1|]; [|done]. simpl. by intros [= _ _ <-].
  - destruct (store_is_null _ _ _) as [cols1|]; [|done]. simpl.
    intros [= _ _ <-]. apply memcpy_nil.
Qed.

(** A delivered row changes no block but the bound buffers. *)
Lemma store_row_other bs : ∀ r cols m t cols' m' a',
  store_row bs r cols m = Some (t, cols', m') →
  (∀ j b, bs !! j = Some b → bind_buffer b ≠ Some a') →
  live m' a' = live m a'.
Proof.
  induction bs as [|b bs IH]; intros r cols m t cols' m' a' Hstore Hne.
  { simpl in Hstore. by simplify_eq. }
  destruct r as [|v r]; [simpl in Hstore; by simplify_eq|].
  simpl in Hstore.
  destruct (store_value b v 0 cols m) as [[[t1 cols1] m1]|] eqn:Hv; [|done].
  simpl in Hstore.
  destruct (store_row bs r cols1 m1) as [[[t2 cols2] m2]|] eqn:Hrest; [|done].
  simpl in Hstore. injection Hstore as _ _ <-.
  rewrite (IH _ _ _ _ _ _ a' Hrest) by (intros j b' Hb'; apply (Hne (S j) b' Hb')).
  eapply memcpy_other; [by eapply store_value_mem|]. apply (Hne 0%nat b eq_refl).
Qed.

(* ------------------------------------------------------------------ *)
(** ** What stays fixed over the life of a cursor *)

Lemma fetch_field_direct_nat fields (i : nat) :
  mysql_fetch_field_direct fields (Z.of_nat i) = fields !! i.
Proof.
  unfold mysql_fetch_field_direct.
  destruct (Z.ltb_spec (Z.of_nat i) 0); [lia|]. by rewrite Nat2Z.id.
Qed.

Lemma lifetime_new s L kp m : lifetime s L kp m (new_state s L kp m).
Proof.
  unfold new_state, mysql_stmt_field_count.
  destruct (to_int (field_count s) <=? 0) eqn:Hcc.
  { split; norm; try done; unfold mysql_stmt_field_count; rewrite ?Hcc; try done.
    intros a Hge [blk Hlive]. apply live_lt in Hlive. lia. }
  destruct (metadata s) as [fields|] eqn:Hmeta.
  2:{ split; norm; try done; unfold mysql_stmt_field_count; rewrite ?Hcc; try done.
      intros a Hge [blk Hlive]. apply live_lt in Hlive. lia. }
  set (n := Z.to_nat (to_int (field_count s))).
  set (cols0 := (λ i, init_column fields (length m + i) i) <$> seq 0 n).
  set (bs0 := (λ i, init_bind (length m + i) i) <$> seq 0 n).
  assert (∀ i c, cols0 !! i = Some c → field c = fields !! i) as Hfields.
  { intros i c Hc. apply lookup_init in Hc as [-> _]. simpl.
    apply fetch_field_direct_nat. }
  assert (∀ a, (length m ≤ a)%nat →
            is_Some (live (m ++ replicate n (Some fresh_block)) a) →
            ∃ i c, cols0 !! i = Some c ∧ buffer c = Some a) as Hnew.
  { intros a Hge [blk Hlive]. apply live_lt in Hlive as Hlt.
    rewrite length_app, length_replicate in Hlt.
    eexists (a - length m)%nat, _.
    split; [apply lookup_init; split; [reflexivity|lia]|].
    simpl. f_equal. lia. }
  assert (∀ i c a, cols0 !! i = Some c → buffer c = Some a → (length m ≤ a)%nat)
    as Hbuf.
  { intros i c a Hc Ha. apply lookup_init in Hc as [-> _]. simpl in Ha.
    injection Ha as <-. lia. }
  assert (∀ j br a, bs0 !! j = Some br → bind_buffer br = Some a →
            (length m ≤ a)%nat) as Hbound.
  { intros j br a Hbr Ha. apply lookup_init in Hbr as [-> _]. simpl in Ha.
    injection Ha as <-. lia. }
  rewrite bind_result_eq.
  destruct (faulty (logged call_result_metadata s)) eqn:Hfault;
    rewrite store_result_eq; norm;
    (split; norm; autorewrite with stmt;
       unfold mysql_stmt_field_count; rewrite ?Hcc; try done;
     first
       [ by (cbn [errtext set_bound]; rewrite !called_errtext)
       | rewrite length_app; lia
       | intros cols fields' i c [= <-] [= <-]; apply Hfields
       | intros a Ha; by apply live_app_l
       | intros a Hge Hlive; destruct (Hnew a Hge Hlive) as (i & c & ? & ?);
         by exists cols0, i, c
       | intros cols i c a [= <-]; apply Hbuf
       | intros _ reg j br a [= <-]; apply Hbound ]).
Qed.

Lemma lifetime_same s L kp m0 st st' :
  lifetime s L kp m0 st →
  columnCount (R st') = columnCount (R st) → keep (R st') = keep (R st) →
  maxRows (R st') = maxRows (R st) → meta (R st') = meta (R st) →
  columns (R st') = columns (R st) →
  errtext (stmt st') = errtext (stmt st) → mem st' = mem st →
  (stop (R st') = false →
     stop (R st) = false ∧ bound (stmt st') = bound (stmt st)) →
  lifetime s L kp m0 st'.
Proof.
  intros [] Hcc Hkeep Hmax Hmeta Hcols Herr Hmem Hbound.
  split; rewrite ?Hcc, ?Hkeep, ?Hmax, ?Hmeta, ?Hcols, ?Herr, ?Hmem; try done.
  intros Hstop. destruct (Hbound Hstop) as [Hstop0 ->]. by apply life_bound0.
Qed.

Lemma lifetime_before_fetch s L kp m0 st :
  Inv st → lifetime s L kp m0 st → lifetime s L kp m0 (before_fetch st).
Proof.
  intros HI Hlife.
  destruct (before_fetch_same st)
    as (Hstop & Hkeep & Hmax & Hcc & Hmeta & Hbind & Hcols & Hmem & _ & _ & Herr & _).
  pose proof Hlife as [].
  split; rewrite ?Hcc, ?Hkeep, ?Hmax, ?Hmeta, ?Hcols, ?Herr, ?Hmem; try done.
  rewrite Hstop. intros Hstop0. unfold before_fetch.
  rewrite needRebind_counted.
  destruct (needRebind (R st)); [|norm; by apply life_bound0].
  norm. rewrite bind_counted. intros reg j br a Hreg Hbr Ha.
  destruct HI as [Ht _ _ _ _ _].
  destruct (columns (R st)) as [cols|] eqn:Hc0, (bind (R st)) as [bs|] eqn:Hb0;
    try done.
  injection Hreg as <-. destruct Ht as [Hlc Hlb _ Hslots _].
  destruct (lookup_lt_is_Some_2 cols j) as [c Hc];
    [rewrite Hlc, <- Hlb; eauto using lookup_lt_Some|].
  destruct (Hslots _ _ _ Hc Hbr) as [_ Hbb _ _ _ _ _].
  eapply life_buffers0; [done..|congruence].
Qed.

(** A delivered row keeps what is fixed. *)
Lemma lifetime_delivered s L kp m0 st r t cols1 m1 rc s' :
  Inv st → lifetime s L kp m0 st → stop (R st) = false →
  store_row (default [] (bound (stmt st))) r (default [] (columns (R st)))
    (mem st) = Some (t, cols1, m1) →
  errtext s' = errtext (stmt st) → bound s' = bound (stmt st) →
  lifetime s L kp m0 (fetched st rc s' cols1 m1).
Proof.
  intros HI Hlife Hstop Hstore Herr Hbound.
  pose proof HI as [Ht _ _ _ _ Hb].
  destruct (Hb Hstop) as (reg & Hreg & Hlreg & Hptr & _).
  destruct (columns (R st)) as [cols|] eqn:Hcols, (bind (R st)) as [bs|] eqn:Hbs;
    try done; [|congruence].
  destruct Ht as [Hlc _ _ _ _].
  rewrite Hreg in Hstore. simpl in Hstore.
  pose proof (λ a', store_row_other _ _ _ _ _ _ _ a' Hstore) as Hother.
  apply store_row_inv with (k := 0%nat) in Hstore as (Hl1 & Hm1 & Hblen & Hcols1);
    [|done|lia].
  assert (∀ i c1, cols1 !! i = Some c1 → ∃ c, cols !! i = Some c ∧
            field c1 = field c ∧ buffer c1 = buffer c) as Hback.
  { intros i c1 Hc1.
    destruct (lookup_lt_is_Some_2 cols i) as [c Hci];
      [rewrite <- Hl1; eauto using lookup_lt_Some|].
    exists c. split; [done|]. rewrite (Hcols1 _ _ Hci) in Hc1.
    destruct (decide _); [|by simplify_eq].
    destruct (r !! _) as [v|]; [|by simplify_eq].
    destruct (reg !! _); simplify_eq; by rewrite ?deliver_field, ?deliver_buffer. }
  assert (∀ i c, cols !! i = Some c → ∃ c1, cols1 !! i = Some c1 ∧
            buffer c1 = buffer c) as Hforth.
  { intros i c Hci.
    destruct (lookup_lt_is_Some_2 cols1 i) as [c1 Hc1];
      [rewrite Hl1; eauto using lookup_lt_Some|].
    exists c1. split; [done|].
    destruct (Hback _ _ Hc1) as (c' & Hc' & _ & ?). congruence. }
  pose proof Hlife as [].
  unfold fetched. rewrite Hcols. split; norm; rewrite ?Herr; try done.
  - split; [intros _; apply life_tables0; by rewrite Hcols|by eexists].
  - intros cols' fields i c1 [= <-] Hmeta Hc1.
    destruct (Hback _ _ Hc1) as (c & Hc & -> & _). eauto.
  - lia.
  - intros a Ha. rewrite <- life_heap_old0 by done. apply Hother.
    intros j br Hbr Heq. specialize (life_bound0 Hstop _ _ _ _ Hreg Hbr Heq). lia.
  - intros a Hge Hlive.
    assert (is_Some (live (mem st) a)) as Hlive0.
    { specialize (Hblen a). unfold blen in Hblen.
      destruct Hlive as [blk Hlive]. rewrite Hlive in Hblen.
      destruct (live (mem st) a); [by eexists|done]. }
    destruct (life_heap_new0 a Hge Hlive0) as (cols' & i & c & Hc' & Hc & Hbuf).
    rewrite Hcols in Hc'. injection Hc' as <-.
    destruct (Hforth _ _ Hc) as (c1 & Hc1 & Hb1).
    exists cols1, i, c1. split_and!; [done|done|congruence].
  - intros cols' i c1 a [= <-] Hc1 Ha.
    destruct (Hback _ _ Hc1) as (c & Hc & _ & Hb1).
    eapply life_buffers0; [done..|congruence].
  - intros _. rewrite Hbound. by apply life_bound0.
Qed.

Lemma lifetime_next s L kp m0 st st' :
  Inv st → lifetime s L kp m0 st → after (MysqlResultSet_next st) st' →
  lifetime s L kp m0 st'.
Proof.
  intros HI Hlife Hafter.
  destruct (next_cases st) as [Hundef|Hcase]; [by rewrite Hundef in Hafter|].
  destruct (counted_same (R st)) as (? & ? & ? & ? & ? & ? & Hccols & ?).
  destruct (before_fetch_same st)
    as (Hstop & _ & _ & _ & _ & _ & Hcols & Hmem & _ & _ & Herr & _).
  pose proof (lifetime_before_fetch _ _ _ _ _ HI Hlife) as Hlife1.
  inversion Hcase as [Hs Heq|Hs Hlim Heq|bs Hs Hlim Hneed Hbs Hfault Heq
                     |Hs Hlim Hready Hfault Heq|Hs Hlim Hready Hfault Hpend Heq
                     |r rest t cols1 m1 Hs Hlim Hready Hfault Hpend Hstore Heq];
    rewrite <- Heq in Hafter; simpl in Hafter; subst st'.
  - done.
  - eapply lifetime_same; [exact Hlife|norm..]; try done.
  - eapply lifetime_same; [exact Hlife|norm..];
      by rewrite ?called_errtext, ?called_bound.
  - eapply lifetime_same; [exact Hlife1|unfold fetched..]; rewrite ?Hcols;
      destruct (columns (R st)); norm;
      by rewrite ?called_errtext, ?called_bound.
  - eapply lifetime_same; [exact Hlife1|unfold fetched..]; rewrite ?Hcols;
      destruct (columns (R st)); norm;
      by rewrite ?called_errtext, ?called_bound.
  - apply (lifetime_delivered _ _ _ _ (before_fetch st) r t);
      rewrite ?Hcols, ?Hmem; norm;
      rewrite ?called_errtext, ?called_bound; try done.
    + by apply Inv_before_fetch.
    + congruence.
Qed.

(** A buffer that moved to a fresh address keeps what is fixed. *)
Lemma lifetime_grown s L kp m0 st cols k c a blk c1 r2 m2 s2 :
  lifetime s L kp m0 st →
  columns (R st) = Some cols → cols !! k = Some c →
  buffer c = Some a → live (mem st) a = Some blk →
  buffer c1 = Some (length (mem st)) → field c1 = field c →
  columns r2 = Some (<[k := c1]> cols) →
  columnCount r2 = columnCount (R st) → keep r2 = keep (R st) →
  maxRows r2 = maxRows (R st) → meta r2 = meta (R st) →
  stop r2 = stop (R st) →
  errtext s2 = errtext (stmt st) → bound s2 = bound (stmt st) →
  length m2 = S (length (mem st)) →
  (∀ a', a' ≠ length (mem st) →
     live m2 a' = live (grown_mem (mem st) a c blk) a') →
  (∀ a', is_Some (live m2 a') →
     is_Some (live (grown_mem (mem st) a c blk) a')) →
  lifetime s L kp m0 {| R := r2; mem := m2; stmt := s2 |}.
Proof.
  intros [] Hcols Hc Ha Hlive Hb1 Hf1 Hcols2 Hcc Hkeep Hmax Hmeta Hstop Herr Hbound
    Hlen Hsame Hsome.
  pose proof (lookup_lt_Some _ _ _ Hc) as Hk.
  pose proof (live_lt _ _ _ Hlive) as Hlt.
  pose proof (life_buffers0 _ _ _ _ Hcols Hc Ha) as Hge.
  split; norm; rewrite ?Hcc, ?Hkeep, ?Hmax, ?Hmeta, ?Hcols2, ?Herr, ?Hstop, ?Hbound;
    try done.
  - split; [intros _; apply life_tables0; by rewrite Hcols|by eexists].
  - intros cols' fields i c' [= <-] Hfields Hc'.
    apply list_lookup_insert_Some in Hc' as [(-> & <- & _)|[Hne Hc']].
    + rewrite Hf1. eauto.
    + eauto.
  - lia.
  - intros a' Ha'. rewrite Hsame by lia.
    rewrite live_grown_old by lia. auto.
  - intros a' Hge' Hlive'.
    destruct (decide (a' = length (mem st))) as [->|Hne].
    { exists (<[k := c1]> cols), k, c1.
      split_and!; [done|by apply list_lookup_insert_eq|done]. }
    apply Hsome in Hlive'.
    destruct (decide (a' < length (mem st))%nat) as [Hlt'|Hge''].
    2:{ rewrite live_grown_beyond in Hlive' by lia. by destruct Hlive'. }
    destruct (decide (a' = a)) as [->|Hne'].
    { rewrite live_grown_released in Hlive' by done. by destruct Hlive'. }
    rewrite live_grown_old in Hlive' by done.
    destruct (life_heap_new0 a' Hge' Hlive') as (cols' & i & c' & Hcols' & Hc' & Ha').
    rewrite Hcols in Hcols'. injection Hcols' as <-.
    exists (<[k := c1]> cols), i, c'. split_and!; [done| |done].
    rewrite list_lookup_insert_ne; [done|]. intros ->. congruence.
  - intros cols' i c' a' [= <-] Hc' Ha'.
    apply list_lookup_insert_Some in Hc' as [(-> & <- & _)|[Hne Hc']].
    + rewrite Hb1 in Ha'. injection Ha' as <-. lia.
    + eauto.
Qed.

Lemma lifetime_read s L kp m0 k st st' :
  Inv st → lifetime s L kp m0 st → read_does k st st' →
  lifetime s L kp m0 st'.
Proof.
  intros HI Hlife Hread.
  destruct Hread as [|cols bs c b a m2 Hcols Hbs Hc Hb Hnull Hfit Ha Hpoke
                     |cols bs c b a blk Hcols Hbs Hc Hb Hnull Htrunc Ha Hlive Hv
                     |cols bs c b a blk d m2 m3 Hcols Hbs Hc Hb Hnull Htrunc Ha Hlive
                        Hv Hlen Hm2 Hm3].
  - done.
  - pose proof Hlife as [].
    pose proof (life_buffers0 _ _ _ _ Hcols Hc Ha) as Hge.
    split; norm; try done.
    + apply poke_length in Hpoke. lia.
    + intros a' Ha'. rewrite <- life_heap_old0 by done.
      eapply poke_other; [done|]. intros [= ->]. lia.
    + intros a' Hge' Hlive'. apply life_heap_new0; [done|].
      by apply (poke_live _ _ _ _ _ a' Hpoke).
  - unfold refetched.
    eapply (lifetime_grown _ _ _ _ st cols k c a blk
              (grown_column c (length (mem st)))); try done; norm;
      rewrite ?called_errtext, ?called_bound; try done.
    apply length_grown.
  - unfold refetched.
    assert (length m3 = S (length (mem st)) ∧
            (∀ a', a' ≠ length (mem st) →
               live m3 a' = live (grown_mem (mem st) a c blk) a') ∧
            (∀ a', is_Some (live m3 a') →
               is_Some (live (grown_mem (mem st) a c blk) a'))) as (Hl3 & Hs3 & Hi3).
    { destruct Hm3 as [->|Hpoke].
      - split_and!.
        + apply memcpy_length in Hm2. by rewrite Hm2, length_grown.
        + intros a' Hne. eapply memcpy_other; [done|congruence].
        + intros a' Hlive'. by apply (memcpy_live _ _ _ _ a' Hm2).
      - split_and!.
        + apply memcpy_length in Hm2. apply poke_length in Hpoke.
          by rewrite Hpoke, Hm2, length_grown.
        + intros a' Hne. erewrite poke_other by (done || congruence).
          eapply memcpy_other; [done|congruence].
        + intros a' Hlive'. apply (memcpy_live _ _ _ _ a' Hm2).
          by apply (poke_live _ _ _ _ _ a' Hpoke). }
    eapply (lifetime_grown _ _ _ _ st cols k c a blk
              (grown_column c (length (mem st)))); try done; norm;
      rewrite ?called_errtext, ?called_bound; try done.
Qed.

(* ------------------------------------------------------------------ *)
(** ** The runs of a client *)

Lemma run_final calls st :
  is_Some (run calls st) → ∃ res, run calls st = Some (res, final calls st).
Proof.
  unfold final. intros [[res st'] ->]. by exists res.
Qed.

(** A property the three state-changing calls keep holds after a run. *)
Lemma run_keeps (P : state → Prop) :
  (∀ st st', P st → after (MysqlResultSet_next st) st' → P st') →
  (∀ idx st st', P st → after (MysqlResultSet_getString idx st) st' → P st') →
  (∀ idx st st', P st → after (MysqlResultSet_getBlob idx st) st' → P st') →
  ∀ calls st res st', P st → run calls st = Some (res, st') → P st'.
Proof.
  intros Hnext Hstring Hblob.
  induction calls as [|[|idx|idx] calls IH]; intros st res st' HP; simpl.
  - by intros [= _ <-].
  - pose proof (Hnext st) as Hstep.
    destruct (MysqlResultSet_next st) as [b st1|e st1|]; [..|done];
      destruct (run calls st1) as [[res1 st2]|] eqn:Hrun; simpl; try done;
      intros [= _ <-]; (eapply IH; [|done]); by apply Hstep.
  - pose proof (Hstring idx st) as Hstep.
    destruct (MysqlResultSet_getString idx st) as [p st1|e st1|]; [..|done];
      intros Hrun; (eapply IH; [|done]); by apply Hstep.
  - pose proof (Hblob idx st) as Hstep.
    destruct (MysqlResultSet_getBlob idx st) as [p st1|e st1|]; [..|done];
      intros Hrun; (eapply IH; [|done]); by apply Hstep.
Qed.

Lemma run_lifetime s L kp m calls res st :
  executed s → run calls (new_state s L kp m) = Some (res, st) →
  Inv st ∧ lifetime s L kp m st.
Proof.
  intros Hexec.
  apply (run_keeps (λ st, Inv st ∧ lifetime s L kp m st)).
  - intros st0 st' [HI Hlife] Hafter.
    split; [by eapply next_Inv|by eapply lifetime_next].
  - intros idx st0 st' [HI Hlife] Hafter.
    split; [by eapply getString_Inv|].
    eapply lifetime_read; [done..|]. by apply getString_cases.
  - intros idx st0 st' [HI Hlife] Hafter.
    split; [by eapply getBlob_Inv|].
    eapply lifetime_read; [done..|]. by apply getBlob_cases.
  - split; [by apply new_Inv|apply lifetime_new].
Qed.

(* ------------------------------------------------------------------ *)
(** ** The column count and the column names *)

(** X7. [MysqlResultSet_getColumnCount] returns the field count of the
    statement as [MysqlResultSet_new] read it, converted to [int], and
    no call of [next], [getString] or [getBlob] changes it. *)
Theorem getColumnCount_is_fixed s L kp m calls res st :
  executed s → run calls (new_state s L kp m) = Some (res, st) →
  MysqlResultSet_getColumnCount st = Ok (to_int (mysql_stmt_field_count s)) st.
Proof.
  intros Hexec Hrun.
  destruct (run_lifetime _ _ _ _ _ _ _ Hexec Hrun) as [_ []].
  unfold MysqlResultSet_getColumnCount.
  erewrite bind_Ok by reflexivity. by rewrite life_count0.
Qed.

Lemma getColumnCount_is_fixed_witness :
  let st := final [Next; GetString 2; Next; Next]
              (new_state (sample_stmt sample_rows []) 0 0 []) in
  MysqlResultSet_getColumnCount st = Ok 3 st.
Proof.
  intros st.
  destruct (run_final [Next; GetString 2; Next; Next]
              (new_state (sample_stmt sample_rows []) 0 0 [])) as [res Hrun];
    [vm_compute; by eexists|].
  apply (getColumnCount_is_fixed (sample_stmt sample_rows []) 0 0 []
           [Next; GetString 2; Next; Next] res st).
  - apply sample_executed, sample_rows_ok.
  - exact Hrun.
Defined.

(** X8. On a cursor constructed with metadata, after any calls of
    [next], [getString] and [getBlob], [MysqlResultSet_getColumnName]
    with an index from 1 to the column count returns the name of the
    field [mysql_fetch_field_direct] gave for that column at the
    construction, and changes nothing. *)
Theorem getColumnName_names_the_field s L kp m calls res st fields idx f :
  executed s → metadata s = Some fields →
  run calls (new_state s L kp m) = Some (res, st) →
  1 ≤ idx ≤ to_int (mysql_stmt_field_count s) →
  mysql_fetch_field_direct fields (idx - 1) = Some f →
  MysqlResultSet_getColumnName idx st = Ok (Some (name f)) st.
Proof.
  intros Hexec Hmeta Hrun Hidx Hf.
  destruct (run_lifetime _ _ _ _ _ _ _ Hexec Hrun) as [HI Hlife].
  pose proof Hlife as [].
  pose proof (to_int_range (mysql_stmt_field_count s)) as Hrange.
  destruct (Z.leb_spec (to_int (mysql_stmt_field_count s)) 0); [lia|].
  rewrite Hmeta in life_meta0.
  destruct life_tables0 as [_ [cols Hcols]]; [by rewrite life_meta0|].
  pose proof HI as [Ht _ _ _ _ _]. rewrite Hcols in Ht.
  destruct (bind (R st)) as [bs|]; [|done]. destruct Ht as [Hlc _ _ _ _].
  rewrite life_count0 in Hlc.
  destruct (slot_lookup cols idx _ Hidx Hlc) as [c Hc].
  rewrite <- slot_eq, fetch_field_direct_nat in Hf by lia.
  unfold MysqlResultSet_getColumnName.
  erewrite bind_Ok by reflexivity. rewrite life_count0.
  rewrite (to_int_small (idx - 1)) by lia.
  destruct (Z.leb_spec (to_int (mysql_stmt_field_count s)) 0); [lia|].
  destruct (Z.ltb_spec (idx - 1) 0); [lia|].
  destruct (Z.ltb_spec (to_int (mysql_stmt_field_count s)) (idx - 1)); [lia|].
  cbn [orb]. rewrite <- slot_eq by lia.
  erewrite bind_Ok by (by eapply column_at_eq).
  rewrite (life_fields0 _ _ _ _ Hcols life_meta0 Hc), Hf. done.
Qed.

Lemma getColumnName_names_the_field_witness :
  let st := final [Next; GetString 2; Next; Next]
              (new_state (sample_stmt sample_rows []) 0 0 []) in
  MysqlResultSet_getColumnName 2 st = Ok (Some "body") st.
Proof.
  intros st.
  destruct (run_final [Next; GetString 2; Next; Next]
              (new_state (sample_stmt sample_rows []) 0 0 [])) as [res Hrun];
    [vm_compute; by eexists|].
  apply (getColumnName_names_the_field (sample_stmt sample_rows []) 0 0 []
           [Next; GetString 2; Next; Next] res st
           sample_fields 2 {| name := "body" |}).
  - apply sample_executed, sample_rows_ok.
  - reflexivity.
  - exact Hrun.
  - vm_compute. split; discriminate.
  - reflexivity.
Defined.

(* ------------------------------------------------------------------ *)
(** ** Teardown of a cursor with its tables *)

(** The outcome of [MysqlResultSet_free] after any run, when the
    construction did not lose the column table. *)
Lemma free_after_run s L kp m calls res st :
  executed s →
  to_int (mysql_stmt_field_count s) ≤ 0 ∨ is_Some (metadata s) →
  run calls (new_state s L kp m) = Some (res, st) →
  ∃ m', MysqlResultSet_free st = Ok tt (m', released (R st) (stmt st)) ∧
    (∀ a, (a < length m)%nat → live m' a = live m a) ∧
    (∀ a, (length m ≤ a)%nat → live m' a = None).
Proof.
  intros Hexec Hmeta Hrun.
  destruct (run_lifetime _ _ _ _ _ _ _ Hexec Hrun) as [HI Hlife].
  pose proof Hlife as []. pose proof HI as [Ht _ _ _ _ _].
  destruct (columns (R st)) as [cols|] eqn:Hcols.
  - destruct (bind (R st)) as [bs|] eqn:Hbs; [|done].
    destruct (free_tables _ _ _ Ht Hcols) as (m' & Hfree & _ & Hfreed & Hkept).
    exists m'. split_and!; [done| |].
    + intros a Ha. rewrite Hkept; [by apply life_heap_old0|].
      intros i c Hc Hbuf. specialize (life_buffers0 _ _ _ _ eq_refl Hc Hbuf). lia.
    + intros a Ha. destruct (live (mem st) a) as [blk|] eqn:Hlive.
      * destruct (life_heap_new0 a Ha) as (cols' & i & c & [= <-] & Hc & Hbuf);
          [by rewrite Hlive|]. by eapply Hfreed.
      * rewrite Hkept; [done|]. intros i c Hc Hbuf.
        destruct Ht as [Hlc Hlb _ Hslots _].
        destruct (lookup_lt_is_Some_2 bs i) as [b Hb];
          [rewrite Hlb, <- Hlc; eauto using lookup_lt_Some|].
        destruct (slot_live _ _ _ _ (Hslots _ _ _ Hc Hb)) as (a' & blk & ? & ? & _).
        congruence.
  - assert (to_int (mysql_stmt_field_count s) ≤ 0) as Hcc.
    { destruct Hmeta as [?|Hsome]; [done|].
      destruct (Z.leb_spec (to_int (mysql_stmt_field_count s)) 0); [done|].
      destruct life_tables0 as [_ [? ?]]; [by rewrite life_meta0|done]. }
    rewrite free_no_tables by done. rewrite life_count0.
    destruct (Z.leb_spec (to_int (mysql_stmt_field_count s)) 0); [|lia].
    exists (mem st). split_and!; [done|done|].
    intros a Ha. destruct (live (mem st) a) as [blk|] eqn:Hlive; [|done].
    destruct (life_heap_new0 a Ha) as (? & ? & ? & ? & _); [by rewrite Hlive|done].
Qed.

(** X9. After any calls on a cursor whose construction did not lose the
    column table, [MysqlResultSet_free] returns and leaves the heap of
    byte buffers as it was before [MysqlResultSet_new]: every block of
    that heap is untouched, and every column buffer allocated since, by
    the construction or by a resize, is released. *)
Theorem teardown_restores_heap s L kp m calls res st :
  executed s →
  to_int (mysql_stmt_field_count s) ≤ 0 ∨ is_Some (metadata s) →
  run calls (new_state s L kp m) = Some (res, st) →
  ∃ m' s', MysqlResultSet_free st = Ok tt (m', s') ∧
    (∀ a, (a < length m)%nat → live m' a = live m a) ∧
    (∀ a, (length m ≤ a)%nat → live m' a = None).
Proof.
  intros Hexec Hmeta Hrun.
  destruct (free_after_run _ _ _ _ _ _ _ Hexec Hmeta Hrun) as (m' & Hfree & H).
  by exists m', (released (R st) (stmt st)).
Qed.

Lemma teardown_restores_heap_witness :
  let st := final [Next; GetString 2; Next; GetBlob 1]
              (new_state (sample_stmt sample_rows []) 0 0 [Some [Some "k"%byte]]) in
  ∃ m' s', MysqlResultSet_free st = Ok tt (m', s') ∧
    (∀ a, (a < 1)%nat → live m' a = live [Some [Some "k"%byte]] a) ∧
    (∀ a, (1 ≤ a)%nat → live m' a = None).
Proof.
  intros st.
  destruct (run_final [Next; GetString 2; Next; GetBlob 1]
              (new_state (sample_stmt sample_rows []) 0 0 [Some [Some "k"%byte]]))
    as [res Hrun]; [vm_compute; by eexists|].
  apply (teardown_restores_heap (sample_stmt sample_rows []) 0 0
           [Some [Some "k"%byte]] [Next; GetString 2; Next; GetBlob 1] res st).
  - apply sample_executed, sample_rows_ok.
  - right. by eexists.
  - exact Hrun.
Defined.

(** X10. In the same situation [MysqlResultSet_free] calls
    [mysql_stmt_free_result] first, then [mysql_stmt_close] exactly when
    the cursor was constructed with [keep] equal to 0, then
    [mysql_free_result] exactly when the statement has columns, that
    is, when the construction obtained the metadata. *)
Theorem teardown_engine_calls s L kp m calls res st :
  executed s →
  to_int (mysql_stmt_field_count s) ≤ 0 ∨ is_Some (metadata s) →
  run calls (new_state s L kp m) = Some (res, st) →
  ∃ m' s', MysqlResultSet_free st = Ok tt (m', s') ∧
    log s' =
      (if 0 <? to_int (mysql_stmt_field_count s) then [call_free_meta] else []) ++
      (if kp =? 0 then [call_close] else []) ++
      call_free_result :: log (stmt st).
Proof.
  intros Hexec Hmeta Hrun.
  destruct (free_after_run _ _ _ _ _ _ _ Hexec Hmeta Hrun) as (m' & Hfree & _).
  destruct (run_lifetime _ _ _ _ _ _ _ Hexec Hrun) as [_ []].
  exists m', (released (R st) (stmt st)). split; [done|].
  rewrite released_log, life_keep0, life_meta0.
  destruct (Z.leb_spec (to_int (mysql_stmt_field_count s)) 0),
    (Z.ltb_spec 0 (to_int (mysql_stmt_field_count s))); try lia; [done|].
  destruct Hmeta as [?|[fields ->]]; [lia|done].
Qed.

Lemma teardown_engine_calls_witness :
  let st := final [Next; GetString 2]
              (new_state (sample_stmt sample_rows []) 0 1 []) in
  ∃ m' s', MysqlResultSet_free st = Ok tt (m', s') ∧
    log s' = call_free_meta :: call_free_result :: log (stmt st).
Proof.
  intros st.
  destruct (run_final [Next; GetString 2]
              (new_state (sample_stmt sample_rows []) 0 1 []))
    as [res Hrun]; [vm_compute; by eexists|].
  apply (teardown_engine_calls (sample_stmt sample_rows []) 0 1 []
           [Next; GetString 2] res st).
  - apply sample_executed, sample_rows_ok.
  - right. by eexists.
  - exact Hrun.
Defined.

(* ------------------------------------------------------------------ *)
(** ** The contents of the buffers *)

Lemma view_live m m' a n :
  live m' a = live m a → view m' (Some a) n = view m (Some a) n.
Proof. unfold view. by intros ->. Qed.

Lemma peek_live m m' a n :
  live m' a = live m a → peek m' (Some a) n = peek m (Some a) n.
Proof. unfold peek. by intros ->. Qed.

Lemma poke_view a off x m m' :
  poke (Some a) off x m = Some m' →
  peek m' (Some a) (Z.to_nat off) = Some x ∧
  ∀ n, (n ≤ Z.to_nat off)%nat → view m' (Some a) n = view m (Some a) n.
Proof.
  intros Hpoke. pose proof Hpoke as Hpoke'. unfold poke in Hpoke'.
  destruct (live m a) as [b|] eqn:Hlive; [|done].
  destruct (Z.leb_spec 0 off), (Z.ltb_spec off (Z.of_nat (length b))); try done.
  destruct (poke_defined a off x m b Hlive) as (m2 & Hm2 & Hspec); [lia|].
  rewrite Hm2 in Hpoke. by injection Hpoke as <-.
Qed.

Lemma memcpy_view a data m m' :
  memcpy (Some a) data m = Some m' → is_Some (live m a) →
  view m' (Some a) (length data) = Some data.
Proof.
  intros Hcopy [b Hlive].
  destruct (decide (length data ≤ length b)%nat) as [Hle|Hgt].
  - destruct (memcpy_defined a data m b Hlive Hle) as (m2 & Hm2 & Hspec).
    rewrite Hm2 in Hcopy. by injection Hcopy as <-.
  - unfold memcpy in Hcopy. rewrite Hlive in Hcopy.
    destruct (Nat.eqb_spec (length data) 0); [lia|].
    destruct (Nat.leb_spec (length data) (length b)); [lia|done].
Qed.

(** After a row was delivered, every bound buffer starts with the bytes
    delivered for its value. *)
Lemma store_row_view bs : ∀ r cols m t cols' m',
  store_row bs r cols m = Some (t, cols', m') →
  (∀ i j bi bj, bs !! i = Some bi → bs !! j = Some bj →
     bind_buffer bi = bind_buffer bj → i = j) →
  (∀ j b, bs !! j = Some b → ∃ a, bind_buffer b = Some a ∧ is_Some (live m a)) →
  ∀ j b v a, bs !! j = Some b → r !! j = Some v → bind_buffer b = Some a →
    view m' (Some a) (length (delivered_bytes b v 0))
      = Some (delivered_bytes b v 0).
Proof.
  induction bs as [|b0 bs IH]; intros r cols m t cols' m' Hstore Hdist Hlive
    j b v a Hb Hv Ha; [done|].
  destruct r as [|v0 r]; [done|]. simpl in Hstore.
  destruct (store_value b0 v0 0 cols m) as [[[t1 cols1] m1]|] eqn:Hv0; [|done].
  simpl in Hstore.
  destruct (store_row bs r cols1 m1) as [[[t2 cols2] m2]|] eqn:Hrest; [|done].
  simpl in Hstore. injection Hstore as _ _ <-.
  apply store_value_mem in Hv0.
  destruct (Hlive 0%nat b0 eq_refl) as (a0 & Ha0 & Hlive0).
  destruct j as [|j]; simpl in Hb, Hv.
  - injection Hb as <-. injection Hv as <-.
    rewrite Ha0 in Ha. injection Ha as <-. rewrite Ha0 in Hv0.
    erewrite view_live; [by eapply memcpy_view|].
    eapply store_row_other; [done|]. intros j b' Hb' Heq.
    specialize (Hdist (S j) 0%nat b' b0 Hb' eq_refl). rewrite Heq, Ha0 in Hdist.
    by specialize (Hdist eq_refl).
  - eapply (IH r cols1 m1 _ _ _ Hrest); [| |done..].
    + intros i1 i2 b1 b2 H1 H2 Heq.
      specialize (Hdist (S i1) (S i2) b1 b2 H1 H2 Heq). lia.
    + intros j' b' Hb'. destruct (Hlive (S j') b' Hb') as (a' & Ha' & Hl').
      exists a'. split; [done|].
      erewrite memcpy_other; [done|done|]. rewrite Ha0. intros [= ->].
      specialize (Hdist (S j') 0%nat b' b0 Hb' eq_refl). rewrite Ha', Ha0 in Hdist.
      by specialize (Hdist eq_refl).
Qed.

Lemma length_delivered b (d : list byte) :
  (length (delivered_bytes b (Some d) 0) ≤ length d)%nat.
Proof.
  unfold delivered_bytes. change (Z.to_nat 0) with 0%nat.
  rewrite drop_0, length_take. lia.
Qed.

(** Reading a column keeps the buffers holding the current row, unless
    a re-fetch fails. *)
Lemma holds_read k st st' r :
  Inv st → current (stmt st) = Some r → holds st r → read_does k st st' →
  (∀ cols bs c b,
     columns (R st) = Some cols → bind (R st) = Some bs →
     cols !! k = Some c → bs !! k = Some b →
     bind_buffer_length b < real_length c →
     is_Some (column_value (stmt st) k)) →
  holds st' r.
Proof.
  intros HI Hr Hholds Hread Hvalue.
  destruct Hread as [|cols bs c b a m2 Hcols Hbs Hc Hb Hnull Hfit Ha Hpoke
                     |cols bs c b a blk Hcols Hbs Hc Hb Hnull Htrunc Ha Hlive Hv
                     |cols bs c b a blk d m2 m3 Hcols Hbs Hc Hb Hnull Htrunc Ha Hlive
                        Hv Hlen Hm2 Hm3].
  - done.
  - pose proof (Inv_tables _ _ _ HI Hcols Hbs) as [_ _ _ _ Hdist].
    intros cols' bs' i ci bi d ai Hcols' Hbs' Hci Hbi Hri Hai.
    norm_in Hcols'. norm_in Hbs'. norm.
    rewrite Hcols in Hcols'. rewrite Hbs in Hbs'.
    injection Hcols' as <-. injection Hbs' as <-.
    rewrite <- (Hholds _ _ _ _ _ _ _ Hcols Hbs Hci Hbi Hri Hai).
    destruct (decide (ai = a)) as [->|Hne].
    + assert (i = k) as -> by (eapply Hdist; [done..|congruence]).
      destruct HI as [_ _ Hrow _ _ _].
      destruct (Hrow _ _ _ _ _ Hr Hcols Hc Hri) as [_ Hlen].
      apply (poke_view _ _ _ _ _ Hpoke).
      pose proof (length_delivered bi d). lia.
    + apply view_live. eapply poke_other; [done|congruence].
  - destruct (Hvalue _ _ _ _ Hcols Hbs Hc Hb Htrunc) as [? ?]. congruence.
  - pose proof (Inv_tables _ _ _ HI Hcols Hbs) as [_ _ _ Hslots Hdist].
    pose proof (live_lt _ _ _ Hlive) as Hlt.
    assert (view m3 (Some (length (mem st))) (length d) = Some d) as Hnew.
    { assert (view m2 (Some (length (mem st))) (length d) = Some d) as Hview.
      { eapply memcpy_view; [done|]. by rewrite live_grown_new. }
      destruct Hm3 as [->|Hpoke]; [done|]. rewrite <- Hview.
      apply (poke_view _ _ _ _ _ Hpoke). lia. }
    assert (∀ a', a' ≠ a → (a' < length (mem st))%nat →
              live m3 a' = live (mem st) a') as Hold.
    { intros a' Hne Hlt'.
      rewrite <- (live_grown_old (mem st) a c blk a') by done.
      rewrite <- (memcpy_other _ _ _ _ a' Hm2) by (intros [=]; lia).
      destruct Hm3 as [->|Hpoke]; [done|].
      eapply poke_other; [done|]. intros [=]. lia. }
    intros cols' bs' i ci bi d' ai Hcols' Hbs' Hci Hbi Hri Hai.
    unfold refetched in Hcols', Hbs'. norm_in Hcols'. norm_in Hbs'. norm.
    injection Hcols' as <-. injection Hbs' as <-.
    destruct (decide (i = k)) as [->|Hne].
    + rewrite list_lookup_insert_eq in Hci by eauto using lookup_lt_Some.
      rewrite list_lookup_insert_eq in Hbi by eauto using lookup_lt_Some.
      injection Hci as <-. injection Hbi as <-. simpl in Hai. injection Hai as <-.
      destruct (column_value_Some _ _ _ Hv) as (r' & Hr' & Hrk).
      rewrite Hr in Hr'. injection Hr' as <-. rewrite Hri in Hrk.
      injection Hrk as ->. by rewrite delivered_whole.
    + rewrite list_lookup_insert_ne in Hci by done.
      rewrite list_lookup_insert_ne in Hbi by done.
      rewrite <- (Hholds _ _ _ _ _ _ _ Hcols Hbs Hci Hbi Hri Hai).
      apply view_live, Hold.
      * intros ->. apply Hne. eapply Hdist; [done..|congruence].
      * destruct (slot_live _ _ _ _ (Hslots _ _ _ Hci Hbi)) as (a' & blk' & ? & Hl & _).
        apply live_lt in Hl. congruence.
Qed.

(* ------------------------------------------------------------------ *)
(** ** Rows and their values, with any row limit *)

(** The state in which a ready cursor calls [mysql_stmt_fetch], with or
    without a row limit. *)
Lemma ready_before_fetch_any L rows j last st cols bs :
  ready L rows j last st → (L ≠ 0 → - 2 ^ 31 ≤ j + 1 < 2 ^ 31) →
  columns (R st) = Some cols → bind (R st) = Some bs →
  let st1 := before_fetch st in
  Inv st1 ∧ stop (R st1) = false ∧ maxRows (R st1) = L ∧
  currentRow (R st1) = (if L =? 0 then j else j + 1) ∧
  columnCount (R st1) = columnCount (R st) ∧
  columns (R st1) = Some cols ∧ bind (R st1) = Some bs ∧ mem st1 = mem st ∧
  faults (stmt st1) = [] ∧ pending (stmt st1) = rows ∧
  bound (stmt st1) = Some bs.
Proof.
  intros [HI Hf Hstop Hmax Hrow Hpend Hwidth Hlast Hcur Hsync] Hj Hcols Hbs st1.
  split; [by apply Inv_before_fetch|].
  unfold st1, before_fetch. rewrite needRebind_counted.
  assert (counted (R st) =
          set_currentRow (R st) (if L =? 0 then j else j + 1)) as Hcounted.
  { unfold counted. rewrite Hmax. destruct (Z.eqb_spec L 0).
    - destruct (R st). simpl in *. by subst.
    - by rewrite Hrow, to_int_small by auto. }
  destruct (needRebind (R st)) eqn:Hneed; rewrite Hcounted; norm;
    autorewrite with stmt; rewrite ?called_faults, ?Hf.
  - by split_and!.
  - destruct Hsync as [?|Hsync]; [done|]. rewrite Hsync. by split_and!.
Qed.

(** The flag of a delivered row tells whether a value was cut. *)
Lemma store_row_flag bs : ∀ r cols m t cols' m',
  store_row bs r cols m = Some (t, cols', m') → t = row_truncated bs r.
Proof.
  induction bs as [|b bs IH]; intros r cols m t cols' m' Hstore.
  { simpl in Hstore. by simplify_eq. }
  destruct r as [|v r]; [simpl in Hstore; by simplify_eq|].
  simpl in Hstore.
  destruct (store_value b v 0 cols m) as [[[t1 cols1] m1]|] eqn:Hv; [|done].
  simpl in Hstore.
  destruct (store_row bs r cols1 m1) as [[[t2 cols2] m2]|] eqn:Hrest; [|done].
  simpl in Hstore. injection Hstore as <- _ _.
  rewrite (IH _ _ _ _ _ _ Hrest). simpl. f_equal.
  unfold store_value in Hv. destruct v as [d|]; simpl in Hv.
  - destruct (store_is_null _ _ _); [|done]. simpl in Hv.
    destruct (store_length _ _ _); [|done]. simpl in Hv.
    destruct (memcpy _ _ _); [|done]. simpl in Hv.
    injection Hv as <- _ _. by rewrite Z.sub_0_r.
  - destruct (store_is_null _ _ _); [|done]. simpl in Hv. by injection Hv as <- _ _.
Qed.

(** A ready cursor below its limit delivers the next row: the columns
    are in sync with it, the buffers hold its values, and [lastError]
    tells whether a value was cut. *)
Lemma ready_delivers L r rest j last st :
  ready L (r :: rest) j last st → limit_reached (R st) = false →
  (L ≠ 0 → - 2 ^ 31 ≤ j + 1 < 2 ^ 31) →
  ∃ st', MysqlResultSet_next st = Ok true st' ∧
    ready L rest (if L =? 0 then j else j + 1) (Some r) st' ∧ holds st' r ∧
    ∀ bs, bind (R st) = Some bs →
      lastError (R st') =
        if row_truncated bs r then MYSQL_DATA_TRUNCATED else MYSQL_OK.
Proof.
  intros Hready Hlim Hj.
  destruct (ready_tables _ _ _ _ _ Hready) as (cols & bs & Hcols & Hbs & Htab).
  pose proof Hready as [HI Hf Hstop Hmax Hrow Hpend Hwidth Hlast Hcur Hsync].
  destruct (ready_before_fetch_any _ _ _ _ _ _ _ Hready Hj Hcols Hbs)
    as (HI1 & Hstop1 & Hmax1 & Hrow1 & Hcc1 & Hcols1 & Hbs1 & Hmem1 & Hf1 & Hpend1 & Hbound1).
  pose proof (fetch_row_Inv (before_fetch st)) as Hkeep.
  rewrite next_fetches by (rewrite ?Hbs, ?faulty_nil; eauto).
  rewrite fetch_row_eq, fetch_eq in *.
  rewrite faulty_nil, Hpend1, Hbound1, Hcols1, Hmem1 in * by done.
  change (default [] (Some bs)) with bs in *.
  change (default [] (Some cols)) with cols in *.
  destruct Htab as [Hlc Hlb Hcount Hslots Hdist].
  assert (∀ i b, bs !! i = Some b → ∃ c a blk, cols !! i = Some c ∧
            buffer c = Some a ∧ bind_buffer b = Some a ∧
            live (mem st) a = Some blk ∧
            0 ≤ bind_buffer_length b ∧
            length blk = Z.to_nat (bind_buffer_length b + 1)) as Hbufs.
  { intros i b Hb.
    destruct (lookup_lt_is_Some_2 cols i) as [c Hc];
      [rewrite Hlc, <- Hlb; eauto using lookup_lt_Some|].
    pose proof (Hslots _ _ _ Hc Hb) as Hslot.
    destruct (slot_live _ _ _ _ Hslot) as (a & blk & Ha & Hlive & Hlen).
    destruct Hslot as [_ Hbb Hcap _ _ _ _].
    exists c, a, blk. split_and!; congruence. }
  destruct (store_row_defined bs r 0 cols (mem st)) as [[[t cols1] m1] Hstore].
  { by eapply pointers_of_tables. }
  { lia. }
  { intros i b Hb. destruct (Hbufs i b Hb) as (c & a & blk & _ & _ & ? & Hl & ? & Hlen).
    exists a, (length blk). unfold blen. rewrite Hl. split_and!; [done|done|lia|lia]. }
  rewrite Hstore in *. cbn [mbind option_bind] in *.
  set (rc := if t then MYSQL_DATA_TRUNCATED else MYSQL_OK) in *.
  assert ((rc =? 1) = false ∧ (rc =? MYSQL_OK) || (rc =? MYSQL_DATA_TRUNCATED) = true)
    as [Hrc1 Hrc2] by (unfold rc; by destruct t).
  rewrite Hrc1, Hrc2 in *.
  eexists. split; [reflexivity|].
  apply Forall_cons in Hwidth as [Hr Hrest].
  split; [|split].
  3:{ intros bs' Hbs'. rewrite Hbs in Hbs'. injection Hbs' as <-.
      unfold fetched. rewrite Hcols1. norm. unfold rc.
      by rewrite (store_row_flag _ _ _ _ _ _ _ Hstore). }
  - split; unfold fetched; rewrite ?Hcols1; norm; autorewrite with stmt;
      rewrite ?called_faults, ?Hf1; try done.
    + apply Hkeep; [done|done|]. simpl. unfold fetched. by rewrite Hcols1.
    + by rewrite Hcc1.
    + by rewrite Hcc1.
    + right. congruence.
  - intros cols' bs' i c1 b d a Hcols' Hbs' Hc1 Hb Hri Ha.
    unfold fetched in Hcols', Hbs'. rewrite Hcols1 in Hcols', Hbs'.
    norm_in Hcols'. norm_in Hbs'. rewrite Hbs1 in Hbs'.
    injection Hcols' as <-. injection Hbs' as <-.
    unfold fetched. norm.
    destruct (Hbufs i b Hb) as (c & a' & blk & Hc & Hca & Hba & Hl & _).
    pose proof Hstore as Hstore'.
    apply store_row_inv with (k := 0%nat) in Hstore' as (_ & _ & _ & Hcols');
      [|by eapply pointers_of_tables; split|lia].
    rewrite (Hcols' _ _ Hc) in Hc1. rewrite decide_True in Hc1 by lia.
    rewrite Nat.sub_0_r, Hri, Hb in Hc1. injection Hc1 as <-.
    simpl in Ha. rewrite Hca in Ha. injection Ha as <-.
    eapply (store_row_view bs r cols (mem st) t cols1 m1 Hstore); [| |done..].
    + intros i1 i2 b1 b2 H1 H2 Heq.
      destruct (Hbufs i1 b1 H1) as (c1 & a1 & ? & Hc1 & Hca1 & Hba1 & _).
      destruct (Hbufs i2 b2 H2) as (c2 & a2 & ? & Hc2 & Hca2 & Hba2 & _).
      eapply Hdist; [done..|congruence].
    + intros i' b' Hb'. destruct (Hbufs i' b' Hb') as (? & a1 & ? & _ & _ & ? & Hl1 & _).
      exists a1. split; [done|]. by rewrite Hl1.
Qed.

(** Reading columns of a ready cursor with a current row keeps it ready
    and keeps the buffers holding the row. *)
Lemma ready_getString_holds L rows j r st idx :
  ready L rows j (Some r) st → holds st r →
  match MysqlResultSet_getString idx st with
  | Ok _ st' | Throw _ st' => ready L rows j (Some r) st' ∧ holds st' r
  | Undefined => False
  end.
Proof.
  intros Hready Hholds.
  pose proof (ready_getString _ _ _ _ _ idx Hready) as Hkeep.
  pose proof Hready as [HI _ _ _ _ _ _ Hlast _ _].
  pose proof (getString_cases st idx) as Hcases.
  assert (∀ st', after (MysqlResultSet_getString idx st) st' → holds st' r) as H.
  { intros st' Hafter. eapply holds_read; [done..|by apply Hcases|].
    intros cols bs c b. by apply (ready_column_value L rows j (Some r) st). }
  destruct (MysqlResultSet_getString idx st); [split; [done|by apply H]..|done].
Qed.

Lemma ready_getBlob_holds L rows j r st idx :
  ready L rows j (Some r) st → holds st r →
  match MysqlResultSet_getBlob idx st with
  | Ok _ st' | Throw _ st' => ready L rows j (Some r) st' ∧ holds st' r
  | Undefined => False
  end.
Proof.
  intros Hready Hholds.
  pose proof (ready_getBlob _ _ _ _ _ idx Hready) as Hkeep.
  pose proof Hready as [HI _ _ _ _ _ _ Hlast _ _].
  pose proof (getBlob_cases st idx) as Hcases.
  assert (∀ st', after (MysqlResultSet_getBlob idx st) st' → holds st' r) as H.
  { intros st' Hafter. eapply holds_read; [done..|by apply Hcases|].
    intros cols bs c b. by apply (ready_column_value L rows j (Some r) st). }
  destruct (MysqlResultSet_getBlob idx st); [split; [done|by apply H]..|done].
Qed.

(** At the end of the rows or at the limit [MysqlResultSet_next] returns
    false. *)
Lemma ready_ends L rows j last st :
  ready L rows j last st → rows = [] ∨ limit_reached (R st) = true →
  ∃ st', MysqlResultSet_next st = Ok false st' ∧ drained st'.
Proof.
  intros Hready Hend.
  destruct (ready_tables _ _ _ _ _ Hready) as (cols & bs & Hcols & Hbs & Htab).
  pose proof Hready as [HI Hf Hstop Hmax Hrow Hpend Hwidth Hlast Hcur Hsync].
  destruct (limit_reached (R st)) eqn:Hlim.
  - eexists. split; [by apply next_limit|].
    split; norm.
    + eapply next_Inv; [exact HI|]. by rewrite next_limit.
    + done.
    + by left.
    + by rewrite columns_counted, Hcols.
  - destruct Hend as [->|?]; [|done].
    apply drained_next. by eapply ready_drained.
Qed.

Lemma limit_reached_ready L rows j last st :
  ready L rows j last st →
  limit_reached (R st) = negb (L =? 0) && (L <=? j).
Proof. intros [_ _ _ Hmax Hrow _ _ _ _ _]. unfold limit_reached. by rewrite Hmax, Hrow. Qed.

(** The runs of a ready cursor, with any row limit: the results of
    [MysqlResultSet_next], and the state after the run. *)
Lemma serve_run calls : ∀ L rows j last st,
  ready L rows j last st → holds_last st last →
  L ≤ INT_MAX → (L ≠ 0 → 0 ≤ j) →
  let k := next_calls calls in
  let t := if L =? 0 then length rows else rows_allowed L rows j in
  ∃ st', run calls st = Some (rows_then_end k t, st') ∧
    if (k <=? t)%nat
    then ready L (drop k rows) (if L =? 0 then j else j + Z.of_nat k)
           (last_after k rows last) st' ∧
         holds_last st' (last_after k rows last)
    else drained st'.
Proof.
  induction calls as [|[|idx|idx] calls IH];
    intros L rows j last st Hready Hholds HL Hj; cbn [next_calls run].
  - exists st. split; [done|]. cbn [Nat.leb last_after].
    rewrite drop_0, Z.add_0_r. by destruct (L =? 0).
  - cbv zeta. unfold rows_allowed.
    pose proof (limit_reached_ready _ _ _ _ _ Hready) as Hlim.
    destruct rows as [|r rest].
    { destruct (ready_ends _ _ _ _ _ Hready) as (st1 & -> & Hd1); [by left|].
      destruct (drained_run calls st1 Hd1) as (st' & -> & Hd').
      exists st'. replace (if L =? 0 then length [] else _) with 0%nat
        by (by destruct (L =? 0)).
      cbn [Nat.leb]. rewrite rows_then_end_false. by split. }
    destruct (negb (L =? 0) && (L <=? j)) eqn:Hreached.
    + destruct (ready_ends _ _ _ _ _ Hready) as (st1 & -> & Hd1); [by right|].
      destruct (drained_run calls st1 Hd1) as (st' & -> & Hd').
      exists st'. destruct (Z.eqb_spec L 0); [done|].
      destruct (Z.leb_spec L j); [|done].
      replace (Z.to_nat (L - j)) with 0%nat by lia.
      rewrite Nat.min_0_r. cbn [Nat.leb]. rewrite rows_then_end_false. by split.
    + unfold INT_MAX in HL.
      destruct (ready_delivers L r rest j last st Hready Hlim)
        as (st1 & -> & Hr1 & Hh1 & _).
      { intros HL0. destruct (Z.eqb_spec L 0); [done|].
        destruct (Z.leb_spec L j); [done|]. lia. }
      destruct (IH _ _ _ _ _ Hr1 Hh1) as (st' & -> & Hend);
        [unfold INT_MAX; lia|destruct (L =? 0); lia|].
      exists st'. cbv zeta in Hend. unfold rows_allowed in Hend.
      destruct (Z.eqb_spec L 0) as [HL0|HL0].
      * cbn [length Nat.leb]. rewrite rows_then_end_true. split; [done|].
        destruct (_ <=? _)%nat; [|done]. cbn [drop last_after].
        destruct (next_calls calls); cbn [last_after] in *; done.
      * destruct (Z.leb_spec L j); [done|].
        replace (Z.to_nat (L - j)) with (S (Z.to_nat (L - (j + 1)))) by lia.
        cbn [length Nat.min Nat.leb]. rewrite rows_then_end_true. split; [done|].
        destruct (_ <=? _)%nat; [|done]. cbn [drop last_after].
        replace (j + Z.of_nat (S (next_calls calls)))
          with (j + 1 + Z.of_nat (next_calls calls)) by lia.
        destruct (next_calls calls); cbn [last_after] in *; done.
  - destruct last as [r|].
    + pose proof (ready_getString_holds _ _ _ _ _ idx Hready Hholds) as H.
      destruct (MysqlResultSet_getString idx st);
        [destruct H; by apply IH..|done].
    + pose proof (ready_getString _ _ _ _ _ idx Hready) as H.
      destruct (MysqlResultSet_getString idx st); [by apply IH..|done].
  - destruct last as [r|].
    + pose proof (ready_getBlob_holds _ _ _ _ _ idx Hready Hholds) as H.
      destruct (MysqlResultSet_getBlob idx st);
        [destruct H; by apply IH..|done].
    + pose proof (ready_getBlob _ _ _ _ _ idx Hready) as H.
      destruct (MysqlResultSet_getBlob idx st); [by apply IH..|done].
Qed.

Lemma before_fetch_currentRow st :
  currentRow (R (before_fetch st)) = currentRow (counted (R st)).
Proof. unfold before_fetch. by destruct (needRebind (counted (R st))). Qed.

Lemma unlimited_next st st' :
  unlimited st → after (MysqlResultSet_next st) st' → unlimited st'.
Proof.
  intros [Hmax Hstop Hrow] Hafter.
  destruct (next_cases st) as [Hundef|Hcase]; [by rewrite Hundef in Hafter|].
  assert (limit_reached (R st) = false) as Hlim0.
  { unfold limit_reached. by rewrite Hmax. }
  assert (counted (R st) = R st) as Hcounted.
  { unfold counted. by rewrite Hmax. }
  destruct (before_fetch_same st) as (Hs1 & _ & Hm1 & _ & _ & _ & Hcols & _).
  pose proof (before_fetch_currentRow st) as Hr1. rewrite Hcounted in Hr1.
  inversion Hcase as [Hs Heq|Hs Hlim Heq|bs Hs Hlim Hneed Hbs Hfault Heq
                     |Hs Hlim Hready Hfault Heq|Hs Hlim Hready Hfault Hpend Heq
                     |r rest t cols1 m1 Hs Hlim Hready Hfault Hpend Hstore Heq];
    try congruence;
    rewrite <- Heq in Hafter; simpl in Hafter; subst st';
    (split; unfold fetched; rewrite ?Hcols; destruct (columns (R st)); norm;
     congruence).
Qed.

Lemma unlimited_run calls : ∀ st res st',
  Inv st → unlimited st → run calls st = Some (res, st') → unlimited st'.
Proof.
  intros st res st' HI Hun Hrun.
  apply (run_keeps (λ st, Inv st ∧ unlimited st)) in Hrun as [_ ?]; try done.
  - intros st0 st1 [HI0 H0] Hafter.
    split; [by eapply next_Inv|by eapply unlimited_next].
  - intros idx st0 st1 [HI0 [Hmax Hstop Hrow]] Hafter.
    split; [by eapply getString_Inv|].
    pose proof (getString_frame st0 idx HI0) as Hfr.
    destruct (MysqlResultSet_getString idx st0); simpl in Hafter; [..|done];
      subst; [destruct Hfr as [[] _]|destruct Hfr]; split; congruence.
  - intros idx st0 st1 [HI0 [Hmax Hstop Hrow]] Hafter.
    split; [by eapply getBlob_Inv|].
    pose proof (getBlob_frame st0 idx HI0) as Hfr.
    destruct (MysqlResultSet_getBlob idx st0); simpl in Hafter; [..|done];
      subst; [destruct Hfr as [[] _]|destruct Hfr]; split; congruence.
Qed.

(** X11. Without a row limit ([maxRows] 0), on an engine that does not
    fail, the calls of [MysqlResultSet_next] return true once for every
    row of the result and false ever after, whatever columns are read
    in between.  The cursor is never stopped and counts no rows: after
    the end every call asks the engine again. *)
Theorem unlimited_delivers_all_rows s kp m calls :
  executed s → faults s = [] → is_Some (metadata s) →
  0 < field_count s < 2 ^ 31 →
  Forall (λ r : row, length r = Z.to_nat (field_count s)) (pending s) →
  ∃ st', run calls (new_state s 0 kp m)
           = Some (rows_then_end (next_calls calls) (length (pending s)), st') ∧
    stop (R st') = false ∧ currentRow (R st') = 0.
Proof.
  intros Hexec Hf Hmeta Hfc Hwidth.
  pose proof (new_ready s 0 kp m Hexec Hf Hmeta Hfc Hwidth) as Hready.
  destruct (serve_run calls _ _ _ _ _ Hready) as (st' & Hrun & _);
    [done|unfold INT_MAX; lia|done|].
  exists st'. split; [exact Hrun|].
  assert (unlimited (new_state s 0 kp m)) as Hun.
  { destruct Hready as [_ _ ? ? ? _ _ _ _ _]. by split. }
  by destruct (unlimited_run calls _ _ _ (new_Inv s 0 kp m Hexec) Hun Hrun).
Qed.

Lemma unlimited_delivers_all_rows_witness :
  ∃ st', run [Next; GetString 2; Next; GetBlob 1; Next; Next]
           (new_state (sample_stmt sample_rows []) 0 0 [])
           = Some ([Some true; Some true; Some false; Some false], st') ∧
    stop (R st') = false ∧ currentRow (R st') = 0.
Proof.
  apply (unlimited_delivers_all_rows (sample_stmt sample_rows []) 0 []
           [Next; GetString 2; Next; GetBlob 1; Next; Next]).
  - apply sample_executed, sample_rows_ok.
  - reflexivity.
  - by eexists.
  - simpl. lia.
  - repeat constructor.
Defined.

(* ------------------------------------------------------------------ *)
(** ** The values read *)

Lemma delivered_fits b (d : list byte) :
  Z.of_nat (length d) ≤ bind_buffer_length b →
  delivered_bytes b (Some d) 0 = d.
Proof.
  intros H. unfold delivered_bytes. change (Z.to_nat 0) with 0%nat.
  rewrite drop_0. apply take_ge. lia.
Qed.

(** [getString] on a value of the current row of a ready cursor: the
    buffer returned holds the value and the terminator. *)
Lemma ready_getString_value L rows j r st idx d :
  ready L rows j (Some r) st → holds st r →
  1 ≤ idx ≤ columnCount (R st) → r !! slot idx = Some (Some d) →
  ∃ a st', MysqlResultSet_getString idx st = Ok (Some a) st' ∧
    ready L rows j (Some r) st' ∧ holds st' r ∧ pinned (slot idx) a d st' ∧
    view (mem st') (Some a) (length d) = Some d.
Proof.
  intros Hready Hholds Hidx Hd.
  pose proof Hready as [HI _ _ _ _ _ _ Hlast _ _].
  destruct (current_column st idx r _ HI Hlast Hidx Hd)
    as (cols & bs & c & b & Hcols & Hbs & Hc & Hb & [Hnull Hlen] & _).
  pose proof (getString_spec _ _ _ _ _ _ HI Hcols Hbs Hidx Hc Hb) as Hspec.
  pose proof (ready_getString_holds _ _ _ _ _ idx Hready Hholds) as Hkeep.
  destruct (MysqlResultSet_getString idx st) as [p st'|e st'|]; [| |done].
  2:{ destruct Hspec as (_ & _ & Htrunc & Hnone & _).
      destruct (ready_column_value _ _ _ _ _ _ _ _ _ _ Hready Hcols Hbs Hc Hb Htrunc).
      congruence. }
  destruct Hkeep as [Hready' Hholds'].
  destruct Hspec as [HI' [(? & _)|(_ & a & cols' & bs' & c' & b' & blk & -> & Hcols'
    & Hbs' & Hc' & Hb' & Ha & Hrl & Hfit & Hlive & Hterm)]]; [congruence|].
  assert (is_null c' = false) as Hnull'.
  { destruct HI' as [_ _ Hrow _ _ _].
    destruct Hready' as [_ _ _ _ _ _ _ Hlast' _ _].
    by destruct (Hrow _ _ _ _ _ Hlast' Hcols' Hc' Hd). }
  exists a, st'. split_and!; [done..| |].
  - split.
    + exists cols', bs', c', b'. split_and!; [done..|congruence|lia].
    + unfold peek. rewrite Hlive.
      rewrite Hlen, Nat2Z.id in Hterm. by rewrite Hterm.
  - pose proof (Hholds' _ _ _ _ _ _ _ Hcols' Hbs' Hc' Hb' Hd Ha) as Hview.
    by rewrite (delivered_fits b' d) in Hview by lia.
Qed.

Lemma ready_getBlob_value L rows j r st idx d :
  ready L rows j (Some r) st → holds st r →
  1 ≤ idx ≤ columnCount (R st) → r !! slot idx = Some (Some d) →
  ∃ a st',
    MysqlResultSet_getBlob idx st =
      Ok (Some a, Some (to_int (Z.of_nat (length d)))) st' ∧
    view (mem st') (Some a) (length d) = Some d.
Proof.
  intros Hready Hholds Hidx Hd.
  pose proof Hready as [HI _ _ _ _ _ _ Hlast _ _].
  destruct (current_column st idx r _ HI Hlast Hidx Hd)
    as (cols & bs & c & b & Hcols & Hbs & Hc & Hb & [Hnull Hlen] & _).
  pose proof (getBlob_spec _ _ _ _ _ _ HI Hcols Hbs Hidx Hc Hb) as Hspec.
  pose proof (ready_getBlob_holds _ _ _ _ _ idx Hready Hholds) as Hkeep.
  destruct (MysqlResultSet_getBlob idx st) as [p st'|e st'|]; [| |done].
  2:{ destruct Hspec as (_ & _ & Htrunc & Hnone & _).
      destruct (ready_column_value _ _ _ _ _ _ _ _ _ _ Hready Hcols Hbs Hc Hb Htrunc).
      congruence. }
  destruct Hkeep as [Hready' Hholds'].
  destruct Hspec as [HI' [(? & _)|(_ & a & cols' & bs' & c' & b' & -> & Hcols'
    & Hbs' & Hc' & Hb' & Ha & Hrl & Hfit)]]; [congruence|].
  exists a, st'. rewrite Hlen. split; [done|].
  pose proof (Hholds' _ _ _ _ _ _ _ Hcols' Hbs' Hc' Hb' Hd Ha) as Hview.
  by rewrite (delivered_fits b' d) in Hview by lia.
Qed.

(** The state and the current row after [k] calls of
    [MysqlResultSet_next], [k] within the rows the cursor delivers. *)
Lemma run_to_row s L kp m calls r :
  executed s → faults s = [] → is_Some (metadata s) →
  0 < field_count s < 2 ^ 31 →
  Forall (λ r : row, length r = Z.to_nat (field_count s)) (pending s) →
  L ≤ INT_MAX →
  (1 ≤ next_calls calls ≤ budget L (length (pending s)))%nat →
  pending s !! (next_calls calls - 1)%nat = Some r →
  ∃ res st rows j, run calls (new_state s L kp m) = Some (res, st) ∧
    ready L rows j (Some r) st ∧ holds st r ∧
    columnCount (R st) = field_count s ∧ (L ≠ 0 → 0 ≤ j).
Proof.
  intros Hexec Hf Hmeta Hfc Hwidth HL Hk Hr.
  pose proof (new_ready s L kp m Hexec Hf Hmeta Hfc Hwidth) as Hready.
  destruct (serve_run calls _ _ _ _ _ Hready) as (st & Hrun & Hend);
    [done|done|done|].
  cbv zeta in Hend. unfold budget, rows_allowed in *. rewrite Z.sub_0_r in *.
  destruct (Nat.leb_spec (next_calls calls)
              (if L =? 0 then length (pending s)
               else length (pending s) `min` Z.to_nat L)) as [_|Hgt]; [|lia].
  destruct (next_calls calls) as [|k] eqn:Hcalls; [lia|].
  cbn [last_after] in Hend. replace (S k - 1)%nat with k in Hr by lia.
  rewrite Hr in Hend. destruct Hend as [Hready' Hholds'].
  eexists _, st, _, _. split_and!; [done..| |].
  - destruct (run_lifetime _ _ _ _ _ _ _ Hexec Hrun) as [_ []].
    rewrite life_count0. unfold mysql_stmt_field_count. apply to_int_small. lia.
  - destruct (L =? 0); lia.
Qed.

(** X12. On an engine that does not fail, after any calls that include
    [k] calls of [MysqlResultSet_next], [k] from 1 to the number of
    rows the cursor delivers, the current row is row [k] of the result:
    for every value of it that is not NULL, [MysqlResultSet_getString]
    returns a buffer that holds the whole value followed by the
    terminator 0, and [MysqlResultSet_getBlob] returns a buffer that
    holds the whole value, and its length in [*size]; whether or not
    the value fitted the buffer when the row was fetched. *)
Theorem reads_return_the_value s L kp m calls r idx d :
  executed s → faults s = [] → is_Some (metadata s) →
  0 < field_count s < 2 ^ 31 →
  Forall (λ r : row, length r = Z.to_nat (field_count s)) (pending s) →
  L ≤ INT_MAX →
  (1 ≤ next_calls calls ≤ budget L (length (pending s)))%nat →
  pending s !! (next_calls calls - 1)%nat = Some r →
  1 ≤ idx ≤ field_count s → r !! slot idx = Some (Some d) →
  ∃ res st, run calls (new_state s L kp m) = Some (res, st) ∧
    (∃ a st', MysqlResultSet_getString idx st = Ok (Some a) st' ∧
       view (mem st') (Some a) (length d) = Some d ∧
       peek (mem st') (Some a) (length d) = Some x00) ∧
    (∃ a st',
       MysqlResultSet_getBlob idx st =
         Ok (Some a, Some (to_int (Z.of_nat (length d)))) st' ∧
       view (mem st') (Some a) (length d) = Some d).
Proof.
  intros Hexec Hf Hmeta Hfc Hwidth HL Hk Hr Hidx Hd.
  destruct (run_to_row s L kp m calls r) as (res & st & rows & j & Hrun & Hready
    & Hholds & Hcc & _); try done.
  rewrite <- Hcc in Hidx.
  exists res, st. split_and!; [done| |].
  - destruct (ready_getString_value _ _ _ _ _ _ _ Hready Hholds Hidx Hd)
      as (a & st' & Hget & _ & _ & [_ Hterm] & Hview).
    by exists a, st'.
  - by apply (ready_getBlob_value L rows j r).
Qed.

Lemma reads_return_the_value_witness :
  ∃ res st, run [Next; GetBlob 1] (new_state (sample_stmt sample_rows []) 0 0 [])
              = Some (res, st) ∧
    (∃ a st', MysqlResultSet_getString 2 st = Ok (Some a) st' ∧
       view (mem st') (Some a) 500 = Some long_value ∧
       peek (mem st') (Some a) 500 = Some x00) ∧
    (∃ a st', MysqlResultSet_getBlob 2 st = Ok (Some a, Some 500) st' ∧
       view (mem st') (Some a) 500 = Some long_value).
Proof.
  apply (reads_return_the_value (sample_stmt sample_rows []) 0 0 []
           [Next; GetBlob 1] [Some ["1"%byte]; Some long_value; None] 2 long_value).
  - apply sample_executed, sample_rows_ok.
  - reflexivity.
  - by eexists.
  - simpl. lia.
  - repeat constructor.
  - unfold INT_MAX. lia.
  - vm_compute. split; repeat constructor.
  - reflexivity.
  - simpl. lia.
  - reflexivity.
Defined.

(* ------------------------------------------------------------------ *)
(** ** The pointers returned *)

Lemma poke_same a off x m :
  0 ≤ off → peek m (Some a) (Z.to_nat off) = Some x →
  poke (Some a) off x m = Some m.
Proof.
  intros Hoff Hpeek. unfold peek in Hpeek. unfold poke.
  destruct (live m a) as [b|] eqn:Hlive; [|done].
  destruct (b !! Z.to_nat off) as [cell|] eqn:Hcell; [|done].
  simpl in Hpeek. subst cell.
  pose proof (lookup_lt_Some _ _ _ Hcell) as Hlt.
  destruct (Z.leb_spec 0 off); [|lia].
  destruct (Z.ltb_spec off (Z.of_nat (length b))); [|lia]. simpl.
  rewrite (list_insert_id b) by done.
  apply live_Some in Hlive. by rewrite list_insert_id.
Qed.

Lemma set_mem_same st : set_mem st (mem st) = st.
Proof. by destruct st. Qed.

(** Reading any column leaves a column that was read as text as it is:
    its buffer stays where it is, with the terminator in place. *)
Lemma pinned_read k a d k' st st' :
  Inv st → pinned k a d st → read_does k' st st' → pinned k a d st'.
Proof.
  intros HI [(cols & bs & c & b & Hcols & Hbs & Hc & Hb & Ha & Hnull & Hlen & Hfit)
    Hterm] Hread.
  pose proof (Inv_tables _ _ _ HI Hcols Hbs) as [_ _ _ Hslots Hdist].
  destruct (slot_live _ _ _ _ (Hslots _ _ _ Hc Hb)) as (a0 & blk0 & Ha0 & Hlive0 & _).
  rewrite Ha in Ha0. injection Ha0 as <-. apply live_lt in Hlive0.
  destruct Hread as [|cols1 bs1 c1 b1 a1 m2 Hcols1 Hbs1 Hc1 Hb1 Hnull1 Hfit1 Ha1 Hpoke
                     |cols1 bs1 c1 b1 a1 blk Hcols1 Hbs1 Hc1 Hb1 Hnull1 Htrunc Ha1
                        Hlive Hv
                     |cols1 bs1 c1 b1 a1 blk d1 m2 m3 Hcols1 Hbs1 Hc1 Hb1 Hnull1 Htrunc
                        Ha1 Hlive Hv Hlen1 Hm2 Hm3];
    try (rewrite Hcols in Hcols1; rewrite Hbs in Hbs1;
         injection Hcols1 as <-; injection Hbs1 as <-).
  - split; [by exists cols, bs, c, b|done].
  - split; [by exists cols, bs, c, b|]. norm.
    destruct (decide (a1 = a)) as [->|Hne].
    + assert (k' = k) as -> by (eapply Hdist; [done..|congruence]).
      rewrite Hc in Hc1. injection Hc1 as <-.
      destruct (poke_view _ _ _ _ _ Hpoke) as [Hpeek _].
      by rewrite Hlen, Nat2Z.id in Hpeek.
    + rewrite <- Hterm. apply peek_live. eapply poke_other; [done|congruence].
  - assert (k' ≠ k) as Hne
      by (intros ->; rewrite Hc in Hc1; rewrite Hb in Hb1; simplify_eq; lia).
    assert (a ≠ a1) as Hna.
    { intros ->. apply Hne. eapply Hdist; [done..|congruence]. }
    split.
    + exists (<[k' := grown_column c1 (length (mem st))]> cols),
        (<[k' := grown_bind c1 b1 (length (mem st))]> bs), c, b.
      unfold refetched. norm. rewrite !list_lookup_insert_ne by done.
      by split_and!.
    + unfold refetched. norm. rewrite <- Hterm. apply peek_live.
      by apply live_grown_old.
  - assert (k' ≠ k) as Hne
      by (intros ->; rewrite Hc in Hc1; rewrite Hb in Hb1; simplify_eq; lia).
    assert (a ≠ a1) as Hna.
    { intros ->. apply Hne. eapply Hdist; [done..|congruence]. }
    split.
    + exists (<[k' := grown_column c1 (length (mem st))]> cols),
        (<[k' := grown_bind c1 b1 (length (mem st))]> bs), c, b.
      unfold refetched. norm. rewrite !list_lookup_insert_ne by done.
      by split_and!.
    + norm. rewrite <- Hterm. apply peek_live.
      rewrite <- (live_grown_old (mem st) a1 c1 blk a) by done.
      rewrite <- (memcpy_other _ _ _ _ a Hm2) by (intros [=]; lia).
      destruct Hm3 as [->|Hpoke]; [done|].
      eapply poke_other; [done|]. intros [=]. lia.
Qed.

(** A second read of a column that was read as text returns the same
    buffer and changes nothing. *)
Lemma pinned_reread idx a d st :
  pinned (slot idx) a d st → 1 ≤ idx ≤ columnCount (R st) →
  MysqlResultSet_getString idx st = Ok (Some a) st ∧
  MysqlResultSet_getBlob idx st =
    Ok (Some a, Some (to_int (Z.of_nat (length d)))) st.
Proof.
  intros [(cols & bs & c & b & Hcols & Hbs & Hc & Hb & Ha & Hnull & Hlen & Hfit)
    Hterm] Hidx.
  split.
  - erewrite getString_nonnull by done.
    unfold mbind at 1, M_bind at 1.
    rewrite (ensureCapacity_fits _ _ _ _ _ _ Hcols Hbs Hc Hb Hfit).
    unfold terminate, store_byte.
    erewrite bind_Ok by (by eapply column_at_eq).
    erewrite bind_Ok.
    2:{ erewrite bind_Ok by reflexivity. rewrite Ha, Hlen.
        rewrite poke_same by (rewrite ?Nat2Z.id; first [done|lia]).
        simpl. unfold putMem, mbind, M_bind, mret, M_ret.
        rewrite set_mem_same. reflexivity. }
    erewrite bind_Ok by (by eapply column_at_eq). by rewrite Ha.
  - erewrite getBlob_nonnull by done.
    unfold mbind at 1, M_bind at 1.
    rewrite (ensureCapacity_fits _ _ _ _ _ _ Hcols Hbs Hc Hb Hfit).
    unfold blob_view.
    erewrite bind_Ok by (by eapply column_at_eq). by rewrite Ha, Hlen.
Qed.

Lemma run_reads_keep (P : state → Prop) :
  (∀ idx st st', P st → after (MysqlResultSet_getString idx st) st' → P st') →
  (∀ idx st st', P st → after (MysqlResultSet_getBlob idx st) st' → P st') →
  ∀ calls st res st', reads_only calls → P st →
    run calls st = Some (res, st') → P st'.
Proof.
  intros Hstring Hblob.
  induction calls as [|[|idx|idx] calls IH]; intros st res st' Hreads HP; simpl.
  - by intros [= _ <-].
  - done.
  - pose proof (Hstring idx st) as Hstep.
    destruct (MysqlResultSet_getString idx st) as [p st1|e st1|]; [..|done];
      intros Hrun; (eapply IH; [done| |done]); by apply Hstep.
  - pose proof (Hblob idx st) as Hstep.
    destruct (MysqlResultSet_getBlob idx st) as [p st1|e st1|]; [..|done];
      intros Hrun; (eapply IH; [done| |done]); by apply Hstep.
Qed.

(** X13. On an engine that does not fail, the buffer
    [MysqlResultSet_getString] returned for a value of the current row
    stays valid while columns are read: after any further calls of
    [getString] and [getBlob], on this or on other columns, it still
    holds the value and its terminator, and [getString] on the same
    column returns the same buffer again without changing anything. *)
Theorem value_stays_readable s L kp m calls reads r idx d :
  executed s → faults s = [] → is_Some (metadata s) →
  0 < field_count s < 2 ^ 31 →
  Forall (λ r : row, length r = Z.to_nat (field_count s)) (pending s) →
  L ≤ INT_MAX →
  (1 ≤ next_calls calls ≤ budget L (length (pending s)))%nat →
  pending s !! (next_calls calls - 1)%nat = Some r →
  1 ≤ idx ≤ field_count s → r !! slot idx = Some (Some d) →
  reads_only reads →
  ∃ res st a st1 st2,
    run calls (new_state s L kp m) = Some (res, st) ∧
    MysqlResultSet_getString idx st = Ok (Some a) st1 ∧
    run reads st1 = Some ([], st2) ∧
    view (mem st2) (Some a) (length d) = Some d ∧
    peek (mem st2) (Some a) (length d) = Some x00 ∧
    MysqlResultSet_getString idx st2 = Ok (Some a) st2.
Proof.
  intros Hexec Hf Hmeta Hfc Hwidth HL Hk Hr Hidx Hd Hreads.
  destruct (run_to_row s L kp m calls r) as (res & st & rows & j & Hrun & Hready
    & Hholds & Hcc & Hj); try done.
  rewrite <- Hcc in Hidx.
  destruct (ready_getString_value _ _ _ _ _ _ _ Hready Hholds Hidx Hd)
    as (a & st1 & Hget & Hready1 & Hholds1 & Hpin1 & _).
  destruct (serve_run reads _ _ _ _ _ Hready1 Hholds1 HL Hj) as (st2 & Hrun2 & Hend).
  cbv zeta in Hend, Hrun2. rewrite Hreads in Hend, Hrun2.
  cbn [Nat.leb last_after holds_last] in Hend. destruct Hend as [Hready2 Hholds2].
  change (rows_then_end 0 _) with (@nil (option bool)) in Hrun2.
  assert (Inv st2 ∧ pinned (slot idx) a d st2 ∧
          columnCount (R st2) = columnCount (R st1)) as (HI2 & Hpin2 & Hcc2).
  { apply (run_reads_keep (λ st', Inv st' ∧ pinned (slot idx) a d st' ∧
              columnCount (R st') = columnCount (R st1))) in Hrun2; try done.
    - intros idx' st0 st' (HI0 & Hpin0 & Hcc0) Hafter. split_and!.
      + by eapply getString_Inv.
      + eapply pinned_read; [done..|]. by apply getString_cases.
      + pose proof (getString_frame st0 idx' HI0) as Hfr.
        destruct (MysqlResultSet_getString idx' st0); simpl in Hafter; [..|done];
          subst; [destruct Hfr as [[] _]|destruct Hfr]; congruence.
    - intros idx' st0 st' (HI0 & Hpin0 & Hcc0) Hafter. split_and!.
      + by eapply getBlob_Inv.
      + eapply pinned_read; [done..|]. by apply getBlob_cases.
      + pose proof (getBlob_frame st0 idx' HI0) as Hfr.
        destruct (MysqlResultSet_getBlob idx' st0); simpl in Hafter; [..|done];
          subst; [destruct Hfr as [[] _]|destruct Hfr]; congruence.
    - split_and!; [by destruct Hready1|done|done]. }
  assert (columnCount (R st1) = columnCount (R st)) as Hcc1.
  { destruct Hready as [HI _ _ _ _ _ _ _ _ _].
    pose proof (getString_frame st idx HI) as Hfr. rewrite Hget in Hfr.
    by destruct Hfr as [[] _]. }
  exists res, st, a, st1, st2. split_and!; [done..| | |].
  - destruct Hpin2 as [(cols & bs & c & b & Hcols & Hbs & Hc & Hb & Ha & _ & Hlen
      & Hfit) _].
    pose proof (Hholds2 _ _ _ _ _ _ _ Hcols Hbs Hc Hb Hd Ha) as Hview.
    by rewrite (delivered_fits b d) in Hview by lia.
  - by destruct Hpin2.
  - apply (pinned_reread idx a d st2 Hpin2). congruence.
Qed.

Lemma value_stays_readable_witness :
  ∃ res st a st1 st2,
    run [Next] (new_state (sample_stmt sample_rows []) 0 0 []) = Some (res, st) ∧
    MysqlResultSet_getString 2 st = Ok (Some a) st1 ∧
    run [GetString 1; GetBlob 2; GetString 3] st1 = Some ([], st2) ∧
    view (mem st2) (Some a) 500 = Some long_value ∧
    peek (mem st2) (Some a) 500 = Some x00 ∧
    MysqlResultSet_getString 2 st2 = Ok (Some a) st2.
Proof.
  apply (value_stays_readable (sample_stmt sample_rows []) 0 0 [] [Next]
           [GetString 1; GetBlob 2; GetString 3]
           [Some ["1"%byte]; Some long_value; None] 2 long_value).
  - apply sample_executed, sample_rows_ok.
  - reflexivity.
  - by eexists.
  - simpl. lia.
  - repeat constructor.
  - unfold INT_MAX. lia.
  - vm_compute. split; repeat constructor.
  - reflexivity.
  - simpl. lia.
  - reflexivity.
  - reflexivity.
Defined.

(* ------------------------------------------------------------------ *)
(** ** The registration of the bind table *)

(** X14. A call of [MysqlResultSet_next] that gets as far as the fetch
    registers the bind table exactly when [needRebind] is set, and
    before it fetches.  When the registration succeeds the flag is
    cleared and the engine holds the table of the cursor; when it fails
    the call raises with the error text of the statement, nothing is
    fetched, and the flag stays set, so that the next call registers
    again. *)
Theorem next_registers_when_flagged st bs st' :
  stop (R st) = false → limit_reached (R st) = false →
  bind (R st) = Some bs → after (MysqlResultSet_next st) st' →
  if needRebind (R st) then
    if fails (stmt st) 0 then
      MysqlResultSet_next st =
        Throw (SQLException "mysql_stmt_bind_result -- %s" (errtext (stmt st))) st' ∧
      log (stmt st') = call_bind_result bs :: log (stmt st) ∧
      needRebind (R st') = true ∧ lastError (R st') = 1 ∧
      bound (stmt st') = bound (stmt st) ∧ pending (stmt st') = pending (stmt st)
    else
      log (stmt st') = call_fetch :: call_bind_result bs :: log (stmt st) ∧
      needRebind (R st') = false ∧ bound (stmt st') = Some bs ∧
      bind (R st') = Some bs
  else
    log (stmt st') = call_fetch :: log (stmt st) ∧
    needRebind (R st') = false ∧ bound (stmt st') = bound (stmt st) ∧
    bind (R st') = Some bs.
Proof.
  intros Hstop Hlim Hbs Hafter. rewrite <- fails_faulty.
  destruct (needRebind (R st)) eqn:Hneed.
  - destruct (faulty (stmt st)) eqn:Hfault.
    + erewrite next_rebind_fails in * by done. simpl in Hafter. subst st'.
      norm. rewrite needRebind_counted. autorewrite with stmt.
      by rewrite ?called_log.
    + destruct (next_cases st) as [Hundef|Hcase]; [by rewrite Hundef in Hafter|].
      assert (before_fetch st =
              {| R := set_needRebind (set_lastError (counted (R st)) 0) false;
                 mem := mem st;
                 stmt := set_bound (called (call_bind_result bs) (stmt st))
                           (Some bs) |}) as Hbefore.
      { unfold before_fetch. by rewrite needRebind_counted, Hneed, bind_counted, Hbs. }
      inversion Hcase as [Hs Heq|Hs Hl Heq|bs' Hs Hl Hn Hb Hf Heq
                         |Hs Hl Hready Hf Heq|Hs Hl Hready Hf Hpend Heq
                         |r rest t cols1 m1 Hs Hl Hready Hf Hpend Hstore Heq];
        try congruence;
        rewrite <- Heq in Hafter; simpl in Hafter; subst st';
        rewrite Hbefore; unfold fetched; norm; rewrite columns_counted;
        destruct (columns (R st)); norm; rewrite ?bind_counted;
        autorewrite with stmt; norm; by rewrite ?called_log.
  - destruct (next_cases st) as [Hundef|Hcase]; [by rewrite Hundef in Hafter|].
    assert (before_fetch st = set_R st (counted (R st))) as Hbefore.
    { unfold before_fetch. by rewrite needRebind_counted, Hneed. }
    inversion Hcase as [Hs Heq|Hs Hl Heq|bs' Hs Hl Hn Hb Hf Heq
                       |Hs Hl Hready Hf Heq|Hs Hl Hready Hf Hpend Heq
                       |r rest t cols1 m1 Hs Hl Hready Hf Hpend Hstore Heq];
      try congruence;
      rewrite <- Heq in Hafter; simpl in Hafter; subst st';
      rewrite Hbefore; unfold fetched; norm; rewrite columns_counted;
      destruct (columns (R st)); norm;
      rewrite ?bind_counted, ?needRebind_counted;
      autorewrite with stmt; norm; by rewrite ?called_log.
Qed.

Lemma next_registers_when_flagged_witness :
  let st0 := state_of (MysqlResultSet_next sample_cursor) sample_cursor in
  let st := state_of (MysqlResultSet_getString 2 st0) st0 in
  let st' := state_of (MysqlResultSet_next st) st in
  needRebind (R st) = true ∧
  log (stmt st') = call_fetch :: call_bind_result (default [] (bind (R st)))
                     :: log (stmt st) ∧
  needRebind (R st') = false ∧ bound (stmt st') = bind (R st).
Proof.
  intros st0 st st'.
  pose proof (next_registers_when_flagged st (default [] (bind (R st))) st') as H.
  assert (needRebind (R st) = true) as Hneed by reflexivity.
  assert (fails (stmt st) 0 = false) as Hfails by reflexivity.
  rewrite Hneed, Hfails in H.
  destruct H as (Hlog & Hflag & Hbound & _);
    [reflexivity|reflexivity|reflexivity|vm_compute; reflexivity|].
  split_and!; [reflexivity|exact Hlog|exact Hflag|].
  rewrite Hbound. reflexivity.
Defined.

(* ------------------------------------------------------------------ *)
(** ** What the calls leave where it is *)

Lemma next_keeps_tables st st' :
  Inv st → after (MysqlResultSet_next st) st' →
  length (mem st') = length (mem st) ∧
  (∀ a, blen (mem st') a = blen (mem st) a) ∧
  bind (R st') = bind (R st) ∧
  buffers (R st') = buffers (R st) ∧ fields (R st') = fields (R st).
Proof.
  intros HI Hafter.
  destruct (next_cases st) as [Hundef|Hcase]; [by rewrite Hundef in Hafter|].
  destruct (before_fetch_same st)
    as (Hstop & _ & _ & Hcc & _ & Hbind & Hcols & Hmem & _).
  unfold buffers, fields.
  inversion Hcase as [Hs Heq|Hs Hl Heq|bs Hs Hl Hn Hb Hf Heq
                     |Hs Hl Hready Hf Heq|Hs Hl Hready Hf Hpend Heq
                     |r rest t cols1 m1 Hs Hl Hready Hf Hpend Hstore Heq];
    rewrite <- Heq in Hafter; simpl in Hafter; subst st'.
  - done.
  - norm. by rewrite bind_counted, columns_counted.
  - norm. by rewrite bind_counted, columns_counted.
  - unfold fetched. rewrite Hcols. destruct (columns (R st)) eqn:Hc; norm;
      by rewrite ?Hbind, ?Hcols, ?Hc.
  - unfold fetched. rewrite Hcols. destruct (columns (R st)) eqn:Hc; norm;
      by rewrite ?Hbind, ?Hcols, ?Hc.
  - pose proof (Inv_before_fetch st HI Hs) as [Ht _ _ _ _ Hb].
    rewrite Hstop in Hb. destruct (Hb Hs) as (reg & Hreg & Hlreg & Hptr & _).
    rewrite Hcols, Hbind, Hcc in *.
    destruct (columns (R st)) as [cols|] eqn:Hc, (bind (R st)) as [bs|] eqn:Hbs;
      try done; [|congruence].
    destruct Ht as [Hlc _ _ _ _]. norm_in Hlc. rewrite Hcc in Hlc.
    rewrite Hreg in Hstore. simpl in Hstore.
    apply store_row_inv with (k := 0%nat) in Hstore as (Hl1 & Hm1 & Hblen & Hcols1);
      [|done|lia].
    unfold fetched. rewrite Hcols. norm. rewrite Hbind.
    split_and!; try done; simpl; f_equal;
      (apply list_eq; intros i; rewrite !list_lookup_fmap;
       destruct (cols !! i) as [c|] eqn:Hci;
       [rewrite (Hcols1 _ _ Hci), decide_True by lia; simpl;
        destruct (r !! _); [|done]; destruct (reg !! _); [|done];
        by rewrite ?deliver_buffer, ?deliver_field
       |apply lookup_ge_None in Hci;
        by rewrite (lookup_ge_None_2 cols1) by lia]).
Qed.

(** X15. In a reachable state, a call of [MysqlResultSet_next] that
    returns or raises has allocated, moved and released nothing: the
    heap keeps its blocks and their sizes, the bind table is unchanged,
    and every column keeps its buffer and its field.  Only the contents
    of the buffers, the null flags and the lengths change.  Nothing is
    said of a call without defined behaviour, such as the advance after
    a failed re-fetch. *)
Theorem next_moves_no_buffer st st' :
  reachable st → after (MysqlResultSet_next st) st' →
  length (mem st') = length (mem st) ∧
  (∀ a, blen (mem st') a = blen (mem st) a) ∧
  bind (R st') = bind (R st) ∧
  buffers (R st') = buffers (R st) ∧ fields (R st') = fields (R st).
Proof.
  intros Hreach Hafter. apply next_keeps_tables; [|done].
  by apply reachable_Inv.
Qed.

Lemma next_moves_no_buffer_witness :
  let st := sample_cursor in
  let st' := state_of (MysqlResultSet_next st) st in
  length (mem st') = length (mem st) ∧
  (∀ a, blen (mem st') a = blen (mem st) a) ∧
  bind (R st') = bind (R st) ∧
  buffers (R st') = buffers (R st) ∧ fields (R st') = fields (R st).
Proof.
  intros st st'. apply (next_moves_no_buffer st st').
  - apply sample_cursor_reachable.
  - vm_compute. reflexivity.
Defined.

Lemma read_position k st st' :
  read_does k st st' →
  stop (R st') = stop (R st) ∧ currentRow (R st') = currentRow (R st) ∧
  pending (stmt st') = pending (stmt st) ∧
  current (stmt st') = current (stmt st) ∧
  bound (stmt st') = bound (stmt st) ∧
  (log (stmt st') = log (stmt st) ∨
   ∃ b, log (stmt st') = call_fetch_column b (Z.of_nat k) 0 :: log (stmt st)).
Proof.
  intros [|cols bs c b a m2 Hcols Hbs Hc Hb Hnull Hfit Ha Hpoke
          |cols bs c b a blk Hcols Hbs Hc Hb Hnull Htrunc Ha Hlive Hv
          |cols bs c b a blk d m2 m3 Hcols Hbs Hc Hb Hnull Htrunc Ha Hlive
             Hv Hlen Hm2 Hm3]; unfold refetched; norm; autorewrite with stmt;
    rewrite ?called_log; split_and!; eauto.
Qed.

(** X16. In a reachable state, a call of [MysqlResultSet_getString] or
    [MysqlResultSet_getBlob] that returns or raises has not moved the
    cursor: the stop flag, the row count, the rows left, the current
    row and the table the engine holds stay as they are; and the engine
    has received at most one call, a fetch of the column read.  Nothing
    is said of a read without defined behaviour, such as a read on a
    cursor without its column table. *)
Theorem reads_keep_position st idx st' :
  reachable st →
  after (MysqlResultSet_getString idx st) st' ∨
  after (MysqlResultSet_getBlob idx st) st' →
  stop (R st') = stop (R st) ∧ currentRow (R st') = currentRow (R st) ∧
  pending (stmt st') = pending (stmt st) ∧
  current (stmt st') = current (stmt st) ∧
  bound (stmt st') = bound (stmt st) ∧
  (log (stmt st') = log (stmt st) ∨
   ∃ b, log (stmt st') = call_fetch_column b (idx - 1) 0 :: log (stmt st)).
Proof.
  intros Hreach Hafter. apply reachable_Inv in Hreach as HI.
  destruct (decide (1 ≤ idx ≤ columnCount (R st))) as [Hidx|Hidx].
  - rewrite <- slot_eq by lia. apply read_position.
    destruct Hafter; [by apply getString_cases|by apply getBlob_cases].
  - rewrite getString_out, getBlob_out in Hafter by done. simpl in Hafter.
    assert (st' = st) as -> by (by destruct Hafter). split_and!; auto.
Qed.

Lemma reads_keep_position_witness :
  let st := state_of (MysqlResultSet_next sample_cursor) sample_cursor in
  let st' := state_of (MysqlResultSet_getString 2 st) st in
  stop (R st') = stop (R st) ∧ currentRow (R st') = currentRow (R st) ∧
  pending (stmt st') = pending (stmt st) ∧
  current (stmt st') = current (stmt st) ∧
  bound (stmt st') = bound (stmt st) ∧
  (log (stmt st') = log (stmt st) ∨
   ∃ b, log (stmt st') = call_fetch_column b (2 - 1) 0 :: log (stmt st)).
Proof.
  intros st st'. apply (reads_keep_position st 2 st').
  - apply (reach_next sample_cursor); [apply sample_cursor_reachable|].
    vm_compute. reflexivity.
  - left. vm_compute. reflexivity.
Defined.

Lemma read_spares k st st' cols i c :
  Inv st → read_does k st st' →
  columns (R st) = Some cols → cols !! i = Some c → i ≠ k →
  (∃ cols', columns (R st') = Some cols' ∧ cols' !! i = Some c) ∧
  ∀ a, buffer c = Some a → live (mem st') a = live (mem st) a.
Proof.
  intros HI Hread Hcols Hci Hne.
  destruct HI as [Ht _ _ _ _ _]. rewrite Hcols in Ht.
  destruct (bind (R st)) as [bs|] eqn:Hbs; [|done].
  destruct Ht as [Hlc Hlb _ Hslots Hdist].
  destruct (lookup_lt_is_Some_2 bs i) as [bi Hbi];
    [rewrite Hlb, <- Hlc; eauto using lookup_lt_Some|].
  destruct (slot_live _ _ _ _ (Hslots _ _ _ Hci Hbi)) as (ai & blki & Hai & Hlivei & _).
  apply live_lt in Hlivei.
  destruct Hread as [|cols1 bs1 c1 b1 a1 m2 Hcols1 Hbs1 Hc1 Hb1 Hnull1 Hfit1 Ha1 Hpoke
                     |cols1 bs1 c1 b1 a1 blk Hcols1 Hbs1 Hc1 Hb1 Hnull1 Htrunc Ha1
                        Hlive Hv
                     |cols1 bs1 c1 b1 a1 blk d1 m2 m3 Hcols1 Hbs1 Hc1 Hb1 Hnull1 Htrunc
                        Ha1 Hlive Hv Hlen1 Hm2 Hm3];
    try (rewrite Hcols in Hcols1; injection Hcols1 as <-);
    try (assert (ai ≠ a1) as Hna
           by (intros ->; apply Hne; eapply Hdist; [done..|congruence])).
  - split; [by exists cols|done].
  - split; [by exists cols|]. norm. intros a Ha. rewrite Hai in Ha.
    injection Ha as <-. eapply poke_other; [done|congruence].
  - unfold refetched. norm. split.
    + eexists. split; [done|]. by rewrite list_lookup_insert_ne.
    + intros a Ha. rewrite Hai in Ha. injection Ha as <-.
      by apply live_grown_old.
  - unfold refetched. norm. split.
    + eexists. split; [done|]. by rewrite list_lookup_insert_ne.
    + intros a Ha. rewrite Hai in Ha. injection Ha as <-.
      rewrite <- (live_grown_old (mem st) a1 c1 blk ai) by done.
      rewrite <- (memcpy_other _ _ _ _ ai Hm2) by (intros [=]; lia).
      destruct Hm3 as [->|Hpoke]; [done|].
      eapply poke_other; [done|]. intros [=]. lia.
Qed.

(** X17. Reading one column with [MysqlResultSet_getString] or
    [MysqlResultSet_getBlob] leaves every other column as it is: its
    null flag, its length and its buffer pointer are unchanged, and so
    is the block of its buffer, also when the column read was resized
    or its re-fetch failed. *)
Theorem read_spares_other_columns st idx st' cols i c :
  reachable st →
  after (MysqlResultSet_getString idx st) st' ∨
  after (MysqlResultSet_getBlob idx st) st' →
  columns (R st) = Some cols → cols !! i = Some c → i ≠ slot idx →
  (∃ cols', columns (R st') = Some cols' ∧ cols' !! i = Some c) ∧
  ∀ a, buffer c = Some a → live (mem st') a = live (mem st) a.
Proof.
  intros Hreach Hafter Hcols Hc Hne. apply reachable_Inv in Hreach as HI.
  eapply read_spares; [done| |done..].
  destruct Hafter; [by apply getString_cases|by apply getBlob_cases].
Qed.

Lemma read_spares_other_columns_witness :
  let st := state_of (MysqlResultSet_next sample_cursor) sample_cursor in
  let st' := state_of (MysqlResultSet_getString 2 st) st in
  let c := default zero_column (default [] (columns (R st)) !! 0%nat) in
  (∃ cols', columns (R st') = Some cols' ∧ cols' !! 0%nat = Some c) ∧
  ∀ a, buffer c = Some a → live (mem st') a = live (mem st) a.
Proof.
  intros st st' c.
  apply (read_spares_other_columns st 2 st' (default [] (columns (R st))) 0 c).
  - apply (reach_next sample_cursor); [apply sample_cursor_reachable|].
    vm_compute. reflexivity.
  - left. vm_compute. reflexivity.
  - reflexivity.
  - reflexivity.
  - vm_compute. discriminate.
Defined.

(* ------------------------------------------------------------------ *)
(** ** Column names out of range *)

(** X18. [MysqlResultSet_getColumnName] never raises.  On a cursor
    without columns, and for an index below 1 or above the column count
    plus 1, it returns [NULL] and changes nothing. *)
Theorem getColumnName_returns_null st idx :
  - 2 ^ 31 < idx < 2 ^ 31 →
  columnCount (R st) ≤ 0 ∨ idx < 1 ∨ columnCount (R st) + 1 < idx →
  MysqlResultSet_getColumnName idx st = Ok None st ∧
  ∀ idx' e st', MysqlResultSet_getColumnName idx' st ≠ Throw e st'.
Proof.
  intros Hidx Hout. split.
  - unfold MysqlResultSet_getColumnName.
    erewrite bind_Ok by reflexivity. rewrite to_int_small by lia.
    destruct (Z.leb_spec (columnCount (R st)) 0); [done|].
    destruct (Z.ltb_spec (idx - 1) 0); [done|].
    destruct (Z.ltb_spec (columnCount (R st)) (idx - 1)); [done|]. lia.
  - intros idx' e st'.
    unfold MysqlResultSet_getColumnName, column_at, defined, undefined, getR,
      mbind, M_bind, mret, M_ret.
    repeat case_match; simplify_eq; done.
Qed.

Lemma getColumnName_returns_null_witness :
  MysqlResultSet_getColumnName 5 sample_cursor = Ok None sample_cursor ∧
  ∀ idx' e st', MysqlResultSet_getColumnName idx' sample_cursor ≠ Throw e st'.
Proof.
  apply (getColumnName_returns_null sample_cursor 5).
  - lia.
  - right. right. vm_compute. reflexivity.
Defined.

(* ------------------------------------------------------------------ *)
(** ** Rows with values longer than their buffers *)

(** X19. On an engine that does not fail, a row with a value longer
    than the capacity its column has at the time is delivered like any
    other: [MysqlResultSet_next] returns true and the row is the current
    row.  [lastError] is [MYSQL_DATA_TRUNCATED] exactly when some value
    of the row is longer than the capacity of its bind entry, and
    [MYSQL_OK] otherwise. *)
Theorem truncated_row_is_delivered s L kp m calls r :
  executed s → faults s = [] → is_Some (metadata s) →
  0 < field_count s < 2 ^ 31 →
  Forall (λ r : row, length r = Z.to_nat (field_count s)) (pending s) →
  L ≤ INT_MAX →
  (next_calls calls < budget L (length (pending s)))%nat →
  pending s !! next_calls calls = Some r →
  ∃ res st bs st',
    run calls (new_state s L kp m) = Some (res, st) ∧
    bind (R st) = Some bs ∧
    MysqlResultSet_next st = Ok true st' ∧
    current (stmt st') = Some r ∧
    lastError (R st') =
      if row_truncated bs r then MYSQL_DATA_TRUNCATED else MYSQL_OK.
Proof.
  intros Hexec Hf Hmeta Hfc Hwidth HL Hk Hr.
  pose proof (new_ready s L kp m Hexec Hf Hmeta Hfc Hwidth) as Hready.
  destruct (serve_run calls _ _ _ _ _ Hready) as (st & Hrun & Hend);
    [done|done|done|].
  cbv zeta in Hend. unfold budget, rows_allowed in *. rewrite Z.sub_0_r in *.
  destruct (Nat.leb_spec (next_calls calls)
              (if L =? 0 then length (pending s)
               else length (pending s) `min` Z.to_nat L)) as [_|Hgt]; [|lia].
  destruct Hend as [Hready' _].
  rewrite (drop_S _ _ _ Hr) in Hready'.
  destruct (ready_tables _ _ _ _ _ Hready') as (cols & bs & Hcols & Hbs & _).
  destruct (ready_delivers _ _ _ _ _ _ Hready') as (st' & Hnext & Hready'' & _ & Herr).
  - rewrite (limit_reached_ready _ _ _ _ _ Hready').
    destruct (Z.eqb_spec L 0); [done|]. simpl.
    destruct (Z.leb_spec L (0 + Z.of_nat (next_calls calls))); [lia|done].
  - intros HL0. destruct (Z.eqb_spec L 0); [done|]. unfold INT_MAX in HL. lia.
  - exists (rows_then_end (next_calls calls)
              (if L =? 0 then length (pending s)
               else length (pending s) `min` Z.to_nat L)), st, bs, st'.
    split_and!; [done..| |by apply Herr]. by destruct Hready''.
Qed.

Lemma truncated_row_is_delivered_witness :
  ∃ st', MysqlResultSet_next sample_cursor = Ok true st' ∧
    current (stmt st') = Some [Some ["1"%byte]; Some long_value; None] ∧
    lastError (R st') = MYSQL_DATA_TRUNCATED.
Proof.
  destruct (truncated_row_is_delivered (sample_stmt sample_rows []) 0 0 [] []
              [Some ["1"%byte]; Some long_value; None])
    as (res & st & bs & st' & Hrun & Hbs & Hnext & Hcur & Herr).
  - apply sample_executed, sample_rows_ok.
  - reflexivity.
  - by eexists.
  - simpl. lia.
  - repeat constructor.
  - unfold INT_MAX. lia.
  - vm_compute. repeat constructor.
  - reflexivity.
  - simpl in Hrun. injection Hrun as _ <-.
    exists st'. split; [exact Hnext|]. split; [exact Hcur|].
    rewrite Herr. vm_compute in Hbs. injection Hbs as <-. reflexivity.
Defined.

(* ------------------------------------------------------------------ *)
(** ** Reading before the first row *)

Lemma new_state_tables s L kp m flds (i : nat) :
  0 < to_int (mysql_stmt_field_count s) → metadata s = Some flds →
  (i < Z.to_nat (to_int (mysql_stmt_field_count s)))%nat →
  ∃ cols bs, columns (R (new_state s L kp m)) = Some cols ∧
    bind (R (new_state s L kp m)) = Some bs ∧
    cols !! i = Some (init_column flds (length m + i) i) ∧
    bs !! i = Some (init_bind (length m + i) i) ∧
    columnCount (R (new_state s L kp m)) = to_int (mysql_stmt_field_count s).
Proof.
  intros Hcc Hmeta Hi. unfold new_state.
  destruct (Z.leb_spec (to_int (mysql_stmt_field_count s)) 0); [lia|].
  rewrite Hmeta, bind_result_eq.
  destruct (faulty _); rewrite store_result_eq; norm; eexists _, _;
    (split_and!; [done|done| | |done]); by apply lookup_init.
Qed.

(** X20. The construction leaves every column zeroed, and the accessors
    do not ask whether a row was fetched.  On a cursor with columns,
    before the first [MysqlResultSet_next], every column reads as an
    empty value that is not NULL: [isnull] returns false,
    [getColumnSize] returns 0, [getString] returns the buffer with the
    terminator at its start, and [getBlob] the buffer with size 0. *)
Theorem reads_before_first_row s L kp m idx :
  executed s → is_Some (metadata s) →
  1 ≤ idx ≤ to_int (mysql_stmt_field_count s) →
  let st := new_state s L kp m in
  MysqlResultSet_isnull idx st = Ok false st ∧
  MysqlResultSet_getColumnSize idx st = Ok 0 st ∧
  (∃ a st', MysqlResultSet_getString idx st = Ok (Some a) st' ∧
     peek (mem st') (Some a) 0 = Some x00) ∧
  (∃ a, MysqlResultSet_getBlob idx st = Ok (Some a, Some 0) st).
Proof.
  intros Hexec [flds Hmeta] Hidx st.
  pose proof (new_Inv s L kp m Hexec) as HI. fold st in HI.
  destruct (new_state_tables s L kp m flds (slot idx))
    as (cols & bs & Hcols & Hbs & Hc & Hb & Hcc); [lia|done|unfold slot; lia|].
  fold st in Hcols, Hbs, Hcc.
  set (c := init_column flds (length m + slot idx) (slot idx)) in *.
  set (b := init_bind (length m + slot idx) (slot idx)) in *.
  rewrite <- Hcc in Hidx.
  split_and!.
  - unfold MysqlResultSet_isnull.
    erewrite bind_Ok by reflexivity.
    erewrite bind_Ok by (by apply check_index_in).
    rewrite <- slot_eq by lia.
    by erewrite bind_Ok by (by eapply column_at_eq).
  - unfold MysqlResultSet_getColumnSize.
    erewrite bind_Ok by reflexivity.
    erewrite bind_Ok by (by apply check_index_in).
    rewrite <- slot_eq by lia.
    by erewrite bind_Ok by (by eapply column_at_eq).
  - pose proof (getString_spec _ _ _ _ _ _ HI Hcols Hbs Hidx Hc Hb) as Hspec.
    destruct (MysqlResultSet_getString idx st) as [p st'|e st'|]; [| |done].
    + destruct Hspec as [_ [(? & _)|(_ & a & cols' & bs' & c' & b' & blk & -> & _ & _
        & _ & _ & _ & _ & _ & Hlive & Hterm)]]; [done|].
      exists a, st'. split; [done|]. unfold peek. rewrite Hlive.
      change (blk !! 0%nat = Some (Some x00)) in Hterm. by rewrite Hterm.
    + destruct Hspec as (_ & _ & Htrunc & _). simpl in Htrunc. unfold STRLEN in Htrunc.
      lia.
  - erewrite getBlob_nonnull by done.
    unfold mbind at 1, M_bind at 1.
    rewrite (ensureCapacity_fits _ _ _ _ _ _ Hcols Hbs Hc Hb)
      by (simpl; unfold STRLEN; lia).
    unfold blob_view.
    erewrite bind_Ok by (by eapply column_at_eq). by eexists.
Qed.

Lemma reads_before_first_row_witness :
  let st := sample_cursor in
  MysqlResultSet_isnull 2 st = Ok false st ∧
  MysqlResultSet_getColumnSize 2 st = Ok 0 st ∧
  (∃ a st', MysqlResultSet_getString 2 st = Ok (Some a) st' ∧
     peek (mem st') (Some a) 0 = Some x00) ∧
  (∃ a, MysqlResultSet_getBlob 2 st = Ok (Some a, Some 0) st).
Proof.
  apply (reads_before_first_row (sample_stmt sample_rows []) 0 0 [] 2).
  - apply sample_executed, sample_rows_ok.
  - by eexists.
  - vm_compute. split; discriminate.
Defined.

(* ------------------------------------------------------------------ *)
(** ** The capacities *)

Lemma read_capacity k st st' bs i b :
  read_does k st st' → bind (R st) = Some bs → bs !! i = Some b →
  ∃ bs' b', bind (R st') = Some bs' ∧ bs' !! i = Some b' ∧
    bind_buffer_length b ≤ bind_buffer_length b' ∧
    (bind_buffer_length b' = bind_buffer_length b ∨
     i = k ∧ ∃ cols c, columns (R st') = Some cols ∧ cols !! k = Some c ∧
       bind_buffer_length b' = real_length c).
Proof.
  intros Hread Hbs Hb.
  destruct Hread as [|cols1 bs1 c1 b1 a1 m2 Hcols1 Hbs1 Hc1 Hb1 Hnull1 Hfit1 Ha1 Hpoke
                     |cols1 bs1 c1 b1 a1 blk Hcols1 Hbs1 Hc1 Hb1 Hnull1 Htrunc Ha1
                        Hlive Hv
                     |cols1 bs1 c1 b1 a1 blk d1 m2 m3 Hcols1 Hbs1 Hc1 Hb1 Hnull1 Htrunc
                        Ha1 Hlive Hv Hlen1 Hm2 Hm3];
    try (rewrite Hbs in Hbs1; injection Hbs1 as <-).
  - exists bs, b. split_and!; [done|done|lia|by left].
  - exists bs, b. norm. split_and!; [done|done|lia|by left].
  - unfold refetched. norm. destruct (decide (i = k)) as [->|Hne].
    + rewrite Hb in Hb1. injection Hb1 as <-.
      eexists _, _. split; [done|].
      split; [apply list_lookup_insert_eq; eauto using lookup_lt_Some|].
      simpl. split; [lia|]. right. split; [done|].
      eexists _, _. split; [done|].
      split; [apply list_lookup_insert_eq; eauto using lookup_lt_Some|done].
    + exists (<[k := grown_bind c1 b1 (length (mem st))]> bs), b.
      rewrite list_lookup_insert_ne by done. split_and!; [done|done|lia|by left].
  - unfold refetched. norm. destruct (decide (i = k)) as [->|Hne].
    + rewrite Hb in Hb1. injection Hb1 as <-.
      eexists _, _. split; [done|].
      split; [apply list_lookup_insert_eq; eauto using lookup_lt_Some|].
      simpl. split; [lia|]. right. split; [done|].
      eexists _, _. split; [done|].
      split; [apply list_lookup_insert_eq; eauto using lookup_lt_Some|done].
    + exists (<[k := grown_bind c1 b1 (length (mem st))]> bs), b.
      rewrite list_lookup_insert_ne by done. split_and!; [done|done|lia|by left].
Qed.

(** X21. In a reachable state, the calls that return or raise never
    shrink the capacity of a column.  A [MysqlResultSet_next] that
    returns or raises leaves every capacity as it is; a
    [MysqlResultSet_getString] or [MysqlResultSet_getBlob] that returns
    or raises changes at most the capacity of the column read, and only
    by raising it to the length the column holds.  Nothing is said of a
    call without defined behaviour. *)
Theorem capacity_never_shrinks st st' bs i b :
  reachable st → bind (R st) = Some bs → bs !! i = Some b →
  (after (MysqlResultSet_next st) st' →
     bind (R st') = Some bs) ∧
  (∀ idx,
     after (MysqlResultSet_getString idx st) st' ∨
     after (MysqlResultSet_getBlob idx st) st' →
     ∃ bs' b', bind (R st') = Some bs' ∧ bs' !! i = Some b' ∧
       bind_buffer_length b ≤ bind_buffer_length b' ∧
       (bind_buffer_length b' = bind_buffer_length b ∨
        i = slot idx ∧ ∃ cols c, columns (R st') = Some cols ∧
          cols !! slot idx = Some c ∧ bind_buffer_length b' = real_length c)).
Proof.
  intros Hreach Hbs Hb. apply reachable_Inv in Hreach as HI. split.
  - intros Hafter.
    destruct (next_keeps_tables st st' HI Hafter) as (_ & _ & -> & _). done.
  - intros idx Hafter. eapply read_capacity; [|done..].
    destruct Hafter; [by apply getString_cases|by apply getBlob_cases].
Qed.

Lemma capacity_never_shrinks_witness :
  let st := state_of (MysqlResultSet_next sample_cursor) sample_cursor in
  let st' := state_of (MysqlResultSet_getString 2 st) st in
  ∃ bs' b', bind (R st') = Some bs' ∧ bs' !! 1%nat = Some b' ∧
    STRLEN ≤ bind_buffer_length b' ∧ bind_buffer_length b' = 500.
Proof.
  intros st st'.
  destruct (capacity_never_shrinks st st' (default [] (bind (R st))) 1
              (init_bind 1 1)) as [_ Hread].
  - apply (reach_next sample_cursor); [apply sample_cursor_reachable|].
    vm_compute. reflexivity.
  - reflexivity.
  - reflexivity.
  - destruct (Hread 2) as (bs' & b' & Hbs' & Hb' & Hle & _).
    { left. vm_compute. reflexivity. }
    exists bs', b'. split_and!; [exact Hbs'|exact Hb'|exact Hle|].
    revert Hbs' Hb'. vm_compute. intros [= <-] [= <-]. reflexivity.
Defined.
